(** * JViewPro: the JSON exploration engine

  A shallow embedding of [src/lib/json-parser.ts] (parser front end,
  structural analyzer, path extraction, search) and of the tree view
  of [src/components/json-tree-view.tsx] (bounded rendering, search,
  result navigation), with the properties of the engine stated and
  proved over it.

  Conventions of the embedding:
  - JavaScript strings are [string]s whose characters are code units
    in the range 0..255;
  - integer-valued JavaScript numbers used as counters and cursors are
    [Z]; a budget, which the caller chooses, is a finite number that
    need not be whole, a [JS.number];
  - a JSON number is kept as the decimal [m * 10^e] it was written as
    (binary64 rounding is not part of the model);
  - a parsed document is a finite tree [json]; the object graph handed
    to the analyzer is a heap of objects addressed by identity, so that
    shared and cyclic values exist in the model;
  - a call that may throw returns a [completion]. *)

From Stdlib Require Import ZArith List String Ascii Lia Bool DecimalString.
From Stdlib Require DecimalPos.
From stdpp Require Import base option list sets gmap strings.

Local Open Scope string_scope.
Local Open Scope list_scope.
Local Open Scope Z_scope.

(** ** Completions: normal return, exception, or recursion budget spent *)

Inductive completion (A : Type) : Type :=
| Normal (a : A)
| Throw (message : string)
| OutOfFuel.
Arguments Normal {A} a.
Arguments Throw {A} message.
Arguments OutOfFuel {A}.

#[global] Instance completion_ret : MRet completion := fun A a => Normal a.
#[global] Instance completion_bind : MBind completion := fun A B k m =>
  match m with
  | Normal a => k a
  | Throw msg => Throw msg
  | OutOfFuel => OutOfFuel
  end.

(** ** The JavaScript built-ins the sources call *)

Module JS.

(** [if (s)] on a string: the empty string is falsy. *)
Definition truthy (s : string) : bool :=
  match s with "" => false | _ => true end.

(** WhiteSpace and LineTerminator code units below 256, as stripped by
    [String.prototype.trim]: TAB, LF, VT, FF, CR, SP, NBSP. *)
Definition isWhiteSpace (c : ascii) : bool :=
  let n := N_of_ascii c in
  ((9 <=? n) && (n <=? 13) || (n =? 32) || (n =? 160))%N.

Fixpoint trimStart (s : list ascii) : list ascii :=
  match s with
  | c :: s' => if isWhiteSpace c then trimStart s' else s
  | [] => []
  end.

Definition trim (s : string) : string :=
  string_of_list_ascii
    (rev (trimStart (rev (trimStart (list_ascii_of_string s))))).

(** [String.prototype.toLowerCase] on code units below 256: A-Z and the
    Latin-1 capitals 0xC0-0xDE (0xD7 is the multiplication sign).  On
    these strings the built-in works character by character; its
    context-sensitive rules (the final sigma) and its mappings to more
    than one character concern characters from U+0100 on, which the
    strings of the model do not contain. *)
Definition lowerChar (c : ascii) : ascii :=
  let n := N_of_ascii c in
  if ((65 <=? n) && (n <=? 90)
      || (192 <=? n) && (n <=? 222) && negb (n =? 215))%N
  then ascii_of_N (n + 32) else c.

Fixpoint toLowerCase (s : string) : string :=
  match s with
  | "" => ""
  | String c s' => String (lowerChar c) (toLowerCase s')
  end.

(** [s.includes(sub)]: [sub] occurs in [s] as a contiguous substring. *)
Fixpoint includes (s sub : string) : bool :=
  String.prefix sub s ||
  match s with
  | "" => false
  | String _ s' => includes s' sub
  end.

(** Decimal rendering of a non-negative integer, [String(i)]. *)
Definition string_of_N (n : N) : string :=
  NilEmpty.string_of_uint (N.to_uint n).

Definition string_of_nat (n : nat) : string := string_of_N (N.of_nat n).

Definition string_of_Z (z : Z) : string :=
  if z <? 0 then "-" +:+ string_of_N (Z.to_N (- z))
  else string_of_N (Z.to_N z).

(** [Number.prototype.toString] (ECMA-262, Number::toString, radix 10)
    for the decimal [m * 10^e]: with [k] significant digits and
    [n = k + e] the position of the decimal point. *)
Fixpoint dropZeros (ds : list ascii) : list ascii :=
  match ds with
  | "0"%char :: ds' => dropZeros ds'
  | _ => ds
  end.

Definition zeros (n : nat) : string :=
  string_of_list_ascii (repeat "0"%char n).

Definition numberToString (m e : Z) : string :=
  if m =? 0 then "0" else
  let all := list_ascii_of_string (string_of_N (Z.to_N (Z.abs m))) in
  let ds := rev (dropZeros (rev all)) in
  let k := Z.of_nat (length ds) in
  let n := Z.of_nat (length all) + e in
  let sign := if m <? 0 then "-" else "" in
  let body :=
    if (k <=? n) && (n <=? 21) then
      string_of_list_ascii ds +:+ zeros (Z.to_nat (n - k))
    else if (0 <? n) && (n <=? 21) then
      string_of_list_ascii (take (Z.to_nat n) ds) +:+ "." +:+
      string_of_list_ascii (drop (Z.to_nat n) ds)
    else if (-6 <? n) && (n <=? 0) then
      "0." +:+ zeros (Z.to_nat (- n)) +:+ string_of_list_ascii ds
    else
      let ex := (if n - 1 <? 0 then "-" else "+") +:+
                string_of_N (Z.to_N (Z.abs (n - 1))) in
      match ds with
      | [d] => String d "" +:+ "e" +:+ ex
      | d :: ds' =>
          String d "" +:+ "." +:+ string_of_list_ascii ds' +:+ "e" +:+ ex
      | [] => "0"
      end
  in sign +:+ body.

(** A finite JavaScript number that need not be whole, as the caller of
    a function may pass for a budget: a whole number, or the decimal
    fraction [m / 10^e].  Every finite binary64 value is one or the
    other.  [NaN] and the infinities are not part of the model. *)
Inductive number : Type :=
| Whole (z : Z)
| Fraction (m : Z) (e : positive).

(** [n < x], [n >= x] and [n > x] for an integer counter [n]. *)
Definition lt (n : Z) (x : number) : bool :=
  match x with
  | Whole z => n <? z
  | Fraction m e => n * 10 ^ Z.pos e <? m
  end.

Definition ge (n : Z) (x : number) : bool :=
  match x with
  | Whole z => n >=? z
  | Fraction m e => n * 10 ^ Z.pos e >=? m
  end.

Definition gt (n : Z) (x : number) : bool :=
  match x with
  | Whole z => n >? z
  | Fraction m e => n * 10 ^ Z.pos e >? m
  end.

(** [Math.floor(x)] and [Math.ceil(x)]. *)
Definition floor (x : number) : Z :=
  match x with
  | Whole z => z
  | Fraction m e => m / 10 ^ Z.pos e
  end.

Definition ceil (x : number) : Z :=
  match x with
  | Whole z => z
  | Fraction m e => - ((- m) / 10 ^ Z.pos e)
  end.

(** [String(x)], as in a template literal. *)
Definition numberText (x : number) : string :=
  match x with
  | Whole z => numberToString z 0
  | Fraction m e => numberToString m (Z.neg e)
  end.

(** [s.split(/[.\[\]]/)]: cut at every delimiter character; adjacent
    delimiters and delimiters at either end yield empty fragments. *)
Definition isPathDelimiter (c : ascii) : bool :=
  (c =? ".")%char || (c =? "[")%char || (c =? "]")%char.

Fixpoint splitOn (delim : ascii -> bool) (s : list ascii) : list (list ascii) :=
  match s with
  | [] => [[]]
  | c :: s' =>
      if delim c then [] :: splitOn delim s'
      else match splitOn delim s' with
           | fragment :: rest => (c :: fragment) :: rest
           | [] => [[c]]
           end
  end.

Definition split (delim : ascii -> bool) (s : string) : list string :=
  map string_of_list_ascii (splitOn delim (list_ascii_of_string s)).

(** [parts.filter(Boolean)] on an array of strings. *)
Definition filterBoolean (parts : list string) : list string :=
  List.filter truthy parts.

End JS.

(** A whole number is a number. *)
Coercion JS.Whole : Z >-> JS.number.

(** ** Values *)

(** A parsed document.  An object is the list of its own enumerable
  properties in [Object.keys] order; its keys are pairwise distinct,
  so [obj[key]] is the value paired with [key]. *)
Unset Elimination Schemes.
Inductive json : Type :=
| JNull
| JBool (b : bool)
| JNumber (m e : Z)
| JString (s : string)
| JArray (items : list json)
| JObject (props : list (string * json)).
Set Elimination Schemes.

(** Induction on documents. *)
Section json_ind.
Context (P : json -> Prop).
Context (Hnull : P JNull) (Hbool : forall b, P (JBool b))
        (Hnumber : forall m e, P (JNumber m e)) (Hstring : forall s, P (JString s))
        (Harray : forall items, Forall P items -> P (JArray items))
        (Hobject : forall props, Forall (fun kv => P kv.2) props -> P (JObject props)).

Fixpoint json_ind (t : json) : P t :=
  match t with
  | JNull => Hnull
  | JBool b => Hbool b
  | JNumber m e => Hnumber m e
  | JString s => Hstring s
  | JArray items =>
      Harray items
        ((fix go (l : list json) : Forall P l :=
            match l with
            | [] => List.Forall_nil P
            | c :: l' => List.Forall_cons P c l' (json_ind c) (go l')
            end) items)
  | JObject props =>
      Hobject props
        ((fix go (l : list (string * json)) : Forall (fun kv => P kv.2) l :=
            match l with
            | [] => List.Forall_nil _
            | kv :: l' => List.Forall_cons _ kv l' (json_ind kv.2) (go l')
            end) props)
  end.
End json_ind.

(** Identity of an object of the heap. *)
Definition addr : Type := list nat.

(** A JavaScript value as the analyzer receives it: a primitive, or a
  reference to an array or plain object. *)
Inductive jsval : Type :=
| VNull
| VBool (b : bool)
| VNumber (m e : Z)
| VString (s : string)
| VRef (a : addr).

Inductive jsobj : Type :=
| OArray (items : list jsval)
| OObject (props : list (string * jsval)).

Definition heap : Type := addr -> jsobj.

(** The object graph that [JSON.parse] materialises for a document: one
  fresh object per array and per object of the text, identified here
  by its position (the child indices leading to it from the root). *)
Module Graph.

Definition val_at (p : addr) (t : json) : jsval :=
  match t with
  | JNull => VNull
  | JBool b => VBool b
  | JNumber m e => VNumber m e
  | JString s => VString s
  | JArray _ | JObject _ => VRef p
  end.

Fixpoint subtree (t : json) (p : addr) : option json :=
  match p with
  | [] => Some t
  | i :: p' =>
      match t with
      | JArray items =>
          match items !! i with
          | Some c => subtree c p'
          | None => None
          end
      | JObject props =>
          match props !! i with
          | Some (_, c) => subtree c p'
          | None => None
          end
      | _ => None
      end
  end.

Definition obj_at (p : addr) (t : json) : jsobj :=
  match t with
  | JArray items => OArray (imap (fun i c => val_at (p ++ [i]) c) items)
  | JObject props =>
      OObject (imap (fun i kv => (kv.1, val_at (p ++ [i]) kv.2)) props)
  | _ => OObject []
  end.

Definition heap_of (t : json) : heap := fun p =>
  match subtree t p with
  | Some s => obj_at p s
  | None => OObject []
  end.

Definition root_of (t : json) : jsval := val_at [] t.

End Graph.

(** ** The built-ins [JSON.parse] and [Number] *)

Module JSON.

Definition quote : ascii := ascii_of_N 34.
Definition backslash : ascii := ascii_of_N 92.

(** JSON whitespace: SP, TAB, LF, CR. *)
Definition isJsonWhitespace (c : ascii) : bool :=
  let n := N_of_ascii c in
  ((n =? 32) || (n =? 9) || (n =? 10) || (n =? 13))%N.

Fixpoint skipWhitespace (s : list ascii) : list ascii :=
  match s with
  | c :: s' => if isJsonWhitespace c then skipWhitespace s' else s
  | [] => []
  end.

Definition isDigit (c : ascii) : bool :=
  let n := N_of_ascii c in ((48 <=? n) && (n <=? 57))%N.

Fixpoint takeDigits (s : list ascii) : list ascii * list ascii :=
  match s with
  | c :: s' =>
      if isDigit c then let (ds, r) := takeDigits s' in (c :: ds, r)
      else ([], s)
  | [] => ([], [])
  end.

Definition digitsValue (ds : list ascii) : Z :=
  fold_left (fun acc c => 10 * acc + (Z.of_N (N_of_ascii c) - 48)) ds 0.

(** number = [ minus ] int [ frac ] [ exp ] *)
Definition parseInt (s : list ascii) : option (list ascii * list ascii) :=
  match s with
  | c :: r =>
      if (c =? "0")%char then Some ([c], r)
      else if isDigit c then let (ds, r') := takeDigits r in Some (c :: ds, r')
      else None
  | [] => None
  end.

Definition parseFrac (s : list ascii) : option (list ascii * list ascii) :=
  match s with
  | c :: r =>
      if (c =? ".")%char then
        match takeDigits r with
        | ([], _) => None
        | (ds, r') => Some (ds, r')
        end
      else Some ([], s)
  | [] => Some ([], [])
  end.

Definition parseSign (s : list ascii) : bool * list ascii :=
  match s with
  | c :: r =>
      if (c =? "-")%char then (true, r)
      else if (c =? "+")%char then (false, r)
      else (false, s)
  | [] => (false, [])
  end.

Definition parseExp (s : list ascii) : option (Z * list ascii) :=
  match s with
  | c :: r =>
      if (c =? "e")%char || (c =? "E")%char then
        let (neg, r1) := parseSign r in
        match takeDigits r1 with
        | ([], _) => None
        | (ds, r2) => Some (if neg then - digitsValue ds else digitsValue ds, r2)
        end
      else Some (0, s)
  | [] => Some (0, [])
  end.

Definition parseNumber (s : list ascii) : option (json * list ascii) :=
  let (neg, s1) := match s with
                   | c :: r => if (c =? "-")%char then (true, r) else (false, s)
                   | [] => (false, [])
                   end in
  '(ip, r1) ← parseInt s1;
  '(fp, r2) ← parseFrac r1;
  '(ex, r3) ← parseExp r2;
  let m := digitsValue (ip ++ fp) in
  Some (JNumber (if neg then - m else m) (ex - Z.of_nat (length fp)), r3).

Definition hexValue (c : ascii) : option N :=
  let n := N_of_ascii c in
  if ((48 <=? n) && (n <=? 57))%N then Some (n - 48)%N
  else if ((97 <=? n) && (n <=? 102))%N then Some (n - 87)%N
  else if ((65 <=? n) && (n <=? 70))%N then Some (n - 55)%N
  else None.

Definition escapeValue (e : ascii) : option ascii :=
  if (e =? quote)%char || (e =? backslash)%char || (e =? "/")%char then Some e
  else if (e =? "b")%char then Some (ascii_of_N 8)
  else if (e =? "f")%char then Some (ascii_of_N 12)
  else if (e =? "n")%char then Some (ascii_of_N 10)
  else if (e =? "r")%char then Some (ascii_of_N 13)
  else if (e =? "t")%char then Some (ascii_of_N 9)
  else None.

(** The characters of a string up to its closing quote.  A [\uXXXX]
    escape is decoded when it denotes a code unit of the 8-bit alphabet
    of this model. *)
Fixpoint parseChars (s acc : list ascii) : option (string * list ascii) :=
  match s with
  | [] => None
  | c :: r =>
      if (c =? quote)%char then Some (string_of_list_ascii (rev acc), r)
      else if (c =? backslash)%char then
        match r with
        | e :: r' =>
            if (e =? "u")%char then
              match r' with
              | h1 :: h2 :: h3 :: h4 :: r'' =>
                  match hexValue h1, hexValue h2, hexValue h3, hexValue h4 with
                  | Some a, Some b, Some c', Some d =>
                      let code := (((a * 16 + b) * 16 + c') * 16 + d)%N in
                      if (code <? 256)%N
                      then parseChars r'' (ascii_of_N code :: acc)
                      else None
                  | _, _, _, _ => None
                  end
              | _ => None
              end
            else
              match escapeValue e with
              | Some c' => parseChars r' (c' :: acc)
              | None => None
              end
        | [] => None
        end
      else if (N_of_ascii c <? 32)%N then None
      else parseChars r (c :: acc)
  end.

Fixpoint stripPrefix (word s : list ascii) : option (list ascii) :=
  match word, s with
  | [], _ => Some s
  | w :: word', c :: s' => if (w =? c)%char then stripPrefix word' s' else None
  | _ :: _, [] => None
  end.

Definition parseLiteral (word : string) (v : json) (s : list ascii)
    : option (json * list ascii) :=
  r ← stripPrefix (list_ascii_of_string word) s; Some (v, r).

(** Own property keys are ordered: array indices ("0", "1", ... up to
    2^32 - 2) ascending first, then the other keys in creation order. *)
Definition arrayIndex (key : string) : option N :=
  match list_ascii_of_string key with
  | [] => None
  | c :: r =>
      if forallb isDigit (c :: r)
         && (negb (c =? "0")%char || bool_decide (r = [])) then
        let v := Z.to_N (digitsValue (c :: r)) in
        if (v <=? 4294967294)%N then Some v else None
      else None
  end.

Fixpoint insertIndexed {V : Type} (i : N) (key : string) (v : V)
    (props : list (string * V)) : list (string * V) :=
  match props with
  | [] => [(key, v)]
  | (k, w) :: rest =>
      match arrayIndex k with
      | Some j =>
          if (j <? i)%N then (k, w) :: insertIndexed i key v rest
          else (key, v) :: props
      | None => (key, v) :: props
      end
  end.

(** [CreateDataProperty(obj, key, v)]: a key already present keeps its
    place and takes the new value. *)
Definition defineProperty {V : Type} (key : string) (v : V)
    (props : list (string * V)) : list (string * V) :=
  if existsb (String.eqb key) (map fst props)
  then map (fun kv => if String.eqb key kv.1 then (key, v) else kv) props
  else match arrayIndex key with
       | Some i => insertIndexed i key v props
       | None => props ++ [(key, v)]
       end.

(** values *( "," value ) "]", the first value starting at [s]. *)
Fixpoint parseElements (value : list ascii -> option (json * list ascii))
    (n : nat) (s : list ascii) (acc : list json) : option (json * list ascii) :=
  match n with
  | O => None
  | S n' =>
      '(v, r) ← value s;
      match skipWhitespace r with
      | c :: r' =>
          if (c =? ",")%char
          then parseElements value n' (skipWhitespace r') (acc ++ [v])
          else if (c =? "]")%char then Some (JArray (acc ++ [v]), r')
          else None
      | [] => None
      end
  end.

(** member *( "," member ) "}", the first member starting at [s]. *)
Fixpoint parseMembers (value : list ascii -> option (json * list ascii))
    (n : nat) (s : list ascii) (acc : list (string * json))
    : option (json * list ascii) :=
  match n with
  | O => None
  | S n' =>
      match s with
      | c :: r =>
          if (c =? quote)%char then
            '(key, r1) ← parseChars r [];
            match skipWhitespace r1 with
            | colon :: r2 =>
                if (colon =? ":")%char then
                  '(v, r3) ← value (skipWhitespace r2);
                  match skipWhitespace r3 with
                  | d :: r4 =>
                      if (d =? ",")%char
                      then parseMembers value n' (skipWhitespace r4)
                                        (defineProperty key v acc)
                      else if (d =? "}")%char
                      then Some (JObject (defineProperty key v acc), r4)
                      else None
                  | [] => None
                  end
                else None
            | [] => None
            end
          else None
      | [] => None
      end
  end.

Fixpoint parseValue (fuel : nat) (s : list ascii) : option (json * list ascii) :=
  match fuel with
  | O => None
  | S fuel' =>
      match s with
      | [] => None
      | c :: r =>
          if (c =? "{")%char then
            match skipWhitespace r with
            | d :: r' =>
                if (d =? "}")%char then Some (JObject [], r')
                else parseMembers (parseValue fuel') fuel' (d :: r') []
            | [] => None
            end
          else if (c =? "[")%char then
            match skipWhitespace r with
            | d :: r' =>
                if (d =? "]")%char then Some (JArray [], r')
                else parseElements (parseValue fuel') fuel' (d :: r') []
            | [] => None
            end
          else if (c =? quote)%char then
            '(str, r') ← parseChars r []; Some (JString str, r')
          else if (c =? "t")%char then parseLiteral "true" (JBool true) s
          else if (c =? "f")%char then parseLiteral "false" (JBool false) s
          else if (c =? "n")%char then parseLiteral "null" JNull s
          else parseNumber s
      end
  end.

(** JSON-text = ws value ws: the text without the whitespace around it
    is one value.  No text nests deeper, or lists more values, than it
    has characters. *)
Definition trimWhitespace (s : list ascii) : list ascii :=
  rev (skipWhitespace (rev (skipWhitespace s))).

Definition parseText (text : string) : option json :=
  let body := trimWhitespace (list_ascii_of_string text) in
  '(v, r) ← parseValue (S (length body)) body;
  match r with
  | [] => Some v
  | _ => None
  end.

(** [JSON.parse(text)]: the value, or a SyntaxError. *)
Definition parse (text : string) : completion json :=
  match parseText text with
  | Some v => Normal v
  | None => Throw "Unexpected token in JSON"
  end.

(** [isNaN(Number(s))] for a string [s]: [Number] yields NaN exactly
    when the trimmed string is neither empty nor a StrNumericLiteral
    (ECMA-262, StringToNumber). *)
Definition isRadixDigit (radix : N) (c : ascii) : bool :=
  match hexValue c with
  | Some v => (v <? radix)%N
  | None => false
  end.

Definition isExponentPart (s : list ascii) : bool :=
  match s with
  | [] => true
  | c :: r =>
      if (c =? "e")%char || (c =? "E")%char then
        match takeDigits (parseSign r).2 with
        | (_ :: _, []) => true
        | _ => false
        end
      else false
  end.

Definition isStrUnsignedDecimalLiteral (s : list ascii) : bool :=
  if bool_decide (s = list_ascii_of_string "Infinity") then true
  else
    let (ip, r) := takeDigits s in
    match r with
    | c :: r1 =>
        if (c =? ".")%char then
          let (fp, r2) := takeDigits r1 in
          negb (bool_decide (ip = []) && bool_decide (fp = [])) && isExponentPart r2
        else negb (bool_decide (ip = [])) && isExponentPart r
    | [] => negb (bool_decide (ip = []))
    end.

Definition isNonDecimalIntegerLiteral (s : list ascii) : bool :=
  match s with
  | z :: x :: (d :: ds) =>
      if negb (z =? "0")%char then false
      else if (x =? "x")%char || (x =? "X")%char then forallb (isRadixDigit 16) (d :: ds)
      else if (x =? "o")%char || (x =? "O")%char then forallb (isRadixDigit 8) (d :: ds)
      else if (x =? "b")%char || (x =? "B")%char then forallb (isRadixDigit 2) (d :: ds)
      else false
  | _ => false
  end.

Definition isStrNumericLiteral (s : list ascii) : bool :=
  isNonDecimalIntegerLiteral s ||
  match s with
  | c :: r =>
      if (c =? "+")%char || (c =? "-")%char
      then isStrUnsignedDecimalLiteral r
      else isStrUnsignedDecimalLiteral s
  | [] => false
  end.

Definition Number_isNaN (s : string) : bool :=
  let t := list_ascii_of_string (JS.trim s) in
  negb (bool_decide (t = []) || isStrNumericLiteral t).

End JSON.

(** ** The texts of JSON values *)

Module Lexeme.

(** A list without the leading characters that [p] accepts. *)
Fixpoint strip (p : ascii -> bool) (s : list ascii) : list ascii :=
  match s with
  | c :: s' => if p c then strip p s' else s
  | [] => []
  end.

(** A run of digits ends at [r]. *)
Definition stops (r : list ascii) : Prop :=
  match r with
  | [] => True
  | c :: _ => JSON.isDigit c = false
  end.

(** The text of an exponent part: [e] or [E], a sign or none, digits. *)
Definition exponentLexeme (el : list ascii) : Prop :=
  el = [] \/
  exists e sg ds, el = e :: sg ++ ds
    /\ (e = "e"%char \/ e = "E"%char)
    /\ (sg = [] \/ sg = ["-"%char] \/ sg = ["+"%char])
    /\ ds <> [] /\ forallb JSON.isDigit ds = true.

(** The text of a fraction: a dot and digits. *)
Definition fractionLexeme (fl : list ascii) : Prop :=
  fl = [] \/
  exists fp, fl = "."%char :: fp /\ fp <> [] /\ forallb JSON.isDigit fp = true.

(** The text of a number: it makes [Number] return a number, it starts
    with a minus sign or a digit and ends with a digit. *)
Definition numberLexeme (b : list ascii) : Prop :=
  JSON.isStrNumericLiteral b = true
  /\ (exists c m, b = c :: m /\ (c = "-"%char \/ JSON.isDigit c = true))
  /\ (exists m d, b = m ++ [d] /\ JSON.isDigit d = true).

(** The text of a value: bracketed, quoted, a literal or a number. *)
Definition valueLexeme (b : list ascii) : Prop :=
  (exists m, b = "{"%char :: m ++ ["}"%char])
  \/ (exists m, b = "["%char :: m ++ ["]"%char])
  \/ (exists m, b = JSON.quote :: m ++ [JSON.quote])
  \/ b = list_ascii_of_string "true"
  \/ b = list_ascii_of_string "false"
  \/ b = list_ascii_of_string "null"
  \/ numberLexeme b.

End Lexeme.

(** ** [src/lib/json-parser.ts]: structural analysis *)

Module JsonParser.

(** [getJsonType] on a value of the object graph. *)
Definition getJsonType_val (h : heap) (data : jsval) : string :=
  match data with
  | VNull => "null"
  | VRef a => match h a with OArray _ => "array" | OObject _ => "object" end
  | VString _ => "string"
  | VNumber _ _ => "number"
  | VBool _ => "boolean"
  end.

(** [getJsonType] on a parsed document. *)
Definition getJsonType (data : json) : string :=
  match data with
  | JNull => "null"
  | JArray _ => "array"
  | JObject _ => "object"
  | JString _ => "string"
  | JNumber _ _ => "number"
  | JBool _ => "boolean"
  end.

(** The variables [traverse] closes over. *)
Module Vars.
Record t : Type := mk {
  depth : Z;
  nodeCount : Z;
  visited : gset addr
}.
End Vars.

(** The record [analyzeJsonStructure] returns. *)
Module Analysis.
Record t : Type := mk {
  depth : Z;
  nodeCount : Z;
  type : string;
  hasCircularReferences : bool
}.
End Analysis.

Definition hasKey {V : Type} (key : string) (props : list (string * V)) : bool :=
  existsb (String.eqb key) (map fst props).

(** [obj.hasOwnProperty(key)].  The method is looked up on [obj]
    itself first: an own property named "hasOwnProperty" shadows
    [Object.prototype.hasOwnProperty], and since its value is a JSON
    value, calling it is a TypeError. *)
Definition call_hasOwnProperty {V : Type}
    (props : list (string * V)) (key : string) : completion bool :=
  if hasKey "hasOwnProperty" props
  then Throw "obj.hasOwnProperty is not a function"
  else Normal (hasKey key props).

Section traverse.
Context (h : heap) (maxDepth maxNodes : JS.number).

(** [for (let i = 0; i < obj.length && nodeCount < maxNodes; i++)
      traverse(obj[i], currentDepth + 1)] *)
Fixpoint for_array (body : jsval -> Vars.t -> completion Vars.t)
    (items : list jsval) (st : Vars.t) : completion Vars.t :=
  match items with
  | [] => Normal st
  | item :: rest =>
      if JS.lt (Vars.nodeCount st) maxNodes
      then st' ← body item st; for_array body rest st'
      else Normal st
  end.

(** [for (const key in obj)
      if (obj.hasOwnProperty(key) && nodeCount < maxNodes)
        traverse(obj[key], currentDepth + 1)] *)
Fixpoint for_in (body : jsval -> Vars.t -> completion Vars.t)
    (obj rest : list (string * jsval)) (st : Vars.t) : completion Vars.t :=
  match rest with
  | [] => Normal st
  | (key, value) :: rest' =>
      own ← call_hasOwnProperty obj key;
      if own && JS.lt (Vars.nodeCount st) maxNodes
      then st' ← body value st; for_in body obj rest' st'
      else for_in body obj rest' st
  end.

(** One stack frame of [traverse] per unit of [fuel]. *)
Fixpoint traverse (fuel : nat) (obj : jsval) (currentDepth : Z)
    (st : Vars.t) : completion Vars.t :=
  match fuel with
  | O => OutOfFuel
  | S fuel' =>
      if JS.ge (Vars.nodeCount st) maxNodes then Normal st
      else if JS.gt currentDepth maxDepth then Normal st
      else
        let st := Vars.mk (Z.max (Vars.depth st) currentDepth)
                          (Vars.nodeCount st + 1)
                          (Vars.visited st) in
        match obj with
        | VRef a =>
            if bool_decide (a ∈ Vars.visited st) then Normal st
            else
              let st := Vars.mk (Vars.depth st) (Vars.nodeCount st)
                                ({[ a ]} ∪ Vars.visited st) in
              let body := fun v => traverse fuel' v (currentDepth + 1) in
              match h a with
              | OArray items => for_array body items st
              | OObject props => for_in body props props st
              end
        | _ => Normal st
        end
  end.

(** The call stack of [traverse] is never deeper than [maxDepth + 2]
    frames, whatever the shape of the graph. *)
Definition stack_bound : nat := S (Z.to_nat (JS.floor maxDepth + 1)).

Definition analyzeJsonStructure (data : jsval) : completion Analysis.t :=
  st ← traverse stack_bound data 0 (Vars.mk 0 0 ∅);
  mret (Analysis.mk (Vars.depth st) (Vars.nodeCount st)
                    (getJsonType_val h data)
                    false).

End traverse.

(** *** [parseJsonString] and [isValidJsonSyntax] *)

Module Options.
Record t : Type := mk {
  maxDepth : option JS.number;
  maxNodes : option JS.number;
  strict : option bool
}.
(** [options = {}] *)
Definition empty : t := mk None None None.
End Options.

(** [parseTime] is wall-clock time and is left out of the model. *)
Module Metadata.
Record t : Type := mk {
  size : Z;
  depth : Z;
  nodeCount : Z;
  type : string;
  isValid : bool
}.
End Metadata.

Module ParseResult.
Record t : Type := mk {
  data : json;
  metadata : Metadata.t;
  errors : list string;
  warnings : list string
}.
End ParseResult.

Definition pushError (msg : string) (r : ParseResult.t) : ParseResult.t :=
  ParseResult.mk (ParseResult.data r) (ParseResult.metadata r)
                 (ParseResult.errors r ++ [msg]) (ParseResult.warnings r).

Definition pushWarning (msg : string) (r : ParseResult.t) : ParseResult.t :=
  ParseResult.mk (ParseResult.data r) (ParseResult.metadata r)
                 (ParseResult.errors r) (ParseResult.warnings r ++ [msg]).

Definition setIsValid (b : bool) (r : ParseResult.t) : ParseResult.t :=
  let m := ParseResult.metadata r in
  ParseResult.mk (ParseResult.data r)
                 (Metadata.mk (Metadata.size m) (Metadata.depth m)
                              (Metadata.nodeCount m) (Metadata.type m) b)
                 (ParseResult.errors r) (ParseResult.warnings r).

Definition setData (parsed : json) (r : ParseResult.t) : ParseResult.t :=
  ParseResult.mk parsed (ParseResult.metadata r)
                 (ParseResult.errors r) (ParseResult.warnings r).

Definition setAnalysis (a : Analysis.t) (r : ParseResult.t) : ParseResult.t :=
  let m := ParseResult.metadata r in
  ParseResult.mk (ParseResult.data r)
                 (Metadata.mk (Metadata.size m) (Analysis.depth a)
                              (Analysis.nodeCount a) (Analysis.type a)
                              (Metadata.isValid m))
                 (ParseResult.errors r) (ParseResult.warnings r).

Definition firstChar (s : string) : option ascii := String.get 0 s.
Definition lastChar (s : string) : option ascii :=
  String.get (String.length s - 1) s.

Definition isValidJsonSyntax (jsonString : string) : bool :=
  if negb (JS.truthy jsonString) then false
  else
    let trimmed := JS.trim jsonString in
    if negb (JS.truthy trimmed) then false
    else
      let first := firstChar trimmed in
      let last := lastChar trimmed in
      if bool_decide (first = Some "{"%char) && bool_decide (last = Some "}"%char)
         || bool_decide (first = Some "["%char) && bool_decide (last = Some "]"%char)
         || bool_decide (first = Some JSON.quote) && bool_decide (last = Some JSON.quote)
         || String.eqb trimmed "true"
         || String.eqb trimmed "false"
         || String.eqb trimmed "null"
         || negb (JSON.Number_isNaN trimmed)
      then
        match JSON.parse trimmed with
        | Normal _ => true
        | _ => false
        end
      else false.

(** The body of [parseJsonString] is one [try] block: an exception thrown
    by [JSON.parse] or by the analysis is caught and reported in
    [errors]; what was stored in [result] before the throw stays. *)
Definition parseJsonString (jsonString : string) (options : Options.t)
    : completion ParseResult.t :=
  let maxDepth := default (JS.Whole 100) (Options.maxDepth options) in
  let maxNodes := default (JS.Whole 10000) (Options.maxNodes options) in
  let strict := default false (Options.strict options) in
  let result :=
    ParseResult.mk JNull
      (Metadata.mk (Z.of_nat (String.length jsonString)) 0 0 "unknown" false)
      [] [] in
  if negb (isValidJsonSyntax jsonString) then
    Normal (pushError "Invalid JSON syntax" result)
  else
    match JSON.parse jsonString with
    | Throw message => Normal (pushError ("JSON Parse Error: " +:+ message) result)
    | OutOfFuel => OutOfFuel
    | Normal parsed =>
        let result := setIsValid true (setData parsed result) in
        match analyzeJsonStructure (Graph.heap_of parsed) maxDepth maxNodes
                                   (Graph.root_of parsed) with
        | Throw message =>
            Normal (pushError ("JSON Parse Error: " +:+ message) result)
        | OutOfFuel => OutOfFuel
        | Normal analysis =>
            let result := setAnalysis analysis result in
            let result :=
              if JS.gt (Analysis.depth analysis) maxDepth then
                pushWarning ("JSON depth (" +:+ JS.string_of_Z (Analysis.depth analysis)
                             +:+ ") exceeds recommended limit ("
                             +:+ JS.numberText maxDepth +:+ ")") result
              else result in
            let result :=
              if JS.gt (Analysis.nodeCount analysis) maxNodes then
                let result :=
                  pushWarning ("Node count (" +:+ JS.string_of_Z (Analysis.nodeCount analysis)
                               +:+ ") exceeds limit ("
                               +:+ JS.numberText maxNodes +:+ ")") result in
                if strict
                then setIsValid false (pushError "Too many nodes for processing" result)
                else result
              else result in
            Normal result
        end
    end.

(** *** Paths: [extractJsonPaths] *)

(** [currentPath ? `${currentPath}[${index}]` : `[${index}]`] *)
Definition indexPath (currentPath : string) (index : nat) : string :=
  if JS.truthy currentPath
  then currentPath +:+ "[" +:+ JS.string_of_nat index +:+ "]"
  else "[" +:+ JS.string_of_nat index +:+ "]".

(** [currentPath ? `${currentPath}.${key}` : key] *)
Definition keyPath (currentPath key : string) : string :=
  if JS.truthy currentPath then currentPath +:+ "." +:+ key else key.

Fixpoint extractJsonPaths_traverse (obj : json) (currentPath : string)
    (paths : list string) {struct obj} : list string :=
  match obj with
  | JArray items =>
      (fix forEach (l : list json) (index : nat) (paths : list string)
         : list string :=
         match l with
         | [] => paths
         | item :: l' =>
             let path := indexPath currentPath index in
             forEach l' (S index)
                     (extractJsonPaths_traverse item path (paths ++ [path]))
         end) items 0%nat paths
  | JObject props =>
      (fix forEach (l : list (string * json)) (paths : list string)
         : list string :=
         match l with
         | [] => paths
         | (key, value) :: l' =>
             let path := keyPath currentPath key in
             forEach l' (extractJsonPaths_traverse value path (paths ++ [path]))
         end) props paths
  | _ => paths
  end.

Definition extractJsonPaths (data : json) : list string :=
  extractJsonPaths_traverse data "" [].

(** *** Search: [searchInJson] *)

Module Hit.
Record t : Type := mk {
  path : string;
  value : json;
  type : string
}.
End Hit.

(** [String(obj)] for a value that is not an object. *)
Definition primitiveToString (obj : json) : string :=
  match obj with
  | JNull => "null"
  | JBool true => "true"
  | JBool false => "false"
  | JNumber m e => JS.numberToString m e
  | JString s => s
  | JArray _ | JObject _ => ""
  end.

Section search.
Context (caseSensitive : bool) (searchTerm : string).

Fixpoint searchInJson_traverse (obj : json) (currentPath : string)
    (results : list Hit.t) {struct obj} : list Hit.t :=
  match obj with
  | JArray items =>
      (fix forEach (l : list json) (index : nat) (results : list Hit.t)
         : list Hit.t :=
         match l with
         | [] => results
         | item :: l' =>
             let path := indexPath currentPath index in
             forEach l' (S index) (searchInJson_traverse item path results)
         end) items 0%nat results
  | JObject props =>
      (fix forEach (l : list (string * json)) (results : list Hit.t)
         : list Hit.t :=
         match l with
         | [] => results
         | (key, value) :: l' =>
             let path := keyPath currentPath key in
             let keyMatch := if caseSensitive then key else JS.toLowerCase key in
             let results :=
               if JS.includes keyMatch searchTerm
               then results ++ [Hit.mk path value (getJsonType value)]
               else results in
             forEach l' (searchInJson_traverse value path results)
         end) props results
  | _ =>
      let stringValue := primitiveToString obj in
      let searchValue :=
        if caseSensitive then stringValue else JS.toLowerCase stringValue in
      if JS.includes searchValue searchTerm
      then results ++ [Hit.mk currentPath obj (getJsonType obj)]
      else results
  end.

End search.

Definition searchInJson (data : json) (query : string) (caseSensitive : bool)
    : list Hit.t :=
  let searchTerm := if caseSensitive then query else JS.toLowerCase query in
  searchInJson_traverse caseSensitive searchTerm data "" [].

End JsonParser.

(** ** [src/components/json-tree-view.tsx] *)

Module TreeView.

Import JsonParser.

(** *** [JsonTreeNode]: the bounded rendering *)

(** What one [JsonTreeNode] element renders to: the "node limit reached"
    line, or a row for the value followed by its rendered children. *)
Unset Elimination Schemes.
Inductive rendered : Type :=
| LimitReached (level : nat)
| Row (path : string) (data : json) (isExpanded : bool)
      (children : list rendered).
Set Elimination Schemes.

(** A [<JsonTreeNode .../>] element that React has not rendered yet:
    given the shared counter [nodeCount.current] it yields its output
    and the counter afterwards.  Creating the element does not call the
    component; React calls it after the parent's function has returned,
    children in the order of the array. *)
Definition element : Type := Z -> rendered * Z.

Fixpoint renderAll (children : list element) (nodeCount : Z)
    : list rendered * Z :=
  match children with
  | [] => ([], nodeCount)
  | child :: rest =>
      let (r, nodeCount) := child nodeCount in
      let (rs, nodeCount) := renderAll rest nodeCount in
      (r :: rs, nodeCount)
  end.

Definition hasChildren (data : json) : bool :=
  match data with
  | JArray items => negb (bool_decide (items = []))
  | JObject props => negb (bool_decide (props = []))
  | _ => false
  end.

Section JsonTreeNode.
Context (maxNodes : JS.number).

Fixpoint JsonTreeNode (data : json) (path : string) (level : nat)
    (isExpanded : bool) (nodeCount : Z) {struct data} : rendered * Z :=
  if JS.ge nodeCount maxNodes then (LimitReached level, nodeCount)
  else
    let nodeCount := nodeCount + 1 in
    let children : list element :=
      if negb isExpanded || negb (hasChildren data) then []
      else
        match data with
        | JArray items =>
            (fix loop (l : list json) (i : nat) : list element :=
               match l with
               | [] => []
               | item :: l' =>
                   if JS.lt nodeCount maxNodes then
                     JsonTreeNode item
                       (path +:+ "[" +:+ JS.string_of_nat i +:+ "]")
                       (S level) false
                     :: loop l' (S i)
                   else []
               end) items 0%nat
        | JObject props =>
            (fix loop (l : list (string * json)) : list element :=
               match l with
               | [] => []
               | (key, value) :: l' =>
                   if JS.lt nodeCount maxNodes then
                     JsonTreeNode value (keyPath path key) (S level) false
                     :: loop l'
                   else []
               end) props
        | _ => []
        end in
    let (rows, nodeCount) := renderAll children nodeCount in
    (Row path data isExpanded rows, nodeCount).

End JsonTreeNode.

(** The component state of [JsonTreeView]. *)
Module State.
Record t : Type := mk {
  expandedPaths : gset string;
  searchTerm : string;
  searchResults : list Hit.t;
  currentSearchIndex : Z
}.
(** [useState] initial values. *)
Definition initial : t := mk {[ "" ]} "" [] (-1).
End State.

Definition handleToggle (path : string) (st : State.t) : State.t :=
  State.mk
    (if bool_decide (path ∈ State.expandedPaths st)
     then State.expandedPaths st ∖ {[ path ]}
     else State.expandedPaths st ∪ {[ path ]})
    (State.searchTerm st) (State.searchResults st)
    (State.currentSearchIndex st).

(** The tree rendered by one render of [JsonTreeView]: a fresh counter
    [{ current: 0 }], the root expanded when the empty path is in
    [expandedPaths]. *)
Definition JsonTreeView (data : json) (maxNodes : JS.number) (st : State.t)
    : rendered :=
  (JsonTreeNode maxNodes data "" 0%nat
                (bool_decide ("" ∈ State.expandedPaths st)) 0).1.

(** The rendered tree read top to bottom. *)
Inductive line : Type :=
| ValueLine (path : string) (data : json)
| LimitLine.

Fixpoint lines (r : rendered) : list line :=
  match r with
  | LimitReached _ => [LimitLine]
  | Row path data _ children =>
      ValueLine path data ::
      (fix go (l : list rendered) : list line :=
         match l with
         | [] => []
         | c :: l' => lines c ++ go l'
         end) children
  end.

(** [path.split(/[.\[\]]/).filter(Boolean)], as in [renderKey] and in the
    auto-expansion of search results. *)
Definition pathParts (path : string) : list string :=
  JS.filterBoolean (JS.split JS.isPathDelimiter path).

(** *** Search inside the view *)

(** [String(obj)] for any value.  An array is its elements joined by
    commas, [null] elements as empty strings; a plain object is
    "[object Object]" unless an own "toString" property, which is not
    callable, hides [Object.prototype.toString]. *)
Fixpoint toStringValue (obj : json) : completion string :=
  match obj with
  | JArray items =>
      (fix join (l : list json) : completion string :=
         match l with
         | [] => Normal ""
         | item :: l' =>
             s ← match item with
                 | JNull => Normal ""
                 | _ => toStringValue item
                 end;
             match l' with
             | [] => Normal s
             | _ => r ← join l'; Normal (s +:+ "," +:+ r)
             end
         end) items
  | JObject props =>
      if hasKey "toString" props
      then Throw "Cannot convert object to primitive value"
      else Normal "[object Object]"
  | _ => Normal (primitiveToString obj)
  end.

Section searchInJson.
Context (searchTerm : string).

(** The array [results] after a call [searchInJson(obj, path, results)]. *)
Fixpoint searchInJson_rec (obj : json) (path : string)
    (results : list Hit.t) {struct obj} : completion (list Hit.t) :=
  if negb (JS.truthy (JS.trim searchTerm)) then Normal results
  else
    let searchLower := JS.toLowerCase searchTerm in
    let type := getJsonType obj in
    valueStr ← toStringValue obj;
    let valueStr := JS.toLowerCase valueStr in
    let results :=
      if JS.includes valueStr searchLower
      then results ++ [Hit.mk path obj type] else results in
    let results :=
      if JS.includes (JS.toLowerCase path) searchLower
      then results ++ [Hit.mk path obj type] else results in
    match obj with
    | JObject props =>
        (fix forEach (l : list (string * json)) (results : list Hit.t)
           : completion (list Hit.t) :=
           match l with
           | [] => Normal results
           | (key, value) :: l' =>
               let newPath := keyPath path key in
               results ← searchInJson_rec value newPath results;
               forEach l' results
           end) props results
    | JArray items =>
        (fix forEach (l : list json) (index : nat) (results : list Hit.t)
           : completion (list Hit.t) :=
           match l with
           | [] => Normal results
           | item :: l' =>
               let newPath := path +:+ "[" +:+ JS.string_of_nat index +:+ "]" in
               results ← searchInJson_rec item newPath results;
               forEach l' (S index) results
           end) items 0%nat results
    | _ => Normal results
    end.

(** [searchInJson(data)]: an empty or blank term returns a fresh empty
    array. *)
Definition searchInJson (data : json) : completion (list Hit.t) :=
  if negb (JS.truthy (JS.trim searchTerm)) then Normal []
  else searchInJson_rec data "" [].

End searchInJson.

(** The paths the effect adds to [expandedPaths] for one result. *)
Definition expansionOf (resultPath : string) : list string :=
  let bracketed :=
    JS.includes resultPath "[" && JS.includes resultPath "]" in
  (fix go (parts : list string) (index : nat) (currentPath : string)
     : list string :=
     match parts with
     | [] => []
     | part :: parts' =>
         let currentPath :=
           if (index =? 0)%nat then part
           else if bracketed then currentPath +:+ "[" +:+ part +:+ "]"
           else currentPath +:+ "." +:+ part in
         currentPath :: go parts' (S index) currentPath
     end) (pathParts resultPath) 0%nat "".

(** The effect that runs when the search term or the data change. *)
Definition searchEffect (data : json) (st : State.t) : completion State.t :=
  results ← searchInJson (State.searchTerm st) data;
  let index := if bool_decide (results = []) then -1 else 0 in
  let expanded :=
    if negb (bool_decide (results = []))
       && JS.truthy (JS.trim (State.searchTerm st))
    then State.expandedPaths st
         ∪ list_to_set (concat (map (fun r => expansionOf (Hit.path r)) results))
         ∪ {[ "" ]}
    else State.expandedPaths st in
  Normal (State.mk expanded (State.searchTerm st) results index).

(** *** Navigation between results *)

Inductive direction : Type := next | prev.

(** [navigateSearchResults(direction)], as the new value of
    [currentSearchIndex]. *)
Definition navigateSearchResults (d : direction) (st : State.t) : State.t :=
  let len := Z.of_nat (length (State.searchResults st)) in
  if len =? 0 then st
  else
    let cur := State.currentSearchIndex st in
    State.mk (State.expandedPaths st) (State.searchTerm st)
             (State.searchResults st)
             match d with
             | next => if cur <? len - 1 then cur + 1 else 0
             | prev => if cur >? 0 then cur - 1 else len - 1
             end.

(** *** The other state updates of the view *)

(** [expandAll]: the root and the twenty paths [item0] ... [item19]. *)
Definition expandAll (st : State.t) : State.t :=
  State.mk
    (list_to_set
       ("" :: map (fun i => "item" +:+ JS.string_of_nat i) (seq 0 20)))
    (State.searchTerm st) (State.searchResults st)
    (State.currentSearchIndex st).

(** [collapseAll]: the empty set. *)
Definition collapseAll (st : State.t) : State.t :=
  State.mk ∅ (State.searchTerm st) (State.searchResults st)
           (State.currentSearchIndex st).

(** [onChange] of the search input. *)
Definition setSearchTerm (term : string) (st : State.t) : State.t :=
  State.mk (State.expandedPaths st) term (State.searchResults st)
           (State.currentSearchIndex st).

(** [searchResults[currentSearchIndex]], [undefined] out of range. *)
Definition resultAt (results : list Hit.t) (index : Z) : option Hit.t :=
  if index <? 0 then None else results !! Z.to_nat index.

(** The two highlighting tests of a row. *)
Definition isCurrentSearchResult (st : State.t) (path : string) : bool :=
  negb (bool_decide (State.searchResults st = []))
  && (State.currentSearchIndex st >=? 0)
  && match resultAt (State.searchResults st) (State.currentSearchIndex st) with
     | Some result => String.eqb (Hit.path result) path
     | None => false
     end.

Definition isSearchResult (st : State.t) (path : string) : bool :=
  existsb (fun result => String.eqb (Hit.path result) path)
          (State.searchResults st).

End TreeView.

(** ** [src/components/json-syntax-highlighter.tsx] *)

Module SyntaxHighlighter.

Inductive tokenType : Type :=
| key | string_ | number | boolean | null | punctuation | whitespace | error.

Module Token.
Record t : Type := mk {
  type : tokenType;
  value : string;
  line : Z;
  column : Z
}.
End Token.

(** The variables [tokenizeJson] closes over, the index [i] apart. *)
Module Lexer.
Record t : Type := mk {
  tokens : list Token.t;
  line : Z;
  column : Z
}.
Definition initial : t := mk [] 1 1.
End Lexer.

Definition newline : ascii := ascii_of_N 10.

(** [addToken(type, value)]: the token is pushed with the current
    position, then the position moves over the characters of [value]. *)
Definition addToken (type : tokenType) (value : list ascii) (st : Lexer.t)
    : Lexer.t :=
  let moved :=
    fold_left
      (fun (position : Z * Z) (char : ascii) =>
         if (char =? newline)%char then (position.1 + 1, 1)
         else (position.1, position.2 + 1))
      value (Lexer.line st, Lexer.column st) in
  Lexer.mk
    (Lexer.tokens st
     ++ [Token.mk type (string_of_list_ascii value) (Lexer.line st) (Lexer.column st)])
    moved.1 moved.2.

(** [while (i < code.length && test(code[i])) { text += code[i]; i++ }] *)
Fixpoint takeWhile (test : ascii -> bool) (code : list ascii)
    : list ascii * list ascii :=
  match code with
  | c :: code' =>
      if test c then
        let (text, rest) := takeWhile test code' in (c :: text, rest)
      else ([], code)
  | [] => ([], [])
  end.

(** The loop that reads a string after its opening quote: up to and
    including the first quote that no backslash escapes, or to the end
    of the code. *)
Fixpoint scanString (code : list ascii) (escaped : bool)
    : list ascii * list ascii :=
  match code with
  | [] => ([], [])
  | currentChar :: code' =>
      if escaped then
        let (text, rest) := scanString code' false in (currentChar :: text, rest)
      else if (currentChar =? JSON.backslash)%char then
        let (text, rest) := scanString code' true in (currentChar :: text, rest)
      else if (currentChar =? JSON.quote)%char then ([currentChar], code')
      else
        let (text, rest) := scanString code' false in (currentChar :: text, rest)
  end.

(** A sign, digits, a dot with digits, an exponent mark with a sign and
    digits; every part may be missing. *)
Definition scanNumber (code : list ascii) : list ascii * list ascii :=
  let (sign, r0) :=
    match code with
    | c :: r => if (c =? "-")%char then ([c], r) else ([], code)
    | [] => ([], [])
    end in
  let (integer, r1) := takeWhile JSON.isDigit r0 in
  let (decimal, r2) :=
    match r1 with
    | c :: r =>
        if (c =? ".")%char then
          let (digits, r') := takeWhile JSON.isDigit r in (c :: digits, r')
        else ([], r1)
    | [] => ([], [])
    end in
  let (exponent, r3) :=
    match r2 with
    | c :: r =>
        if (c =? "e")%char || (c =? "E")%char then
          let (sign', r') :=
            match r with
            | s :: r'' =>
                if (s =? "+")%char || (s =? "-")%char then ([s], r'') else ([], r)
            | [] => ([], [])
            end in
          let (digits, r'') := takeWhile JSON.isDigit r' in
          (c :: sign' ++ digits, r'')
        else ([], r2)
    | [] => ([], [])
    end in
  (sign ++ integer ++ decimal ++ exponent, r3).

(** [/[{}[\]:,]/] *)
Definition isPunctuation (c : ascii) : bool :=
  (c =? "{")%char || (c =? "}")%char || (c =? "[")%char || (c =? "]")%char
  || (c =? ":")%char || (c =? ",")%char.

(** [code.slice(i, i + word.length) === word] *)
Definition startsWith (word : string) (code : list ascii) : option (list ascii) :=
  JSON.stripPrefix (list_ascii_of_string word) code.

(** One round of the [while] loop at the code that is left: the token
    that is added and the code after it. *)
Definition nextToken (code : list ascii)
    : option (tokenType * list ascii * list ascii) :=
  match code with
  | [] => None
  | char :: rest =>
      if JS.isWhiteSpace char then
        let (text, code') := takeWhile JS.isWhiteSpace code in
        Some (whitespace, text, code')
      else if (char =? JSON.quote)%char then
        let (text, code') := scanString rest false in
        let isKey :=
          match (takeWhile JS.isWhiteSpace code').2 with
          | c :: _ => (c =? ":")%char
          | [] => false
          end in
        Some (if isKey then key else string_, char :: text, code')
      else if JSON.isDigit char || (char =? "-")%char then
        let (text, code') := scanNumber code in
        Some (number, text, code')
      else
        match (if (char =? "t")%char then startsWith "true" code else None) with
        | Some code' => Some (boolean, list_ascii_of_string "true", code')
        | None =>
        match (if (char =? "f")%char then startsWith "false" code else None) with
        | Some code' => Some (boolean, list_ascii_of_string "false", code')
        | None =>
        match (if (char =? "n")%char then startsWith "null" code else None) with
        | Some code' => Some (null, list_ascii_of_string "null", code')
        | None =>
            if isPunctuation char then Some (punctuation, [char], rest)
            else Some (error, [char], rest)
        end end end
  end.

(** The [while (i < code.length)] loop, one round per unit of [fuel]. *)
Fixpoint tokenize (fuel : nat) (code : list ascii) (st : Lexer.t)
    : completion Lexer.t :=
  match nextToken code with
  | None => Normal st
  | Some (type, text, code') =>
      match fuel with
      | O => OutOfFuel
      | S fuel' => tokenize fuel' code' (addToken type text st)
      end
  end.

(** Every round moves the index forward, so the loop makes no more
    rounds than the code has characters. *)
Definition tokenizeJson (code : string) : completion (list Token.t) :=
  st ← tokenize (String.length code) (list_ascii_of_string code) Lexer.initial;
  Normal (Lexer.tokens st).

(** [Math.max(1, ...tokens.map(t => t.line))] *)
Definition lineCount (tokens : list Token.t) : Z :=
  fold_left Z.max (map Token.line tokens) 1.

(** The text that [JsonSyntaxHighlighter] shows for JSON code: the
    values of the tokens on the first [maxLines] lines, of all tokens
    when [maxLines] is not given or zero. *)
Definition displayTokens (maxLines : option Z) (tokens : list Token.t)
    : list Token.t :=
  match maxLines with
  | Some n =>
      if n =? 0 then tokens
      else List.filter (fun token => Token.line token <=? n) tokens
  | None => tokens
  end.

Definition shownText (tokens : list Token.t) : string :=
  fold_right (fun token text => Token.value token +:+ text) "" tokens.

End SyntaxHighlighter.

(** ** [src/app/page.tsx]: the files of the page *)

Module HomePage.

Import JsonParser.

(** [FILE_LIMITS.freeViewLimit] *)
Definition freeViewLimit : JS.number := 50.

Module FileData.
Record t : Type := mk {
  name : string;
  size : Z;
  type : string;
  content : string;
  lastModified : Z;
  parsedData : option json;
  metadata : option Metadata.t;
  errors : option (list string);
  warnings : option (list string);
  extractedFrom : option string
}.
End FileData.

(** The binary64 value of the decimal [m * 10^e] is zero: the decimal
    is zero, or it is at most [2^-1075], half the smallest positive
    binary64 number. *)
Definition roundsToZero (m e : Z) : bool :=
  (m =? 0) || ((e <? 0) && (Z.abs m * 2 ^ 1075 <=? 10 ^ (- e))).

(** [value ? ... : ...] on a parsed value. *)
Definition isTruthy (value : json) : bool :=
  match value with
  | JNull => false
  | JBool b => b
  | JNumber m e => negb (roundsToZero m e)
  | JString s => JS.truthy s
  | JArray _ | JObject _ => true
  end.

(** The callback of [newFiles.map] in [handleFileSelect]. *)
Definition processFile (file : FileData.t) : completion FileData.t :=
  match parseJsonString (FileData.content file)
          (Options.mk None (Some freeViewLimit) (Some false)) with
  | Normal parseResult =>
      Normal (FileData.mk (FileData.name file) (FileData.size file)
                (FileData.type file) (FileData.content file)
                (FileData.lastModified file)
                (Some (ParseResult.data parseResult))
                (Some (ParseResult.metadata parseResult))
                (Some (ParseResult.errors parseResult))
                (Some (ParseResult.warnings parseResult))
                (FileData.extractedFrom file))
  | Throw message =>
      Normal (FileData.mk (FileData.name file) (FileData.size file)
                (FileData.type file) (FileData.content file)
                (FileData.lastModified file)
                (FileData.parsedData file) (FileData.metadata file)
                (Some ["Failed to process: " +:+ message])
                (FileData.warnings file)
                (FileData.extractedFrom file))
  | OutOfFuel => OutOfFuel
  end.

Fixpoint processFiles (newFiles : list FileData.t)
    : completion (list FileData.t) :=
  match newFiles with
  | [] => Normal []
  | file :: rest =>
      processed ← processFile file;
      others ← processFiles rest;
      Normal (processed :: others)
  end.

Inductive viewMode : Type := tree | raw.

Module State.
Record t : Type := mk {
  files : list FileData.t;
  activeFileIndex : Z;
  viewMode : viewMode
}.
(** [useState] initial values. *)
Definition initial : t := mk [] 0 tree.
End State.

Definition filesLength (st : State.t) : Z :=
  Z.of_nat (length (State.files st)).

(** [files[index]], [undefined] out of range. *)
Definition fileAt (files : list FileData.t) (index : Z) : option FileData.t :=
  if index <? 0 then None else files !! Z.to_nat index.

(** [files[activeFileIndex]] *)
Definition activeFile (st : State.t) : option FileData.t :=
  fileAt (State.files st) (State.activeFileIndex st).

Definition handleFileSelect (newFiles : list FileData.t) (st : State.t)
    : completion State.t :=
  processedFiles ← processFiles newFiles;
  Normal (State.mk (State.files st ++ processedFiles)
                   (if filesLength st =? 0 then 0 else State.activeFileIndex st)
                   (State.viewMode st)).

(** [prev.filter((_, i) => i !== index)] *)
Fixpoint filterOut {A : Type} (index : Z) (i : Z) (prev : list A) : list A :=
  match prev with
  | [] => []
  | x :: rest =>
      if i =? index then filterOut index (i + 1) rest
      else x :: filterOut index (i + 1) rest
  end.

Definition handleRemoveFile (index : Z) (st : State.t) : State.t :=
  let newFiles := filterOut index 0 (State.files st) in
  let newLength := Z.of_nat (length newFiles) in
  let active := State.activeFileIndex st in
  State.mk newFiles
    (if (index =? active) && (newLength >? 0)
     then Z.min active (newLength - 1)
     else if newLength =? 0 then 0
     else active)
    (State.viewMode st).

(** The keyboard shortcuts Ctrl+ArrowUp and Ctrl+ArrowDown. *)
Definition previousFile (st : State.t) : State.t :=
  if filesLength st >? 0 then
    let prev := State.activeFileIndex st in
    State.mk (State.files st)
             (if prev >? 0 then prev - 1 else filesLength st - 1)
             (State.viewMode st)
  else st.

Definition nextFile (st : State.t) : State.t :=
  if filesLength st >? 0 then
    let prev := State.activeFileIndex st in
    State.mk (State.files st)
             (if prev <? filesLength st - 1 then prev + 1 else 0)
             (State.viewMode st)
  else st.

(** What the main area shows below the upload card. *)
Inductive panel : Type :=
| EmptyState
| NoPanel
| FailedToParse (errors : list string)
| TreePanel (data : json) (maxNodes : JS.number)
| RawPanel (code : string)
| Processing.

Definition mainPanel (st : State.t) : panel :=
  if filesLength st =? 0 then EmptyState
  else
    match activeFile st with
    | None => NoPanel
    | Some file =>
        match FileData.errors file with
        | Some (e :: errors) => FailedToParse (e :: errors)
        | _ =>
            match FileData.parsedData file with
            | Some data =>
                if isTruthy data then
                  match State.viewMode st with
                  | tree => TreePanel data freeViewLimit
                  | raw => RawPanel (FileData.content file)
                  end
                else Processing
            | None => Processing
            end
        end
    end.

End HomePage.

(** ** [src/lib/zip-extractor.ts] *)

Module ZipExtractor.

Import HomePage.

(** A promise that has settled. *)
Inductive settled (A : Type) : Type :=
| Resolved (value : A)
| Rejected (message : string).
Arguments Resolved {A} value.
Arguments Rejected {A} message.

(** An entry of [zipContent.files]: its name, whether it is a
    directory, how [async('string')] settles, and the time value of its
    date when it has a valid one. *)
Module ZipObject.
Record t : Type := mk {
  name : string;
  dir : bool;
  content : settled string;
  date : option Z
}.
End ZipObject.

Module Options.
Record t : Type := mk {
  maxFileSize : option Z;
  maxFiles : option Z;
  supportedExtensions : option (list string)
}.
End Options.

(** [DEFAULT_OPTIONS] *)
Definition defaultMaxFileSize : Z := 10 * 1024 * 1024.
Definition defaultMaxFiles : Z := 50.
Definition defaultExtensions : list string := [".json"; ".txt"].

Module Result.
Record t : Type := mk {
  files : list FileData.t;
  errors : list string;
  warnings : list string;
  totalExtracted : Z;
  totalSkipped : Z
}.
End Result.

(** [array.slice(0, end)] *)
Definition slice0 {A : Type} (finish : Z) (l : list A) : list A :=
  let len := Z.of_nat (length l) in
  take (Z.to_nat (if finish <? 0 then Z.max (len + finish) 0 else Z.min finish len)) l.

(** ['.' + fileName.split('.').pop()?.toLowerCase()] *)
Definition fileExtension (fileName : string) : string :=
  "." +:+ JS.toLowerCase
            (List.last (JS.split (fun c => (c =? ".")%char) fileName) "").

(** [array.includes(s)] on an array of strings. *)
Definition includes (l : list string) (s : string) : bool :=
  existsb (String.eqb s) l.

(** [Math.round(length / (1024 * 1024))] *)
Definition megabytes (length : Z) : Z :=
  (2 * length + 1024 * 1024) / (2 * (1024 * 1024)).

Definition skip (warning : string) (result : Result.t) : Result.t :=
  Result.mk (Result.files result) (Result.errors result)
            (Result.warnings result ++ [warning])
            (Result.totalExtracted result) (Result.totalSkipped result + 1).

Definition warn (warning : string) (result : Result.t) : Result.t :=
  Result.mk (Result.files result) (Result.errors result)
            (Result.warnings result ++ [warning])
            (Result.totalExtracted result) (Result.totalSkipped result).

Definition fail (error : string) (result : Result.t) : Result.t :=
  Result.mk (Result.files result) (Result.errors result ++ [error])
            (Result.warnings result)
            (Result.totalExtracted result) (Result.totalSkipped result).

Section extractZipFile.
(** The name of the archive, the resolved options and [Date.now()]. *)
Context (archive : string) (maxFileSize : Z) (extensions : list string) (now : Z).

(** The body of the loop over [zipFiles]. *)
Definition extractEntry (result : Result.t) (zipFile : ZipObject.t) : Result.t :=
  let fileName := ZipObject.name zipFile in
  let extension := fileExtension fileName in
  if negb (includes extensions extension) then
    skip ("Skipped " +:+ fileName +:+ ": Unsupported file type") result
  else
    match ZipObject.content zipFile with
    | Resolved content =>
        let length := Z.of_nat (String.length content) in
        if length >? maxFileSize then
          skip ("Skipped " +:+ fileName +:+ ": Extracted content too large ("
                +:+ JS.string_of_Z (megabytes length) +:+ "MB)") result
        else if length =? 0 then
          skip ("Skipped " +:+ fileName +:+ ": File is empty") result
        else
          let extractedFile :=
            FileData.mk fileName length extension content
              (match ZipObject.date zipFile with
               | Some time => if time =? 0 then now else time
               | None => now
               end)
              None None None None (Some archive) in
          Result.mk (Result.files result ++ [extractedFile])
                    (Result.errors result) (Result.warnings result)
                    (Result.totalExtracted result + 1)
                    (Result.totalSkipped result)
    | Rejected message =>
        let result :=
          Result.mk (Result.files result) (Result.errors result)
                    (Result.warnings result)
                    (Result.totalExtracted result) (Result.totalSkipped result + 1) in
        fail ("Failed to extract " +:+ fileName +:+ ": " +:+ message) result
    end.

End extractZipFile.

(** [extractZipFile(file, options)], given how [zip.loadAsync(file)]
    settles.  The progress callback, which the loop calls once for each
    file, is taken to return. *)
Definition extractZipFile (archive : string)
    (loaded : settled (list ZipObject.t)) (options : Options.t) (now : Z)
    : Result.t :=
  let maxFileSize := default defaultMaxFileSize (Options.maxFileSize options) in
  let maxFiles := default defaultMaxFiles (Options.maxFiles options) in
  let extensions := default defaultExtensions (Options.supportedExtensions options) in
  let result := Result.mk [] [] [] 0 0 in
  match loaded with
  | Resolved entries =>
      let zipFiles :=
        slice0 maxFiles (List.filter (fun zipFile => negb (ZipObject.dir zipFile)) entries) in
      if Z.of_nat (length zipFiles) =? 0 then
        warn "ZIP file contains no extractable files" result
      else
        let result :=
          if Z.of_nat (length entries) >? maxFiles then
            warn ("ZIP contains " +:+ JS.string_of_Z (Z.of_nat (length entries))
                  +:+ " files, only processing first " +:+ JS.string_of_Z maxFiles)
                 result
          else result in
        let result :=
          fold_left (extractEntry archive maxFileSize extensions now) zipFiles result in
        if (Z.of_nat (length (Result.files result)) =? 0)
           && (Z.of_nat (length (Result.errors result)) =? 0)
        then warn "No compatible files found in ZIP archive" result
        else result
  | Rejected message => fail ("Failed to process ZIP file: " +:+ message) result
  end.

(** [parts.join(', ')] *)
Fixpoint join (separator : string) (parts : list string) : string :=
  match parts with
  | [] => ""
  | [part] => part
  | part :: rest => part +:+ separator +:+ join separator rest
  end.

Definition plural (count : Z) : string := if count =? 1 then "" else "s".

Definition getZipExtractionSummary (result : Result.t) : string :=
  let errors := Z.of_nat (length (Result.errors result)) in
  let warnings := Z.of_nat (length (Result.warnings result)) in
  let parts :=
    (if Result.totalExtracted result >? 0
     then [JS.string_of_Z (Result.totalExtracted result) +:+ " file"
           +:+ plural (Result.totalExtracted result) +:+ " extracted"]
     else [])
    ++ (if Result.totalSkipped result >? 0
        then [JS.string_of_Z (Result.totalSkipped result) +:+ " skipped"]
        else [])
    ++ (if errors >? 0
        then [JS.string_of_Z errors +:+ " error" +:+ plural errors]
        else [])
    ++ (if warnings >? 0
        then [JS.string_of_Z warnings +:+ " warning" +:+ plural warnings]
        else []) in
  let joined := join ", " parts in
  if JS.truthy joined then joined else "No files processed".

End ZipExtractor.

(** ** Measures of a document and invariants of the traversal *)

Module Measure.

Definition zsum (l : list Z) : Z := foldr Z.add 0 l.

Definition children (t : json) : list json :=
  match t with
  | JArray items => items
  | JObject props => map snd props
  | _ => []
  end.

(** The number of values of [t] at nesting level below [n]. *)
Fixpoint nodesWithin (n : nat) (t : json) : Z :=
  match n with
  | O => 0
  | S n' => 1 + zsum (map (nodesWithin n') (children t))
  end.

(** The number of values of [t], root and leaves included. *)
Fixpoint nodeTotal (t : json) : Z :=
  match t with
  | JArray items => 1 + zsum (map nodeTotal items)
  | JObject props => 1 + zsum (map (fun kv => nodeTotal kv.2) props)
  | _ => 1
  end.

(** The deepest nesting level of [t], the root being at level 0. *)
Fixpoint nesting (t : json) : nat :=
  match t with
  | JArray items => foldr Nat.max 0%nat (map (fun c => S (nesting c)) items)
  | JObject props => foldr Nat.max 0%nat (map (fun kv => S (nesting kv.2)) props)
  | _ => 0%nat
  end.

(** The deepest nesting level of [t] among its values at nesting level
    below [n], the root being at level 0. *)
Fixpoint nestingWithin (n : nat) (t : json) : nat :=
  match n with
  | O => 0%nat
  | S n' =>
      match n' with
      | O => 0%nat
      | S _ => foldr Nat.max 0%nat (map (fun c => S (nestingWithin n' c)) (children t))
      end
  end.

(** No object of [t] has an own property named "hasOwnProperty". *)
Fixpoint plainKeys (t : json) : bool :=
  match t with
  | JArray items => forallb plainKeys items
  | JObject props =>
      negb (JsonParser.hasKey "hasOwnProperty" props)
      && forallb (fun kv => plainKeys kv.2) props
  | _ => true
  end.

(** No object of [t] has an own property named [key]. *)
Fixpoint withoutKey (key : string) (t : json) : bool :=
  match t with
  | JArray items => forallb (withoutKey key) items
  | JObject props =>
      negb (JsonParser.hasKey key props)
      && forallb (fun kv => withoutKey key kv.2) props
  | _ => true
  end.

(** No object of the heap has an own property named "hasOwnProperty". *)
Definition plainHeap (h : heap) : Prop :=
  forall a props,
    h a = OObject props -> JsonParser.hasKey "hasOwnProperty" props = false.

(** No visited object lies at or below position [p]. *)
Definition unvisited_below (p : addr) (vis : gset addr) : Prop :=
  forall a, a ∈ vis -> ~ p `prefix_of` a.

(** Two runs of the traversal, the first under the node budget [N] and
    the second under a larger one: they are in the same state, or the
    first has used up its budget and the second has counted further. *)
Definition overtaken (N : Z) (s1 s2 : JsonParser.Vars.t) : Prop :=
  s1 = s2
  \/ (N <= JsonParser.Vars.nodeCount s1
      /\ JsonParser.Vars.nodeCount s1 <= JsonParser.Vars.nodeCount s2).

End Measure.

(** ** Paths as segment lists *)

Module Path.

Import JsonParser.

Inductive segment : Type :=
| Key (key : string)
| Index (index : nat).

(** The rendering of a child's path from its parent's, as
    [extractJsonPaths], [searchInJson] and [JsonTreeNode] compute it. *)
Definition extend (currentPath : string) (s : segment) : string :=
  match s with
  | Key key => keyPath currentPath key
  | Index index => indexPath currentPath index
  end.

Definition render (segments : list segment) : string :=
  fold_left extend segments "".

(** A segment as text: the key itself, an index in decimal. *)
Definition text (s : segment) : string :=
  match s with
  | Key key => key
  | Index index => JS.string_of_nat index
  end.

(** The positions below the root of a document, in document order. *)
Fixpoint positions (t : json) (here : list segment) {struct t}
    : list (list segment) :=
  match t with
  | JArray items =>
      (fix each (l : list json) (index : nat) : list (list segment) :=
         match l with
         | [] => []
         | item :: l' =>
             let p := here ++ [Index index] in
             p :: positions item p ++ each l' (S index)
         end) items 0%nat
  | JObject props =>
      (fix each (l : list (string * json)) : list (list segment) :=
         match l with
         | [] => []
         | (key, value) :: l' =>
             let p := here ++ [Key key] in
             p :: positions value p ++ each l'
         end) props
  | _ => []
  end.

Definition plainChar (c : ascii) : bool := negb (JS.isPathDelimiter c).

(** A key the path syntax can carry: not empty, none of [.], [[], []]. *)
Definition plainKey (key : string) : bool :=
  JS.truthy key && forallb plainChar (list_ascii_of_string key).

Definition plainSegment (s : segment) : bool :=
  match s with
  | Key key => plainKey key
  | Index _ => true
  end.

(** The non-empty fragments of a character list cut at the characters
    [delim] accepts. *)
Definition nonempty (l : list ascii) : bool := negb (bool_decide (l = [])).

Definition tokens (delim : ascii -> bool) (l : list ascii) : list (list ascii) :=
  List.filter nonempty (JS.splitOn delim l).

(** A path that starts with a key and goes on with keys only, or with
    indices only. *)
Definition isKey (s : segment) : bool :=
  match s with Key _ => true | Index _ => false end.

Definition isIndex (s : segment) : bool :=
  match s with Key _ => false | Index _ => true end.

Definition uniform (segments : list segment) : bool :=
  match segments with
  | Key _ :: rest => forallb isKey rest || forallb isIndex rest
  | _ => false
  end.

(** The prefixes of a list that are not empty, shortest first. *)
Definition prefixes {A : Type} (l : list A) : list (list A) :=
  map (fun n => take n l) (seq 1 (length l)).

End Path.

(** ** The search as the specification words it *)

Module SearchSpec.

Import JsonParser.

(** A value of the document where the traversal meets it: its path, the
    key it is a member under (none for the root and for array elements)
    and the value itself. *)
Record node : Type := mkNode {
  nodePath : string;
  nodeKey : option string;
  nodeValue : json
}.

(** The nodes of a document in depth-first pre-order: a node, then the
    nodes of each child in turn, keys in [Object.keys] order and elements
    in index order. *)
Fixpoint nodes (t : json) (path : string) (key : option string) {struct t}
    : list node :=
  mkNode path key t ::
  match t with
  | JArray items =>
      (fix each (l : list json) (index : nat) : list node :=
         match l with
         | [] => []
         | item :: l' =>
             nodes item (indexPath path index) None ++ each l' (S index)
         end) items 0%nat
  | JObject props =>
      (fix each (l : list (string * json)) : list node :=
         match l with
         | [] => []
         | (k, value) :: l' =>
             nodes value (keyPath path k) (Some k) ++ each l'
         end) props
  | _ => []
  end.

Definition isScalar (t : json) : bool :=
  match t with
  | JArray _ | JObject _ => false
  | _ => true
  end.

Section matching.
Context (caseSensitive : bool) (searchTerm : string).

Definition folded (s : string) : string :=
  if caseSensitive then s else JS.toLowerCase s.

(** The member's key contains the query. *)
Definition keyMatches (n : node) : bool :=
  match nodeKey n with
  | Some k => JS.includes (folded k) searchTerm
  | None => false
  end.

(** The node is a scalar whose string representation contains the query. *)
Definition valueMatches (n : node) : bool :=
  isScalar (nodeValue n)
  && JS.includes (folded (primitiveToString (nodeValue n))) searchTerm.

Definition hitAt (n : node) : Hit.t :=
  Hit.mk (nodePath n) (nodeValue n) (getJsonType (nodeValue n)).

(** One hit per reason the node matches, the key first. *)
Definition hitsOf (n : node) : list Hit.t :=
  (if keyMatches n then [hitAt n] else [])
  ++ (if valueMatches n then [hitAt n] else []).

(** The two hits of a node taken apart. *)
Definition valueHit (path : string) (t : json) : list Hit.t :=
  if valueMatches (mkNode path None t)
  then [Hit.mk path t (getJsonType t)] else [].

Definition keyHit (path : string) (key : option string) (t : json) : list Hit.t :=
  if keyMatches (mkNode path key t)
  then [Hit.mk path t (getJsonType t)] else [].

End matching.

Definition search (data : json) (query : string) (caseSensitive : bool)
    : list Hit.t :=
  let searchTerm := if caseSensitive then query else JS.toLowerCase query in
  concat (map (hitsOf caseSensitive searchTerm) (nodes data "" None)).

End SearchSpec.

(** ** The tree view as the reader sees it *)

Module ViewSpec.

(** The lines of the members of the root, in order. *)
Definition childLines (data : json) : list TreeView.line :=
  match data with
  | JArray items =>
      imap (fun i item =>
              TreeView.ValueLine ("[" +:+ JS.string_of_nat i +:+ "]") item) items
  | JObject props => map (fun kv => TreeView.ValueLine kv.1 kv.2) props
  | _ => []
  end.

(** The root, then as many members as the budget has room for, then
    one limit line for each member left.  The room is the budget rounded
    up to a whole number. *)
Definition expectedLines (data : json) (maxNodes : JS.number) (expanded : bool)
    : list TreeView.line :=
  let room := JS.ceil maxNodes in
  if room <=? 0 then [TreeView.LimitLine]
  else
    TreeView.ValueLine "" data ::
    if expanded && (1 <? room) then
      take (Z.to_nat (room - 1)) (childLines data)
      ++ replicate (length (childLines data) - Z.to_nat (room - 1))
                   TreeView.LimitLine
    else [].

Definition isValueLine (l : TreeView.line) : bool :=
  match l with
  | TreeView.ValueLine _ _ => true
  | TreeView.LimitLine => false
  end.

(** The cursor is on a hit, or there is no hit and no selection. *)
Definition cursorValid (st : TreeView.State.t) : Prop :=
  let len := Z.of_nat (length (TreeView.State.searchResults st)) in
  let cursor := TreeView.State.currentSearchIndex st in
  (len = 0 /\ cursor = -1) \/ (0 <= cursor < len).

End ViewSpec.

(** ** Positions in a code *)

Module CodeSpec.

Import SyntaxHighlighter.

(** The line of the character that follows the text [before]: one more
    than the number of newlines in [before]. *)
Definition lineAfter (before : list ascii) : Z :=
  1 + Z.of_nat (length (List.filter (Ascii.eqb newline) before)).

(** Its column: one more than the number of characters of [before]
    after the last newline. *)
Definition columnAfter (before : list ascii) : Z :=
  1 + Z.of_nat (length (takeWhile (fun c => negb (c =? newline)%char)
                                  (rev before)).1).

Definition isError (token : Token.t) : bool :=
  match Token.type token with
  | error => true
  | _ => false
  end.

(** The state of the tokenizer after the text [before]: its tokens
    spell [before], each one is not empty and carries the position of
    its first character, and the current position is the one after
    [before]. *)
Definition lexed (before : list ascii) (st : Lexer.t) : Prop :=
  list_ascii_of_string (shownText (Lexer.tokens st))
  = before
  /\ Lexer.line st = lineAfter before
  /\ Lexer.column st = columnAfter before
  /\ forall i token,
       Lexer.tokens st !! i = Some token ->
       let front :=
         list_ascii_of_string
           (shownText (take i (Lexer.tokens st))) in
       Token.value token <> ""
       /\ Token.line token = lineAfter front
       /\ Token.column token = columnAfter front.

(** From the code [code] the rounds of the tokenizer lead to the code
    [code'], and none of them adds an error token. *)
Inductive cleanRun : list ascii -> list ascii -> Prop :=
| cleanRun_done (code : list ascii) : cleanRun code code
| cleanRun_round (code : list ascii) (type : tokenType)
    (text code' code'' : list ascii) :
    nextToken code = Some (type, text, code') ->
    type <> error ->
    cleanRun code' code'' ->
    cleanRun code code''.

(** What follows a value in a JSON text: nothing, whitespace, a comma
    or a closing bracket. *)
Definition delimited (x : list ascii) : Prop :=
  match x with
  | [] => True
  | c :: _ =>
      JSON.isJsonWhitespace c = true
      \/ c = ","%char \/ c = "]"%char \/ c = "}"%char
  end.

(** The text of a value: it starts with a character that is not
    whitespace, and before any text that may follow a value the
    tokenizer reads it without an error token. *)
Definition cleanLexeme (b : list ascii) : Prop :=
  (exists c m, b = c :: m /\ JS.isWhiteSpace c = false)
  /\ forall x, delimited x -> cleanRun (b ++ x) x.

(** The same before any text at all. *)
Definition closedLexeme (b : list ascii) : Prop :=
  (exists c m, b = c :: m /\ JS.isWhiteSpace c = false)
  /\ forall x, cleanRun (b ++ x) x.

End CodeSpec.

(** ** Sample documents *)

Module Samples.

(** A JSON text written with apostrophes for its double quotes. *)
Definition jsonText (s : string) : string :=
  string_of_list_ascii
    (map (fun c => if (c =? "'")%char then JSON.quote else c)
         (list_ascii_of_string s)).

(** An array whose single element is the array itself. *)
Definition selfArray : heap := fun a =>
  match a with
  | [] => OArray [VRef []]
  | _ => OObject []
  end.

(** [{"a":[1,2]}] *)
Definition nested : json :=
  JObject [("a", JArray [JNumber 1 0; JNumber 2 0])].

(** [[[1]]] *)
Definition deep : json := JArray [JArray [JNumber 1 0]].

(** [{"a":[1,{"b":2}]}] *)
Definition pathDoc : json :=
  JObject [("a", JArray [JNumber 1 0; JObject [("b", JNumber 2 0)]])].

(** An object with [n] scalar members [k0], [k1], ... *)
Definition flat (n : nat) : json :=
  JObject (map (fun i => ("k" +:+ JS.string_of_nat i, JNumber (Z.of_nat i) 0))
               (seq 0 n)).

Definition isLimitLine (l : TreeView.line) : bool :=
  match l with
  | TreeView.LimitLine => true
  | TreeView.ValueLine _ _ => false
  end.

Definition threeHits : list JsonParser.Hit.t :=
  [JsonParser.Hit.mk "a" JNull "null";
   JsonParser.Hit.mk "b" JNull "null";
   JsonParser.Hit.mk "c" JNull "null"].

(** A file as the upload component hands it to the page. *)
Definition upload (name content : string) : HomePage.FileData.t :=
  HomePage.FileData.mk name (Z.of_nat (String.length content)) ".json" content 0
                       None None None None None.

End Samples.

(** * Properties *)

Import JsonParser Measure.

(** ** The structural analyzer *)

Ltac bind_cases H :=
  match type of H with
  | context [mbind _ ?m] =>
      let E := fresh "E" in
      destruct m eqn:E; simpl in H; try discriminate
  end.

(** *** Budgets that are not whole *)

(** A comparison between an integer counter and a budget is decided by
    the budget rounded to a whole number: up for [<] and [>=], down
    for [>]. *)
Lemma lt_ceil n x : JS.lt n x = (n <? JS.ceil x).
Proof.
  destruct x as [z|m e]; simpl; [done|].
  assert (Hp : 0 < 10 ^ Z.pos e) by (apply Z.pow_pos_nonneg; lia).
  pose proof (Z.div_mod (- m) (10 ^ Z.pos e) ltac:(lia)).
  pose proof (Z.mod_pos_bound (- m) (10 ^ Z.pos e) Hp).
  destruct (Z.ltb_spec (n * 10 ^ Z.pos e) m), (Z.ltb_spec n (- (- m / 10 ^ Z.pos e)));
    try done; nia.
Qed.

Lemma ge_ceil n x : JS.ge n x = (n >=? JS.ceil x).
Proof.
  pose proof (lt_ceil n x) as H. rewrite Z.geb_leb, Z.leb_antisym, <- H.
  destruct x as [z|m e]; simpl; by rewrite Z.geb_leb, Z.leb_antisym.
Qed.

Lemma gt_floor n x : JS.gt n x = (n >? JS.floor x).
Proof.
  destruct x as [z|m e]; simpl; [done|].
  assert (Hp : 0 < 10 ^ Z.pos e) by (apply Z.pow_pos_nonneg; lia).
  pose proof (Z.div_mod m (10 ^ Z.pos e) ltac:(lia)).
  pose proof (Z.mod_pos_bound m (10 ^ Z.pos e) Hp).
  rewrite !Z.gtb_ltb.
  destruct (Z.ltb_spec m (n * 10 ^ Z.pos e)), (Z.ltb_spec (m / 10 ^ Z.pos e) n);
    try done; nia.
Qed.

Lemma floor_le_ceil x : JS.floor x <= JS.ceil x.
Proof.
  destruct x as [z|m e]; simpl; [lia|].
  assert (Hp : 0 < 10 ^ Z.pos e) by (apply Z.pow_pos_nonneg; lia).
  pose proof (Z.div_mod m (10 ^ Z.pos e) ltac:(lia)).
  pose proof (Z.mod_pos_bound m (10 ^ Z.pos e) Hp).
  pose proof (Z.div_mod (- m) (10 ^ Z.pos e) ltac:(lia)).
  pose proof (Z.mod_pos_bound (- m) (10 ^ Z.pos e) Hp).
  nia.
Qed.

(** The analysis under the budgets [D] and [N] is the analysis under
    [D] rounded down and [N] rounded up. *)
Section rounding.
Context (h : heap) (D N : JS.number).

Lemma for_array_rounded body body' items st :
  (forall x s, body x s = body' x s) ->
  for_array N body items st = for_array (JS.ceil N) body' items st.
Proof.
  intros Hbody. revert st. induction items as [|x items IH]; simpl; intros st; [done|].
  rewrite lt_ceil, Hbody. destruct (_ <? _); [|done].
  destruct (body' x st); simpl; auto.
Qed.

Lemma for_in_rounded body body' obj rest st :
  (forall x s, body x s = body' x s) ->
  for_in N body obj rest st = for_in (JS.ceil N) body' obj rest st.
Proof.
  intros Hbody. revert st.
  induction rest as [|[key value] rest IH]; simpl; intros st; [done|].
  destruct (call_hasOwnProperty obj key) as [own| |]; simpl; [|done..].
  rewrite lt_ceil, Hbody. destruct (own && _); [|auto].
  destruct (body' value st); simpl; auto.
Qed.

Lemma traverse_rounded fuel : forall obj d st,
  traverse h D N fuel obj d st = traverse h (JS.floor D) (JS.ceil N) fuel obj d st.
Proof.
  induction fuel as [|fuel IH]; simpl; intros obj d st; [done|].
  rewrite ge_ceil, gt_floor.
  destruct (_ >=? _); [done|]. destruct (_ >? _); [done|].
  destruct obj; try done.
  destruct (bool_decide _); [done|].
  destruct (h a); [apply for_array_rounded|apply for_in_rounded]; intros; apply IH.
Qed.

Lemma analyze_rounded data :
  analyzeJsonStructure h D N data
  = analyzeJsonStructure h (JS.floor D) (JS.ceil N) data.
Proof. unfold analyzeJsonStructure, stack_bound. by rewrite traverse_rounded. Qed.

End rounding.

Section analyzer_facts.
Context (h : heap) (maxDepth maxNodes : Z).

Lemma for_array_inv (P : Vars.t -> Prop) body items st st' :
  (forall x s s', P s -> body x s = Normal s' -> P s') ->
  P st -> for_array maxNodes body items st = Normal st' -> P st'.
Proof.
  intros Hbody. revert st.
  induction items as [|x items IH]; simpl; intros st HP H.
  - by simplify_eq.
  - destruct (Vars.nodeCount st <? maxNodes); [|by simplify_eq].
    bind_cases H. eauto.
Qed.

Lemma for_in_inv (P : Vars.t -> Prop) body obj rest st st' :
  (forall x s s', P s -> body x s = Normal s' -> P s') ->
  P st -> for_in maxNodes body obj rest st = Normal st' -> P st'.
Proof.
  intros Hbody. revert st.
  induction rest as [|[key value] rest IH]; simpl; intros st HP H.
  - by simplify_eq.
  - bind_cases H.
    destruct (a && (Vars.nodeCount st <? maxNodes)); [|by eauto].
    bind_cases H. eauto.
Qed.

Lemma traverse_inv (P : Vars.t -> Prop) :
  (forall st d, Vars.nodeCount st < maxNodes -> d <= maxDepth -> P st ->
     P (Vars.mk (Z.max (Vars.depth st) d) (Vars.nodeCount st + 1) (Vars.visited st))) ->
  (forall st a, P st ->
     P (Vars.mk (Vars.depth st) (Vars.nodeCount st) ({[ a ]} ∪ Vars.visited st))) ->
  forall fuel obj d st st',
    P st -> traverse h maxDepth maxNodes fuel obj d st = Normal st' -> P st'.
Proof.
  intros Hvisit Hadd.
  induction fuel as [|fuel IH]; simpl; intros obj d st st' HP H; [done|].
  destruct (Z.geb_spec (Vars.nodeCount st) maxNodes); [by simplify_eq|].
  destruct (Z.gtb_spec d maxDepth); [by simplify_eq|].
  assert (HP1 := Hvisit st d ltac:(lia) ltac:(lia) HP).
  destruct obj; simpl in H; try by simplify_eq.
  destruct (bool_decide _); [by simplify_eq|].
  destruct (h a).
  - eapply (for_array_inv P); [|apply (Hadd _ a HP1)|exact H].
    intros x s s' Hs Hx. exact (IH _ _ _ _ Hs Hx).
  - eapply (for_in_inv P); [|apply (Hadd _ a HP1)|exact H].
    intros x s s' Hs Hx. exact (IH _ _ _ _ Hs Hx).
Qed.

Lemma traverse_bounds fuel obj d st st' :
  Vars.nodeCount st <= maxNodes -> Vars.depth st <= maxDepth ->
  traverse h maxDepth maxNodes fuel obj d st = Normal st' ->
  Vars.nodeCount st' <= maxNodes /\ Vars.depth st' <= maxDepth.
Proof.
  intros Hn Hd.
  apply (traverse_inv (fun s => Vars.nodeCount s <= maxNodes /\ Vars.depth s <= maxDepth));
    simpl; intros; lia.
Qed.

Lemma traverse_count_mono fuel obj d st st' :
  traverse h maxDepth maxNodes fuel obj d st = Normal st' ->
  Vars.nodeCount st <= Vars.nodeCount st'.
Proof.
  apply (traverse_inv (fun s => Vars.nodeCount st <= Vars.nodeCount s));
    simpl; intros; lia.
Qed.

(** Enough stack: a call at depth [d] needs at most [maxDepth + 2 - d] frames. *)
Lemma for_array_fuel body items st :
  (forall x s, body x s <> OutOfFuel) ->
  for_array maxNodes body items st <> OutOfFuel.
Proof.
  intros Hbody. revert st. induction items as [|x items IH]; simpl; intros st; [done|].
  destruct (_ <? _); [|done].
  destruct (body x st) eqn:E; simpl; [apply IH|done|by apply Hbody in E].
Qed.

Lemma for_in_fuel body obj rest st :
  (forall x s, body x s <> OutOfFuel) ->
  for_in maxNodes body obj rest st <> OutOfFuel.
Proof.
  intros Hbody. revert st.
  induction rest as [|[key value] rest IH]; simpl; intros st; [done|].
  unfold call_hasOwnProperty. destruct (hasKey "hasOwnProperty" obj); simpl; [done|].
  destruct (_ && _); [|apply IH].
  destruct (body value st) eqn:E; simpl; [apply IH|done|by apply Hbody in E].
Qed.

Lemma traverse_fuel fuel obj d st :
  (Z.to_nat (maxDepth + 1 - d) < fuel)%nat ->
  traverse h maxDepth maxNodes fuel obj d st <> OutOfFuel.
Proof.
  revert obj d st. induction fuel as [|fuel IH]; simpl; intros obj d st Hf; [lia|].
  destruct (_ >=? _); [done|].
  destruct (Z.gtb_spec d maxDepth); [done|].
  destruct obj; try done.
  destruct (bool_decide _); [done|].
  assert (Hbody : forall x s, traverse h maxDepth maxNodes fuel x (d + 1) s <> OutOfFuel).
  { intros x s. apply IH. lia. }
  destruct (h a); [by apply for_array_fuel|by apply for_in_fuel].
Qed.

Lemma analyze_returns data :
  analyzeJsonStructure h maxDepth maxNodes data <> OutOfFuel.
Proof.
  unfold analyzeJsonStructure.
  destruct (traverse _ _ _ _ _ _ _) eqn:E; simpl; try done.
  apply traverse_fuel in E; [done|]. unfold stack_bound. simpl JS.floor. lia.
Qed.

End analyzer_facts.

(** *** Raising the node budget *)

Section budget.
Context (h : heap) (maxDepth N N' : Z) (HN : N <= N').

Lemma overtaken_count s1 s2 :
  overtaken N s1 s2 -> Vars.nodeCount s1 <= Vars.nodeCount s2.
Proof. intros [->|[_ ?]]; lia. Qed.

Lemma for_in_saturated body obj rest st r :
  N <= Vars.nodeCount st ->
  for_in N body obj rest st = Normal r -> r = st.
Proof.
  intros Hs. induction rest as [|[key value] rest IH]; simpl; intros H.
  - by simplify_eq.
  - bind_cases H.
    destruct (Z.ltb_spec (Vars.nodeCount st) N); [lia|].
    rewrite andb_false_r in H. auto.
Qed.

Lemma for_array_sim body1 body2 items :
  (forall x a b ra rb, overtaken N a b ->
     body1 x a = Normal ra -> body2 x b = Normal rb -> overtaken N ra rb) ->
  (forall x b rb, body2 x b = Normal rb -> Vars.nodeCount b <= Vars.nodeCount rb) ->
  forall s1 s2 r1 r2, overtaken N s1 s2 ->
    for_array N body1 items s1 = Normal r1 ->
    for_array N' body2 items s2 = Normal r2 ->
    overtaken N r1 r2.
Proof.
  intros Hsim Hmono.
  induction items as [|x items IH]; simpl; intros s1 s2 r1 r2 HR H1 H2.
  - by simplify_eq.
  - destruct (Z.ltb_spec (Vars.nodeCount s1) N).
    + destruct HR as [->|[? _]]; [|lia].
      destruct (Z.ltb_spec (Vars.nodeCount s2) N'); [|lia].
      bind_cases H1. bind_cases H2.
      eapply IH; [|exact H1|exact H2]. eapply Hsim; [|exact E|exact E0]. by left.
    + simplify_eq. right. split; [done|].
      apply overtaken_count in HR.
      assert (Vars.nodeCount s2 <= Vars.nodeCount r2); [|lia].
      eapply (for_array_inv N' (fun s => Vars.nodeCount s2 <= Vars.nodeCount s)
                body2 (x :: items));
        [|reflexivity|exact H2].
      intros x' s s' Hs Hx. apply Hmono in Hx. simpl in *. lia.
Qed.

Lemma for_in_sim body1 body2 obj rest :
  (forall x a b ra rb, overtaken N a b ->
     body1 x a = Normal ra -> body2 x b = Normal rb -> overtaken N ra rb) ->
  (forall x b rb, body2 x b = Normal rb -> Vars.nodeCount b <= Vars.nodeCount rb) ->
  forall s1 s2 r1 r2, overtaken N s1 s2 ->
    for_in N body1 obj rest s1 = Normal r1 ->
    for_in N' body2 obj rest s2 = Normal r2 ->
    overtaken N r1 r2.
Proof.
  intros Hsim Hmono.
  induction rest as [|[key value] rest IH]; intros s1 s2 r1 r2 HR H1 H2.
  - simpl in *. by simplify_eq.
  - destruct (Z.lt_ge_cases (Vars.nodeCount s1) N) as [Hlt|Hge].
    + destruct HR as [->|[? _]]; [|lia].
      simpl in H1, H2.
      rewrite (proj2 (Z.ltb_lt _ _) Hlt) in H1.
      rewrite (proj2 (Z.ltb_lt (Vars.nodeCount s2) N')) in H2 by lia.
      bind_cases H1. destruct a; simpl in *.
      * bind_cases H1. bind_cases H2.
        eapply IH; [|exact H1|exact H2]. eapply Hsim; [|exact E0|exact E1]. by left.
      * eapply IH; [|exact H1|exact H2]. by left.
    + assert (r1 = s1) as ->.
      { eapply (for_in_saturated body1 obj ((key, value) :: rest)); [done|exact H1]. }
      right. split; [done|].
      apply overtaken_count in HR.
      assert (Vars.nodeCount s2 <= Vars.nodeCount r2); [|lia].
      eapply (for_in_inv N' (fun s => Vars.nodeCount s2 <= Vars.nodeCount s)
                body2 obj ((key, value) :: rest));
        [|reflexivity|exact H2].
      intros x' s s' Hs Hx. apply Hmono in Hx. simpl in *. lia.
Qed.

Lemma traverse_sim fuel : forall obj d s1 s2 r1 r2,
  overtaken N s1 s2 ->
  traverse h maxDepth N fuel obj d s1 = Normal r1 ->
  traverse h maxDepth N' fuel obj d s2 = Normal r2 ->
  overtaken N r1 r2.
Proof.
  induction fuel as [|fuel IH]; intros obj d s1 s2 r1 r2 HR H1 H2; [done|].
  assert (Hmono := traverse_count_mono h maxDepth N' _ _ _ _ _ H2).
  destruct (Z.lt_ge_cases (Vars.nodeCount s1) N) as [Hlt|Hge].
  - destruct HR as [->|[? _]]; [|lia].
    simpl in H1, H2.
    destruct (Z.geb_spec (Vars.nodeCount s2) N); [lia|].
    destruct (Z.geb_spec (Vars.nodeCount s2) N'); [lia|].
    destruct (Z.gtb_spec d maxDepth); [simplify_eq; by left|].
    destruct obj; simpl in *; try (simplify_eq; by left).
    destruct (bool_decide _); [simplify_eq; by left|].
    destruct (h a).
    + eapply for_array_sim; [| |left; reflexivity|exact H1|exact H2].
      * intros x a0 b ra rb. apply IH.
      * intros x b rb. apply traverse_count_mono.
    + eapply for_in_sim; [| |left; reflexivity|exact H1|exact H2].
      * intros x a0 b ra rb. apply IH.
      * intros x b rb. apply traverse_count_mono.
  - simpl in H1.
    destruct (Z.geb_spec (Vars.nodeCount s1) N); [|lia].
    simplify_eq. right. apply overtaken_count in HR. lia.
Qed.

Lemma analyze_budget_mono data a a' :
  analyzeJsonStructure h maxDepth N data = Normal a ->
  analyzeJsonStructure h maxDepth N' data = Normal a' ->
  Analysis.nodeCount a <= Analysis.nodeCount a'.
Proof.
  unfold analyzeJsonStructure. intros H1 H2.
  bind_cases H1. bind_cases H2.
  unfold mret, completion_ret in H1, H2. simplify_eq. simpl.
  apply overtaken_count. eapply traverse_sim; [|exact E|exact E0]. by left.
Qed.

End budget.

(** *** Documents as object graphs *)

Lemma zsum_nonneg {A} (w : A -> Z) l : (forall c, 0 <= w c) -> 0 <= zsum (map w l).
Proof. intros Hw. induction l as [|c l IH]; simpl; [lia|]. specialize (Hw c). lia. Qed.

Lemma nodesWithin_nonneg n t : 0 <= nodesWithin n t.
Proof.
  revert t. induction n as [|n IH]; intros t; simpl; [lia|].
  pose proof (zsum_nonneg (nodesWithin n) (children t) IH). lia.
Qed.

Lemma subtree_snoc t p k s :
  Graph.subtree t p = Some s ->
  Graph.subtree t (p ++ [k]) = children s !! k.
Proof.
  revert t. induction p as [|i p IH]; simpl; intros t H.
  - simplify_eq. destruct s; simpl; try done.
    + by destruct (items !! k).
    + rewrite list_lookup_fmap. destruct (props !! k) as [[? ?]|]; done.
  - destruct t; try done.
    + destruct (items !! i); [by apply IH|done].
    + destruct (props !! i) as [[? ?]|]; [by apply IH|done].
Qed.

Lemma sibling_prefix (p a : addr) (j k : nat) :
  (p ++ [k]) `prefix_of` a -> (p ++ [j]) `prefix_of` a -> j = k.
Proof.
  intros [x ->] [y Hy]. rewrite <- !app_assoc in Hy.
  apply app_inv_head in Hy. simpl in Hy. congruence.
Qed.

Lemma child_prefix (p a : addr) (k : nat) :
  (p ++ [k]) `prefix_of` a -> p `prefix_of` a.
Proof. apply prefix_app_l. Qed.

Lemma not_child_prefix_self (p : addr) (k : nat) : ~ (p ++ [k]) `prefix_of` p.
Proof.
  intros [x Hx]. apply (f_equal length) in Hx.
  rewrite !length_app in Hx. simpl in Hx. lia.
Qed.

Section loops.
Context (N : Z) (body : jsval -> Vars.t -> completion Vars.t)
        (w : json -> Z) (Q : nat -> json -> Prop) (p : addr).
Context (Hw : forall c, 0 <= w c).
Context (Hbody : forall k c st, Q k c ->
  unvisited_below (p ++ [k]) (Vars.visited st) ->
  Vars.nodeCount st + w c <= N ->
  exists st', body (Graph.val_at (p ++ [k]) c) st = Normal st'
    /\ Vars.nodeCount st' = Vars.nodeCount st + w c
    /\ (forall a, a ∈ Vars.visited st' ->
          a ∈ Vars.visited st \/ (p ++ [k]) `prefix_of` a)).

Lemma for_array_tree : forall rest k st,
  (forall i c, rest !! i = Some c -> Q (k + i)%nat c) ->
  (forall j, (k <= j)%nat -> unvisited_below (p ++ [j]) (Vars.visited st)) ->
  Vars.nodeCount st + zsum (map w rest) <= N ->
  exists st',
    for_array N body (imap (fun i c => Graph.val_at (p ++ [(k + i)%nat]) c) rest) st
      = Normal st'
    /\ Vars.nodeCount st' = Vars.nodeCount st + zsum (map w rest)
    /\ (forall a, a ∈ Vars.visited st' -> a ∈ Vars.visited st \/ p `prefix_of` a).
Proof.
  induction rest as [|c rest IH]; intros k st HQ Hvis Hn.
  - exists st. simpl. split; [done|]. split; [lia|]. auto.
  - simpl in Hn. pose proof (zsum_nonneg w rest Hw) as Hrest.
    pose proof (Hw c) as Hc. simpl.
    destruct (Z.ltb_spec (Vars.nodeCount st) N).
    + destruct (Hbody k c st) as (st1 & E & Hc1 & Hv1).
      { specialize (HQ 0%nat c eq_refl). by rewrite Nat.add_0_r in HQ. }
      { by apply Hvis. }
      { lia. }
      rewrite Nat.add_0_r, E. simpl.
      destruct (IH (S k) st1) as (st2 & E2 & Hc2 & Hv2).
      { intros i c' Hi. specialize (HQ (S i) c' Hi).
        by rewrite Nat.add_succ_r in HQ. }
      { intros j Hj a Ha Hpre. destruct (Hv1 a Ha) as [Hold|Hnew].
        - by apply (Hvis j ltac:(lia) a Hold).
        - pose proof (sibling_prefix _ _ _ _ Hnew Hpre). lia. }
      { lia. }
      exists st2. split.
      { rewrite <- E2. f_equal. apply imap_ext. intros i x _. simpl.
        by rewrite Nat.add_succ_r. }
      split; [simpl; lia|].
      intros a Ha. destruct (Hv2 a Ha) as [Hin|?]; [|by right].
      destruct (Hv1 a Hin) as [?|Hnew]; [by left|right].
      by eapply child_prefix.
    + exists st. split; [done|]. split; [simpl; lia|]. auto.
Qed.

Lemma for_in_skip obj (rest : list (string * jsval)) st :
  hasKey "hasOwnProperty" obj = false ->
  N <= Vars.nodeCount st ->
  for_in N body obj rest st = Normal st.
Proof.
  intros Hplain Hsat. induction rest as [|[key value] rest IH]; simpl; [done|].
  unfold call_hasOwnProperty. rewrite Hplain. simpl.
  destruct (Z.ltb_spec (Vars.nodeCount st) N); [lia|].
  by rewrite andb_false_r.
Qed.

Lemma for_in_tree obj : hasKey "hasOwnProperty" obj = false ->
  forall rest k st,
  (forall i kv, rest !! i = Some kv -> Q (k + i)%nat kv.2 /\ hasKey kv.1 obj = true) ->
  (forall j, (k <= j)%nat -> unvisited_below (p ++ [j]) (Vars.visited st)) ->
  Vars.nodeCount st + zsum (map (fun kv => w kv.2) rest) <= N ->
  exists st',
    for_in N body obj
      (imap (fun i kv => (kv.1, Graph.val_at (p ++ [(k + i)%nat]) kv.2)) rest) st
      = Normal st'
    /\ Vars.nodeCount st' = Vars.nodeCount st + zsum (map (fun kv => w kv.2) rest)
    /\ (forall a, a ∈ Vars.visited st' -> a ∈ Vars.visited st \/ p `prefix_of` a).
Proof.
  intros Hplain.
  induction rest as [|[key c] rest IH]; intros k st HQ Hvis Hn.
  - exists st. simpl. split; [done|]. split; [lia|]. auto.
  - simpl in Hn.
    pose proof (zsum_nonneg (fun kv : string * json => w kv.2) rest
                  (fun kv => Hw kv.2)) as Hrest.
    pose proof (Hw c) as Hc.
    destruct (Z.lt_ge_cases (Vars.nodeCount st) N) as [Hlt|Hge].
    + simpl. unfold call_hasOwnProperty. rewrite Hplain. simpl.
      destruct (HQ 0%nat (key, c) eq_refl) as [HQ0 Hkey]. simpl in HQ0, Hkey.
      rewrite Nat.add_0_r in HQ0.
      rewrite Hkey, (proj2 (Z.ltb_lt _ _) Hlt). simpl.
      destruct (Hbody k c st) as (st1 & E & Hc1 & Hv1); [done|by apply Hvis|lia|].
      rewrite Nat.add_0_r, E. simpl.
      destruct (IH (S k) st1) as (st2 & E2 & Hc2 & Hv2).
      { intros i kv Hi. specialize (HQ (S i) kv Hi).
        by rewrite Nat.add_succ_r in HQ. }
      { intros j Hj a Ha Hpre. destruct (Hv1 a Ha) as [Hold|Hnew].
        - by apply (Hvis j ltac:(lia) a Hold).
        - pose proof (sibling_prefix _ _ _ _ Hnew Hpre). lia. }
      { lia. }
      exists st2. split.
      { rewrite <- E2. f_equal. apply imap_ext. intros i x _. simpl.
        by rewrite Nat.add_succ_r. }
      split; [simpl; lia|].
      intros a Ha. destruct (Hv2 a Ha) as [Hin|?]; [|by right].
      destruct (Hv1 a Hin) as [?|Hnew]; [by left|right].
      by eapply child_prefix.
    + exists st. split; [by apply for_in_skip|]. split; [simpl; lia|]. auto.
Qed.

End loops.

Lemma plainKeys_child s k c :
  plainKeys s = true -> children s !! k = Some c -> plainKeys c = true.
Proof.
  destruct s; simpl; try done; intros Hs Hk.
  - rewrite forallb_forall in Hs. apply Hs. apply list_elem_of_In.
    by eapply list_elem_of_lookup_2.
  - apply andb_prop in Hs as [_ Hs]. rewrite forallb_forall in Hs.
    rewrite list_lookup_fmap in Hk.
    destruct (props !! k) as [[key c']|] eqn:E; simpl in Hk; simplify_eq.
    apply (Hs (key, c)). apply list_elem_of_In. by eapply list_elem_of_lookup_2.
Qed.

Lemma hasKey_imap {A B} (f : nat -> string * A -> B) key (props : list (string * A)) :
  hasKey key (imap (fun i kv => (kv.1, f i kv)) props) = hasKey key props.
Proof.
  unfold hasKey. revert f. induction props as [|[k v] props IH]; intros f; simpl; [done|].
  f_equal. apply (IH (fun i => f (S i))).
Qed.

Lemma hasKey_lookup {A} (props : list (string * A)) i kv :
  props !! i = Some kv -> hasKey kv.1 props = true.
Proof.
  intros H. unfold hasKey. apply existsb_exists. exists kv.1. split.
  - apply in_map. apply list_elem_of_In. by eapply list_elem_of_lookup_2.
  - apply String.eqb_refl.
Qed.

Section tree.
Context (t : json) (D N : Z).

Lemma traverse_tree : forall fuel s p d st,
  Graph.subtree t p = Some s ->
  plainKeys s = true ->
  unvisited_below p (Vars.visited st) ->
  (Z.to_nat (D + 1 - d) < fuel)%nat ->
  Vars.nodeCount st + nodesWithin (Z.to_nat (D + 1 - d)) s <= N ->
  exists st',
    traverse (Graph.heap_of t) D N fuel (Graph.val_at p s) d st = Normal st'
    /\ Vars.nodeCount st' = Vars.nodeCount st + nodesWithin (Z.to_nat (D + 1 - d)) s
    /\ (forall a, a ∈ Vars.visited st' -> a ∈ Vars.visited st \/ p `prefix_of` a).
Proof.
  induction fuel as [|fuel IH]; intros s p d st Hsub Hplain Hvis Hfuel Hn; [lia|].
  destruct (Z.lt_ge_cases D d) as [Hdeep|Hshallow].
  - (* below the depth budget: nothing is counted *)
    replace (Z.to_nat (D + 1 - d)) with 0%nat in * by lia. simpl in *.
    exists st. split; [|split; [lia|auto]].
    destruct (_ >=? _); [done|].
    by rewrite (proj2 (Z.gtb_gt d D)) by lia.
  - destruct (Z.to_nat (D + 1 - d)) as [|n'] eqn:En; [lia|].
    assert (Hn' : Z.to_nat (D + 1 - (d + 1)) = n') by lia.
    simpl in Hn.
    pose proof (zsum_nonneg (nodesWithin n') (children s) (nodesWithin_nonneg n')) as Hkids.
    simpl.
    destruct (Z.geb_spec (Vars.nodeCount st) N); [lia|].
    destruct (Z.gtb_spec d D); [lia|].
    set (st1 := Vars.mk (Z.max (Vars.depth st) d) (Vars.nodeCount st + 1) (Vars.visited st)).
    assert (Hleaf : children s = [] ->
      exists st', Normal st1 = Normal st'
        /\ Vars.nodeCount st' = Vars.nodeCount st + (1 + zsum (map (nodesWithin n') (children s)))
        /\ (forall a, a ∈ Vars.visited st' -> a ∈ Vars.visited st \/ p `prefix_of` a)).
    { intros ->. exists st1. simpl. split; [done|]. split; [lia|auto]. }
    assert (Hbody : forall k c st0,
      (Graph.subtree t (p ++ [k]) = Some c /\ plainKeys c = true) ->
      unvisited_below (p ++ [k]) (Vars.visited st0) ->
      Vars.nodeCount st0 + nodesWithin n' c <= N ->
      exists st',
        traverse (Graph.heap_of t) D N fuel (Graph.val_at (p ++ [k]) c) (d + 1) st0 = Normal st'
        /\ Vars.nodeCount st' = Vars.nodeCount st0 + nodesWithin n' c
        /\ (forall a, a ∈ Vars.visited st' ->
              a ∈ Vars.visited st0 \/ (p ++ [k]) `prefix_of` a)).
    { intros k c st0 [Hc Hpc] Hv0 Hn0. rewrite <- Hn'.
      apply IH; try done; [lia|by rewrite Hn']. }
    assert (Hfresh : forall j, (0 <= j)%nat ->
      unvisited_below (p ++ [j]) ({[ p ]} ∪ Vars.visited st)).
    { intros j _ a Ha Hpre. apply elem_of_union in Ha as [Ha|Ha].
      - apply elem_of_singleton in Ha as ->. by eapply not_child_prefix_self.
      - apply (Hvis a Ha). by eapply child_prefix. }
    assert (Hnew : p ∉ Vars.visited st).
    { intros Hin. by apply (Hvis p Hin). }
    destruct s; simpl Graph.val_at; cbv iota; try by apply Hleaf.
    + (* array *)
      rewrite bool_decide_eq_false_2 by done.
      unfold Graph.heap_of at 1. rewrite Hsub. simpl Graph.obj_at. cbv iota.
      destruct (for_array_tree N (fun v => traverse (Graph.heap_of t) D N fuel v (d + 1))
                  (nodesWithin n')
                  (fun k c => Graph.subtree t (p ++ [k]) = Some c /\ plainKeys c = true)
                  p (nodesWithin_nonneg n') Hbody items 0%nat
                  (Vars.mk (Vars.depth st1) (Vars.nodeCount st1) ({[ p ]} ∪ Vars.visited st1)))
        as (st' & E & Hc & Hv).
      { intros i c Hi. simpl. split.
        - rewrite (subtree_snoc t p i _ Hsub). done.
        - eapply (plainKeys_child (JArray items)); [done|exact Hi]. }
      { exact Hfresh. }
      { simpl in *. lia. }
      exists st'. split; [exact E|]. split; [simpl in *; lia|].
      intros a Ha. destruct (Hv a Ha) as [Hin|?]; [|by right]. simpl in Hin.
      apply elem_of_union in Hin as [Hin|Hin]; [|by left].
      apply elem_of_singleton in Hin as ->. by right.
    + (* object *)
      rewrite bool_decide_eq_false_2 by done.
      unfold Graph.heap_of at 1. rewrite Hsub. simpl Graph.obj_at. cbv iota.
      simpl in Hplain. apply andb_prop in Hplain as [Hown Hplain'].
      apply negb_true_iff in Hown.
      destruct (for_in_tree N (fun v => traverse (Graph.heap_of t) D N fuel v (d + 1))
                  (nodesWithin n')
                  (fun k c => Graph.subtree t (p ++ [k]) = Some c /\ plainKeys c = true)
                  p (nodesWithin_nonneg n') Hbody
                  (imap (fun i kv => (kv.1, Graph.val_at (p ++ [i]) kv.2)) props)
                  ltac:(by rewrite hasKey_imap)
                  props 0%nat
                  (Vars.mk (Vars.depth st1) (Vars.nodeCount st1) ({[ p ]} ∪ Vars.visited st1)))
        as (st' & E & Hc & Hv).
      { intros i kv Hi. simpl. split; [split|].
        - rewrite (subtree_snoc t p i _ Hsub). simpl.
          by rewrite list_lookup_fmap, Hi.
        - eapply (plainKeys_child (JObject props) i).
          + simpl. by rewrite Hown, Hplain'.
          + simpl. by rewrite list_lookup_fmap, Hi.
        - rewrite hasKey_imap. by eapply hasKey_lookup. }
      { exact Hfresh. }
      { simpl in *. rewrite map_map in Hn. lia. }
      exists st'. split; [exact E|]. split.
      { simpl in *. rewrite map_map. lia. }
      intros a Ha. destruct (Hv a Ha) as [Hin|?]; [|by right]. simpl in Hin.
      apply elem_of_union in Hin as [Hin|Hin]; [|by left].
      apply elem_of_singleton in Hin as ->. by right.
Qed.

Lemma analyze_tree :
  plainKeys t = true ->
  nodesWithin (Z.to_nat (D + 1)) t <= N ->
  exists a, analyzeJsonStructure (Graph.heap_of t) D N (Graph.root_of t) = Normal a
    /\ Analysis.nodeCount a = nodesWithin (Z.to_nat (D + 1)) t.
Proof.
  intros Hplain Hn. unfold analyzeJsonStructure, Graph.root_of.
  destruct (traverse_tree (stack_bound D) t [] 0 (Vars.mk 0 0 ∅))
    as (st' & E & Hc & _); try done.
  - unfold stack_bound. simpl JS.floor. lia.
  - simpl. by rewrite Z.sub_0_r.
  - rewrite E. simpl. eexists. split; [done|]. simpl in *.
    rewrite Hc, Z.sub_0_r. lia.
Qed.

End tree.

(** No exception on graphs without shadowed [hasOwnProperty] *)
Section no_throw.
Context (h : heap) (maxDepth maxNodes : Z) (Hplain : plainHeap h).

Lemma for_array_no_throw body items st msg :
  (forall x s m, body x s <> Throw m) ->
  for_array maxNodes body items st <> Throw msg.
Proof.
  intros Hbody. revert st. induction items as [|x items IH]; simpl; intros st; [done|].
  destruct (_ <? _); [|done].
  destruct (body x st) eqn:E; simpl; [apply IH|by apply Hbody in E|done].
Qed.

Lemma for_in_no_throw body obj rest st msg :
  hasKey "hasOwnProperty" obj = false ->
  (forall x s m, body x s <> Throw m) ->
  for_in maxNodes body obj rest st <> Throw msg.
Proof.
  intros Hobj Hbody. revert st.
  induction rest as [|[key value] rest IH]; simpl; intros st; [done|].
  unfold call_hasOwnProperty. rewrite Hobj. simpl.
  destruct (_ && _); [|apply IH].
  destruct (body value st) eqn:E; simpl; [apply IH|by apply Hbody in E|done].
Qed.

Lemma traverse_no_throw fuel obj d st msg :
  traverse h maxDepth maxNodes fuel obj d st <> Throw msg.
Proof.
  revert obj d st msg. induction fuel as [|fuel IH]; simpl; intros obj d st msg; [done|].
  destruct (_ >=? _); [done|]. destruct (_ >? _); [done|].
  destruct obj; try done.
  destruct (bool_decide _); [done|].
  destruct (h a) eqn:E.
  - apply for_array_no_throw. intros x s m. apply IH.
  - apply for_in_no_throw; [by eapply Hplain|]. intros x s m. apply IH.
Qed.

Lemma analyze_plain data :
  exists a, analyzeJsonStructure h maxDepth maxNodes data = Normal a.
Proof.
  pose proof (analyze_returns h maxDepth maxNodes data) as Hfuel.
  unfold analyzeJsonStructure in *.
  remember (traverse h maxDepth maxNodes (stack_bound maxDepth) data 0
              (Vars.mk 0 0 ∅)) as r eqn:E.
  destruct r as [st|msg|].
  - by eexists.
  - symmetry in E. by apply traverse_no_throw in E.
  - by destruct Hfuel.
Qed.

End no_throw.

Lemma plainKeys_subtree t p s :
  plainKeys t = true -> Graph.subtree t p = Some s -> plainKeys s = true.
Proof.
  revert t. induction p as [|i p IH]; simpl; intros t Ht Hs; [by simplify_eq|].
  destruct t; try done.
  - destruct (items !! i) as [c|] eqn:E; [|done].
    apply (IH c); [|done]. by eapply (plainKeys_child (JArray items) i).
  - destruct (props !! i) as [[k c]|] eqn:E; [|done].
    apply (IH c); [|done]. eapply (plainKeys_child (JObject props) i); [done|].
    simpl. by rewrite list_lookup_fmap, E.
Qed.

Lemma heap_of_plain t : plainKeys t = true -> plainHeap (Graph.heap_of t).
Proof.
  intros Ht a props. unfold Graph.heap_of.
  destruct (Graph.subtree t a) as [s|] eqn:E; [|by intros; simplify_eq].
  pose proof (plainKeys_subtree _ _ _ Ht E) as Hs.
  destruct s; simpl; intros H; simplify_eq; try done.
  rewrite hasKey_imap. simpl in Hs. apply andb_prop in Hs as [Hs _].
  by apply negb_true_iff in Hs.
Qed.

(** Within the depth budget every value is counted *)
Lemma max_bound (l : list nat) n x :
  (foldr Nat.max 0 l < n)%nat -> x ∈ l -> (x < n)%nat.
Proof.
  induction l as [|y l IH]; simpl; intros Hm Hx; [by apply elem_of_nil in Hx|].
  apply elem_of_cons in Hx as [->|Hx]; [lia|]. apply IH; [lia|done].
Qed.

Lemma nodesWithin_total t : forall n,
  (nesting t < n)%nat -> nodesWithin n t = nodeTotal t.
Proof.
  induction t as [| | | |items IH|props IH] using json_ind; intros [|n] Hn;
    try lia; simpl in *; try done.
  - f_equal. f_equal. apply map_ext_in. intros c Hc.
    rewrite Forall_forall in IH. apply list_elem_of_In in Hc. apply IH; [done|].
    assert (S (nesting c) < S n)%nat; [|lia].
    eapply max_bound; [exact Hn|]. apply list_elem_of_fmap. by exists c.
  - f_equal. rewrite map_map. f_equal. apply map_ext_in. intros kv Hc.
    rewrite Forall_forall in IH. apply list_elem_of_In in Hc. apply IH; [done|].
    assert (S (nesting kv.2) < S n)%nat; [|lia].
    eapply max_bound; [exact Hn|]. apply list_elem_of_fmap. by exists kv.
Qed.

(** ** Paths *)

(** Strings as character lists *)
Lemma chars_append (a b : string) :
  list_ascii_of_string (a +:+ b) = list_ascii_of_string a ++ list_ascii_of_string b.
Proof. induction a as [|c a IH]; simpl; [done|]. by rewrite IH. Qed.

Lemma truthy_chars (s : string) :
  JS.truthy s = negb (bool_decide (list_ascii_of_string s = [])).
Proof. by destruct s. Qed.

Lemma truthy_of_chars (l : list ascii) :
  JS.truthy (string_of_list_ascii l) = negb (bool_decide (l = [])).
Proof. by destruct l. Qed.

Lemma falsy_empty (s : string) : JS.truthy s = false -> s = "".
Proof. by destruct s. Qed.

(** Splitting *)
Section splitting.
Context (delim : ascii -> bool).

Lemma splitOn_cons_inv l : exists f r, JS.splitOn delim l = f :: r.
Proof.
  induction l as [|c l (f & r & IH)]; simpl; [by eexists _, _|].
  destruct (delim c); [by eexists _, _|]. rewrite IH. by eexists _, _.
Qed.

Lemma splitOn_app d a b :
  delim d = true ->
  JS.splitOn delim (a ++ d :: b) = JS.splitOn delim a ++ JS.splitOn delim b.
Proof.
  intros Hd. induction a as [|c a IH]; simpl.
  - by rewrite Hd.
  - destruct (delim c); [by rewrite IH|].
    rewrite IH. destruct (splitOn_cons_inv a) as (f & r & ->). done.
Qed.

Lemma splitOn_plain l :
  forallb (fun c => negb (delim c)) l = true -> JS.splitOn delim l = [l].
Proof.
  induction l as [|c l IH]; simpl; [done|].
  intros H. apply andb_prop in H as [Hc Hl]. apply negb_true_iff in Hc.
  by rewrite Hc, (IH Hl).
Qed.

Lemma tokens_app d a b :
  delim d = true -> Path.tokens delim (a ++ d :: b) = Path.tokens delim a ++ Path.tokens delim b.
Proof. intros Hd. unfold Path.tokens. by rewrite splitOn_app, List.filter_app. Qed.

Lemma tokens_plain l :
  l <> [] -> forallb (fun c => negb (delim c)) l = true -> Path.tokens delim l = [l].
Proof.
  intros Hne Hl. unfold Path.tokens. rewrite (splitOn_plain _ Hl). simpl.
  unfold Path.nonempty. by rewrite bool_decide_eq_false_2.
Qed.

Lemma tokens_nil : Path.tokens delim [] = [].
Proof. done. Qed.

End splitting.

Lemma pathParts_tokens (path : string) :
  TreeView.pathParts path =
  map string_of_list_ascii (Path.tokens JS.isPathDelimiter (list_ascii_of_string path)).
Proof.
  unfold TreeView.pathParts, JS.filterBoolean, JS.split, Path.tokens.
  induction (JS.splitOn _ _) as [|f l IH]; simpl; [done|].
  rewrite truthy_of_chars. unfold Path.nonempty.
  destruct (negb _); simpl; by rewrite IH.
Qed.

(** Decimal digits *)
Lemma uint_digits (d : Decimal.uint) :
  forallb Path.plainChar (list_ascii_of_string (NilEmpty.string_of_uint d)) = true.
Proof. induction d; simpl; try done. Qed.

Lemma uint_nonempty (d : Decimal.uint) :
  d <> Decimal.Nil -> list_ascii_of_string (NilEmpty.string_of_uint d) <> [].
Proof. by destruct d. Qed.

Lemma index_text_plain (i : nat) :
  forallb Path.plainChar (list_ascii_of_string (JS.string_of_nat i)) = true.
Proof. apply uint_digits. Qed.

Lemma index_text_nonempty (i : nat) :
  list_ascii_of_string (JS.string_of_nat i) <> [].
Proof.
  apply uint_nonempty. unfold N.to_uint.
  destruct (N.of_nat i); [done|]. apply DecimalPos.Unsigned.to_uint_nonnil.
Qed.

Lemma render_snoc segments s :
  Path.render (segments ++ [s]) = Path.extend (Path.render segments) s.
Proof. unfold Path.render. by rewrite fold_left_app. Qed.

Lemma pathParts_extend (currentPath : string) (s : Path.segment) :
  Path.plainSegment s = true ->
  TreeView.pathParts (Path.extend currentPath s) =
  TreeView.pathParts currentPath ++ [Path.text s].
Proof.
  intros Hs. rewrite !pathParts_tokens.
  destruct s as [key|index]; simpl in *.
  - apply andb_prop in Hs as [Hne Hplain].
    assert (Hk : Path.tokens JS.isPathDelimiter (list_ascii_of_string key)
                 = [list_ascii_of_string key]).
    { apply tokens_plain; [|done]. rewrite truthy_chars in Hne.
      by apply negb_true_iff, bool_decide_eq_false in Hne. }
    unfold keyPath. destruct (JS.truthy currentPath) eqn:E.
    + rewrite !chars_append. simpl. rewrite tokens_app by done.
      rewrite Hk, map_app. simpl. by rewrite string_of_list_ascii_of_string.
    + apply falsy_empty in E as ->. simpl. rewrite Hk. simpl.
      by rewrite string_of_list_ascii_of_string.
  - assert (Hi : Path.tokens JS.isPathDelimiter
                   (list_ascii_of_string (JS.string_of_nat index) ++ ["]"%char])
                 = [list_ascii_of_string (JS.string_of_nat index)]).
    { rewrite tokens_app by done. rewrite tokens_nil, app_nil_r.
      apply tokens_plain; [apply index_text_nonempty|apply index_text_plain]. }
    unfold indexPath. destruct (JS.truthy currentPath) eqn:E.
    + rewrite !chars_append. simpl. rewrite tokens_app by done.
      rewrite Hi, map_app. simpl. by rewrite string_of_list_ascii_of_string.
    + apply falsy_empty in E as ->. rewrite !chars_append. simpl.
      change ("["%char :: ?l) with ([] ++ "["%char :: l).
      rewrite tokens_app by done. rewrite Hi. simpl.
      by rewrite string_of_list_ascii_of_string.
Qed.

Lemma pathParts_render (segments : list Path.segment) :
  forallb Path.plainSegment segments = true ->
  TreeView.pathParts (Path.render segments) = map Path.text segments.
Proof.
  induction segments as [|s segments IH] using rev_ind; [done|].
  rewrite forallb_app. simpl. intros H.
  apply andb_prop in H as [Hsegs Hs]. rewrite andb_true_r in Hs.
  rewrite render_snoc, pathParts_extend, IH, map_app by done. done.
Qed.

(** [extractJsonPaths] renders the positions of the document *)
Lemma extract_positions (t : json) : forall here paths,
  extractJsonPaths_traverse t (Path.render here) paths =
  paths ++ map Path.render (Path.positions t here).
Proof.
  induction t as [| | | |items IH|props IH] using json_ind; intros here paths; simpl;
    try by rewrite app_nil_r.
  - generalize 0%nat. revert paths.
    induction IH as [|c l Hc _ IHl]; intros paths index; simpl.
    + by rewrite app_nil_r.
    + rewrite IHl. change (indexPath (Path.render here) index)
        with (Path.extend (Path.render here) (Path.Index index)).
      rewrite <- render_snoc, Hc. rewrite map_app, <- !app_assoc. done.
  - revert paths.
    induction IH as [|[key c] l Hc _ IHl]; intros paths; simpl.
    + by rewrite app_nil_r.
    + rewrite IHl. change (keyPath (Path.render here) key)
        with (Path.extend (Path.render here) (Path.Key key)).
      rewrite <- render_snoc. simpl in Hc. rewrite Hc.
      rewrite map_app, <- !app_assoc. done.
Qed.

(** ** Search *)

Import SearchSpec.

Section search_facts.
Context (caseSensitive : bool) (searchTerm : string).

Abbreviation hits := (SearchSpec.hitsOf caseSensitive searchTerm).
Abbreviation walk := (searchInJson_traverse caseSensitive searchTerm).
Abbreviation valueHit := (SearchSpec.valueHit caseSensitive searchTerm).
Abbreviation keyHit := (SearchSpec.keyHit caseSensitive searchTerm).

Lemma hits_nodes_cons t path key rest :
  concat (map hits (mkNode path key t :: rest)) =
  keyHit path key t ++ valueHit path t ++ concat (map hits rest).
Proof. simpl. unfold hitsOf, keyHit, valueHit. by rewrite <- app_assoc. Qed.

Lemma walk_nodes (t : json) : forall path key results,
  results ++ keyHit path key t ++ (walk t path [])
  = results ++ concat (map hits (nodes t path key))
  /\ walk t path results = results ++ walk t path [].
Proof.
  induction t as [| | | |items IH|props IH] using json_ind; intros path key results.
  1-4: (split;
    [ simpl nodes; rewrite hits_nodes_cons; unfold valueHit, valueMatches, folded; simpl;
      by rewrite app_nil_r
    | simpl; destruct (JS.includes _ _); simpl; by rewrite ?app_nil_r ]).
  - assert (Hloop : forall index results,
      (fix forEach (l : list json) (index : nat) (results : list Hit.t) : list Hit.t :=
         match l with
         | [] => results
         | item :: l' => forEach l' (S index) (walk item (indexPath path index) results)
         end) items index results
      = results ++ concat (map hits
          ((fix each (l : list json) (index : nat) : list node :=
              match l with
              | [] => []
              | item :: l' => nodes item (indexPath path index) None ++ each l' (S index)
              end) items index))).
    { clear results. induction IH as [|c l Hc _ IHl]; intros index results; simpl.
      - by rewrite app_nil_r.
      - rewrite IHl. destruct (Hc (indexPath path index) None results) as [H1 H2].
        rewrite H2. rewrite map_app, concat_app.
        destruct (Hc (indexPath path index) None []) as [H3 _]. simpl in H3.
        unfold keyHit in H3. simpl in H3. rewrite H3. by rewrite <- app_assoc. }
    split.
    + simpl nodes. rewrite hits_nodes_cons. unfold valueHit, valueMatches. simpl.
      by rewrite Hloop.
    + simpl. by rewrite !Hloop.
  - assert (Hloop : forall results,
      (fix forEach (l : list (string * json)) (results : list Hit.t) : list Hit.t :=
         match l with
         | [] => results
         | (k, value) :: l' =>
             forEach l'
               (walk value (keyPath path k)
                  (if JS.includes (if caseSensitive then k else JS.toLowerCase k) searchTerm
                   then results ++ [Hit.mk (keyPath path k) value (getJsonType value)]
                   else results))
         end) props results
      = results ++ concat (map hits
          ((fix each (l : list (string * json)) : list node :=
              match l with
              | [] => []
              | (k, value) :: l' => nodes value (keyPath path k) (Some k) ++ each l'
              end) props))).
    { clear results. induction IH as [|[k c] l Hc _ IHl]; intros results; simpl.
      - by rewrite app_nil_r.
      - rewrite IHl. simpl in Hc.
        destruct (Hc (keyPath path k) (Some k) results) as [H1 _].
        rewrite map_app, concat_app, app_assoc, <- H1.
        unfold keyHit, keyMatches, folded. simpl.
        destruct (JS.includes _ _).
        + destruct (Hc (keyPath path k) None (results ++ [Hit.mk (keyPath path k) c (getJsonType c)]))
            as [_ H2]. rewrite H2. by rewrite <- !app_assoc.
        + destruct (Hc (keyPath path k) None results) as [_ H2]. rewrite H2.
          by rewrite <- !app_assoc. }
    split.
    + simpl nodes. rewrite hits_nodes_cons. unfold valueHit, valueMatches. simpl.
      by rewrite Hloop.
    + simpl. by rewrite !Hloop.
Qed.

End search_facts.

Lemma searchInJson_search data query caseSensitive :
  searchInJson data query caseSensitive = SearchSpec.search data query caseSensitive.
Proof.
  unfold searchInJson, SearchSpec.search.
  destruct (walk_nodes caseSensitive
              (if caseSensitive then query else JS.toLowerCase query) data "" None [])
    as [H _].
  simpl in H. unfold keyHit in H. simpl in H. exact H.
Qed.

(** *** The parser front end *)

Lemma pushError_errors msg r : ParseResult.errors (pushError msg r) <> [].
Proof. unfold pushError. simpl. by destruct (ParseResult.errors r). Qed.

(** A text that [JSON.parse] rejects yields no value and an error. *)
Lemma parse_invalid_text (text : string) (options : Options.t) (message : string) :
  JSON.parse text = Throw message ->
  exists r, parseJsonString text options = Normal r
    /\ ParseResult.data r = JNull
    /\ ParseResult.errors r <> []
    /\ Metadata.isValid (ParseResult.metadata r) = false.
Proof.
  intros H. unfold parseJsonString.
  destruct (isValidJsonSyntax text); simpl.
  - rewrite H. eexists. split; [done|]. split; [done|]. split; [|done].
    apply pushError_errors.
  - eexists. split; [done|]. split; [done|]. split; [|done].
    apply pushError_errors.
Qed.

(** [JSON.parse] never runs out of fuel: it returns or throws. *)
Lemma JSON_parse_returns text : JSON.parse text <> OutOfFuel.
Proof. unfold JSON.parse. by destruct (JSON.parseText text). Qed.

(** [parseJsonString] always returns a result. *)
Lemma parseJsonString_returns text options :
  exists r, parseJsonString text options = Normal r.
Proof.
  unfold parseJsonString.
  destruct (isValidJsonSyntax text); simpl; [|by eexists].
  pose proof (JSON_parse_returns text).
  destruct (JSON.parse text) as [parsed|msg|]; [|by eexists|done].
  rewrite analyze_rounded.
  pose proof (analyze_returns (Graph.heap_of parsed)
                (JS.floor (default (JS.Whole 100) (Options.maxDepth options)))
                (JS.ceil (default (JS.Whole 10000) (Options.maxNodes options)))
                (Graph.root_of parsed)).
  destruct (analyzeJsonStructure _ _ _ _); [by eexists|by eexists|done].
Qed.

(** With whole budgets that are not negative the limit checks never
    fire: the counts the analysis reports cannot exceed the budgets it
    stops at.  The depth budget need not be whole. *)
Lemma parse_never_warns text options r :
  0 <= JS.floor (default (JS.Whole 100) (Options.maxDepth options)) ->
  0 <= JS.floor (default (JS.Whole 10000) (Options.maxNodes options)) ->
  JS.ceil (default (JS.Whole 10000) (Options.maxNodes options))
  = JS.floor (default (JS.Whole 10000) (Options.maxNodes options)) ->
  parseJsonString text options = Normal r ->
  ParseResult.warnings r = [].
Proof.
  intros HD HN Hwhole. unfold parseJsonString.
  set (D := default (JS.Whole 100) (Options.maxDepth options)) in *.
  set (N := default (JS.Whole 10000) (Options.maxNodes options)) in *.
  destruct (isValidJsonSyntax text); simpl; [|by intros; simplify_eq].
  destruct (JSON.parse text) as [parsed|msg|]; [|by intros; simplify_eq|done].
  rewrite analyze_rounded.
  destruct (analyzeJsonStructure _ _ _ _) as [a|msg|] eqn:E;
    [|by intros; simplify_eq|done].
  unfold analyzeJsonStructure in E.
  destruct (traverse _ _ _ _ _ _ _) as [st| |] eqn:Et; simpl in E; try done.
  apply traverse_bounds in Et as [Hn Hd]; simpl; try lia.
  unfold mret, completion_ret in E. simplify_eq. simpl.
  rewrite !gt_floor, !Z.gtb_ltb.
  rewrite (proj2 (Z.ltb_ge (JS.floor D) (Vars.depth st))) by lia.
  rewrite (proj2 (Z.ltb_ge (JS.floor N) (Vars.nodeCount st))) by lia.
  by intros; simplify_eq.
Qed.

(** ** The front end accepts what [JSON.parse] accepts *)

Import Lexeme.

(** *** Stripping a class of characters from both ends *)

Section strip.
Context (p : ascii -> bool).

Import Lexeme.

Lemma strip_all w s : forallb p w = true -> strip p (w ++ s) = strip p s.
Proof.
  induction w as [|c w IH]; simpl; [done|]. intros H.
  apply andb_prop in H as [-> Hw]. auto.
Qed.

Lemma strip_stop c s : p c = false -> strip p (c :: s) = c :: s.
Proof. intros H. simpl. by rewrite H. Qed.

Lemma strip_split s :
  exists w, s = w ++ strip p s /\ forallb p w = true.
Proof.
  induction s as [|c s (w & Hs & Hw)]; simpl; [by exists []|].
  destruct (p c) eqn:E.
  - exists (c :: w). simpl. rewrite E, Hw. split; [by f_equal|done].
  - by exists [].
Qed.

Lemma strip_head c r s : strip p s = c :: r -> p c = false.
Proof.
  induction s as [|d s IH]; simpl; [done|].
  destruct (p d) eqn:E; [done|]. intros H. by simplify_eq.
Qed.

Lemma forallb_rev w : forallb p (rev w) = forallb p w.
Proof.
  induction w as [|c w IH]; simpl; [done|].
  rewrite forallb_app, IH. simpl. rewrite andb_true_r. apply andb_comm.
Qed.

(** A list is whitespace, its stripped body, whitespace. *)
Lemma strip_both_split s :
  exists w1 w2, s = w1 ++ rev (strip p (rev (strip p s))) ++ w2
    /\ forallb p w1 = true /\ forallb p w2 = true.
Proof.
  destruct (strip_split s) as (w1 & Hs & Hw1).
  destruct (strip_split (rev (strip p s))) as (w2 & Hr & Hw2).
  exists w1, (rev w2). split; [|split; [done|by rewrite forallb_rev]].
  apply (f_equal (@rev ascii)) in Hr.
  rewrite rev_involutive, rev_app_distr in Hr.
  rewrite <- Hr. exact Hs.
Qed.

(** A body that neither starts nor ends with such a character is what
    stripping leaves. *)
Lemma strip_both_body w1 w2 c m d :
  forallb p w1 = true -> forallb p w2 = true ->
  p c = false -> p d = false ->
  forall b, b = c :: m -> (exists m', b = m' ++ [d]) ->
  rev (strip p (rev (strip p (w1 ++ b ++ w2)))) = b.
Proof.
  intros Hw1 Hw2 Hc Hd b Hb (m' & Hb'). subst b.
  rewrite strip_all by done.
  simpl. rewrite Hc. rewrite app_comm_cons, Hb'.
  rewrite rev_app_distr, strip_all by (by rewrite forallb_rev).
  rewrite rev_unit. simpl. rewrite Hd. simpl. by rewrite rev_involutive.
Qed.

End strip.

Lemma trimStart_strip s : JS.trimStart s = strip JS.isWhiteSpace s.
Proof. induction s as [|c s IH]; simpl; [done|]. by rewrite IH. Qed.

Lemma skipWhitespace_strip s : JSON.skipWhitespace s = strip JSON.isJsonWhitespace s.
Proof. induction s as [|c s IH]; simpl; [done|]. by rewrite IH. Qed.

Lemma jsonWhitespace_isWhiteSpace c :
  JSON.isJsonWhitespace c = true -> JS.isWhiteSpace c = true.
Proof.
  unfold JSON.isJsonWhitespace, JS.isWhiteSpace. intros H.
  repeat (apply orb_prop in H as [H|H]); apply N.eqb_eq in H; by rewrite H.
Qed.

Lemma jsonWhitespace_all w :
  forallb JSON.isJsonWhitespace w = true -> forallb JS.isWhiteSpace w = true.
Proof.
  induction w as [|c w IH]; simpl; [done|]. intros H.
  apply andb_prop in H as [Hc Hw]. by rewrite (jsonWhitespace_isWhiteSpace c Hc), IH.
Qed.

Lemma not_isWhiteSpace_json c :
  JS.isWhiteSpace c = false -> JSON.isJsonWhitespace c = false.
Proof.
  intros H. destruct (JSON.isJsonWhitespace c) eqn:E; [|done].
  apply jsonWhitespace_isWhiteSpace in E. congruence.
Qed.

(** *** What a successful parse has consumed *)

Lemma skipWhitespace_suffix s : JSON.skipWhitespace s `suffix_of` s.
Proof.
  rewrite skipWhitespace_strip.
  destruct (strip_split JSON.isJsonWhitespace s) as (w & Hs & _). by exists w.
Qed.

Lemma skipWhitespace_suffix_eq s r : JSON.skipWhitespace s = r -> r `suffix_of` s.
Proof. intros <-. apply skipWhitespace_suffix. Qed.

Lemma suffix_tail {A} (c : A) r s : (c :: r) `suffix_of` s -> r `suffix_of` s.
Proof. intros [k ->]. exists (k ++ [c]). by rewrite <- app_assoc. Qed.

Lemma parseChars_consumes : forall s acc str r,
  JSON.parseChars s acc = Some (str, r) -> (JSON.quote :: r) `suffix_of` s.
Proof.
  intros s. remember (length s) as n eqn:Hn. revert s Hn.
  induction n as [n IH] using lt_wf_ind. intros s Hn acc str r H.
  destruct s as [|c s]; simpl in H; [done|].
  destruct (Ascii.eqb_spec c JSON.quote) as [->|_].
  { simplify_eq. by exists []. }
  destruct (Ascii.eqb_spec c JSON.backslash) as [->|_].
  - destruct s as [|e s]; [done|].
    destruct (Ascii.eqb_spec e "u").
    + destruct s as [|h1 [|h2 [|h3 [|h4 s]]]]; try done.
      destruct (JSON.hexValue h1), (JSON.hexValue h2), (JSON.hexValue h3),
        (JSON.hexValue h4); try done.
      destruct (_ <? _)%N; [|done].
      apply IH with (m := length s) in H; [|simpl in *; lia|done].
      destruct H as [k ->]. exists (JSON.backslash :: e :: h1 :: h2 :: h3 :: h4 :: k). done.
    + destruct (JSON.escapeValue e); [|done].
      apply IH with (m := length s) in H; [|simpl in *; lia|done].
      destruct H as [k ->]. by exists (JSON.backslash :: e :: k).
  - destruct (_ <? _)%N; [done|].
    apply IH with (m := length s) in H; [|simpl in *; lia|done].
    destruct H as [k ->]. by exists (c :: k).
Qed.

Lemma stripPrefix_consumes : forall word s r,
  JSON.stripPrefix word s = Some r -> s = word ++ r.
Proof.
  induction word as [|w word IH]; intros [|c s] r H; simpl in H; simplify_eq; try done.
  destruct (Ascii.eqb_spec w c) as [->|]; [|done]. simpl. f_equal. auto.
Qed.

Section loops.
Context (value : list ascii -> option (json * list ascii)).
Context (Hvalue : forall s v r, value s = Some (v, r) -> r `suffix_of` s).

Lemma parseElements_consumes : forall n s acc v r,
  JSON.parseElements value n s acc = Some (v, r) -> ("]"%char :: r) `suffix_of` s.
Proof.
  induction n as [|n IH]; intros s acc v r H; simpl in H; [done|].
  destruct (value s) as [[v1 r1]|] eqn:E; simpl in H; [|done].
  apply Hvalue in E.
  destruct (JSON.skipWhitespace r1) as [|c r2] eqn:E1; [done|].
  apply skipWhitespace_suffix_eq in E1.
  destruct (Ascii.eqb_spec c ",").
  - apply IH in H. etrans; [exact H|]. etrans; [apply skipWhitespace_suffix|].
    etrans; [|exact E]. etrans; [|exact E1]. by apply suffix_cons_r.
  - destruct (Ascii.eqb_spec c "]") as [->|]; [|done]. simplify_eq.
    etrans; [exact E1|exact E].
Qed.

Lemma parseMembers_consumes : forall n s acc v r,
  JSON.parseMembers value n s acc = Some (v, r) -> ("}"%char :: r) `suffix_of` s.
Proof.
  induction n as [|n IH]; intros s acc v r H; simpl in H; [done|].
  destruct s as [|c s]; [done|].
  destruct (Ascii.eqb_spec c JSON.quote) as [->|]; [|done].
  destruct (JSON.parseChars s []) as [[key r1]|] eqn:E1; simpl in H; [|done].
  apply parseChars_consumes, suffix_tail in E1.
  destruct (JSON.skipWhitespace r1) as [|colon r2] eqn:E2; [done|].
  apply skipWhitespace_suffix_eq, suffix_tail in E2.
  destruct (Ascii.eqb_spec colon ":"); [|done].
  destruct (value (JSON.skipWhitespace r2)) as [[v1 r3]|] eqn:E3; simpl in H; [|done].
  apply Hvalue in E3.
  destruct (JSON.skipWhitespace r3) as [|d r4] eqn:E4; [done|].
  apply skipWhitespace_suffix_eq in E4.
  assert (Hchain : (d :: r4) `suffix_of` (JSON.quote :: s)).
  { etrans; [exact E4|]. etrans; [exact E3|]. etrans; [apply skipWhitespace_suffix|].
    etrans; [exact E2|]. etrans; [exact E1|]. by apply suffix_cons_r. }
  destruct (Ascii.eqb_spec d ",").
  - apply IH in H. etrans; [exact H|]. etrans; [apply skipWhitespace_suffix|].
    by eapply suffix_tail.
  - destruct (Ascii.eqb_spec d "}") as [->|]; [|done]. by simplify_eq.
Qed.

End loops.

(** *** Number lexemes *)

Lemma takeDigits_spec : forall s ds r,
  JSON.takeDigits s = (ds, r) ->
  s = ds ++ r /\ forallb JSON.isDigit ds = true /\ stops r.
Proof.
  induction s as [|c s IH]; simpl; intros ds r H; [by simplify_eq|].
  destruct (JSON.isDigit c) eqn:E.
  - destruct (JSON.takeDigits s) as [ds' r'] eqn:E'. simplify_eq.
    destruct (IH ds' r eq_refl) as (-> & Hds & Hr). simpl. by rewrite E, Hds.
  - simplify_eq. simpl. by rewrite E.
Qed.

Lemma takeDigits_app : forall ds r,
  forallb JSON.isDigit ds = true -> stops r -> JSON.takeDigits (ds ++ r) = (ds, r).
Proof.
  induction ds as [|c ds IH]; simpl; intros r Hds Hr.
  - destruct r as [|c r]; simpl in *; [done|]. by rewrite Hr.
  - apply andb_prop in Hds as [-> Hds]. by rewrite IH.
Qed.

Lemma parseInt_spec s ip r :
  JSON.parseInt s = Some (ip, r) ->
  s = ip ++ r /\ forallb JSON.isDigit ip = true /\ ip <> [].
Proof.
  destruct s as [|c s]; simpl; [done|].
  destruct (Ascii.eqb_spec c "0") as [->|_]; [by intros; simplify_eq|].
  destruct (JSON.isDigit c) eqn:E; [|done].
  destruct (JSON.takeDigits s) as [ds r'] eqn:E'. intros; simplify_eq.
  destruct (takeDigits_spec _ _ _ E') as (-> & Hds & _). simpl. by rewrite E, Hds.
Qed.

Lemma parseFrac_spec s fp r :
  JSON.parseFrac s = Some (fp, r) ->
  exists fl, s = fl ++ r /\ fractionLexeme fl.
Proof.
  destruct s as [|c s]; simpl.
  - intros; simplify_eq. exists []. split; [done|by left].
  - destruct (Ascii.eqb_spec c ".") as [->|_].
    + destruct (JSON.takeDigits s) as [ds r'] eqn:E.
      destruct (takeDigits_spec _ _ _ E) as (-> & Hds & _).
      destruct ds as [|d ds]; [done|]. intros; simplify_eq.
      exists ("."%char :: d :: ds). split; [done|]. right. by exists (d :: ds).
    + intros; simplify_eq. exists []. split; [done|by left].
Qed.

Lemma parseSign_spec s neg r :
  JSON.parseSign s = (neg, r) ->
  exists sg, s = sg ++ r /\ (sg = [] \/ sg = ["-"%char] \/ sg = ["+"%char]).
Proof.
  destruct s as [|c s]; simpl.
  - intros; simplify_eq. exists []. auto.
  - destruct (Ascii.eqb_spec c "-") as [->|_]; [intros; simplify_eq; exists ["-"%char]; auto|].
    destruct (Ascii.eqb_spec c "+") as [->|_]; [intros; simplify_eq; exists ["+"%char]; auto|].
    intros; simplify_eq. exists []. auto.
Qed.

Lemma parseExp_spec s ex r :
  JSON.parseExp s = Some (ex, r) ->
  exists el, s = el ++ r /\ exponentLexeme el.
Proof.
  destruct s as [|c s]; simpl.
  - intros; simplify_eq. exists []. split; [done|by left].
  - destruct ((c =? "e")%char || (c =? "E")%char) eqn:Ec.
    + destruct (JSON.parseSign s) as [neg r1] eqn:Es.
      destruct (parseSign_spec _ _ _ Es) as (sg & -> & Hsg).
      destruct (JSON.takeDigits r1) as [ds r2] eqn:Ed.
      destruct (takeDigits_spec _ _ _ Ed) as (-> & Hds & _).
      destruct ds as [|d ds]; [done|]. intros; simplify_eq.
      exists (c :: sg ++ d :: ds). split; [simpl; by rewrite <- app_assoc|].
      right. exists c, sg, (d :: ds). split; [done|]. split; [|done].
      apply orb_prop in Ec as [Ec|Ec]; apply Ascii.eqb_eq in Ec; auto.
    + intros; simplify_eq. exists []. split; [done|by left].
Qed.

Lemma parseSign_lexeme sg ds :
  (sg = [] \/ sg = ["-"%char] \/ sg = ["+"%char]) ->
  ds <> [] -> forallb JSON.isDigit ds = true ->
  (JSON.parseSign (sg ++ ds)).2 = ds.
Proof.
  intros [-> | [-> | ->]] Hne Hds; try done.
  destruct ds as [|d ds]; [done|]. simpl in *.
  apply andb_prop in Hds as [Hd _].
  destruct (Ascii.eqb_spec d "-") as [->|_]; [done|].
  by destruct (Ascii.eqb_spec d "+") as [->|_].
Qed.

Lemma isExponentPart_lexeme el : exponentLexeme el -> JSON.isExponentPart el = true.
Proof.
  intros [->|(e & sg & ds & -> & He & Hsg & Hne & Hds)]; [done|]. simpl.
  assert ((e =? "e")%char || (e =? "E")%char = true) as ->.
  { by destruct He as [-> | ->]. }
  rewrite parseSign_lexeme by done.
  rewrite <- (app_nil_r ds), takeDigits_app by done. by destruct ds.
Qed.

Lemma exponentLexeme_stops el : exponentLexeme el -> stops el.
Proof.
  intros [->|(e & sg & ds & -> & He & _)]; [done|]. simpl. by destruct He as [-> | ->].
Qed.

Lemma exponentLexeme_not_dot el c r :
  exponentLexeme el -> el = c :: r -> (c =? ".")%char = false.
Proof.
  intros [->|(e & sg & ds & -> & He & _)] H; [done|]. simplify_eq.
  by destruct He as [-> | ->].
Qed.

Lemma unsignedDecimal_lexeme ip fl el :
  ip <> [] -> forallb JSON.isDigit ip = true ->
  fractionLexeme fl -> exponentLexeme el ->
  JSON.isStrUnsignedDecimalLiteral (ip ++ fl ++ el) = true.
Proof.
  intros Hne Hip Hfl Hel. unfold JSON.isStrUnsignedDecimalLiteral.
  destruct (bool_decide _); [done|].
  pose proof (isExponentPart_lexeme el Hel) as Hexp.
  pose proof (exponentLexeme_stops el Hel) as Hstop.
  assert (Hip' : bool_decide (ip = []) = false) by by apply bool_decide_eq_false.
  destruct Hfl as [->|(fp & -> & Hfp & Hdigits)].
  - simpl. rewrite takeDigits_app by done.
    destruct el as [|c r]; [by rewrite Hip'|].
    rewrite (exponentLexeme_not_dot _ c r Hel eq_refl). by rewrite Hip', Hexp.
  - rewrite takeDigits_app; [|done|done]. simpl.
    rewrite takeDigits_app by done. by rewrite Hip', Hexp.
Qed.

Lemma digits_last ds :
  ds <> [] -> forallb JSON.isDigit ds = true ->
  exists m d, ds = m ++ [d] /\ JSON.isDigit d = true.
Proof.
  intros Hne Hds. destruct (exists_last Hne) as (m & d & ->).
  exists m, d. split; [done|]. rewrite forallb_app in Hds.
  apply andb_prop in Hds as [_ Hd]. simpl in Hd. by rewrite andb_true_r in Hd.
Qed.

Lemma lexeme_last ip fl el :
  ip <> [] -> forallb JSON.isDigit ip = true ->
  fractionLexeme fl -> exponentLexeme el ->
  exists m d, ip ++ fl ++ el = m ++ [d] /\ JSON.isDigit d = true.
Proof.
  intros Hne Hip Hfl Hel.
  destruct Hel as [->|(e & sg & ds & -> & _ & _ & Hds & Hdigits)].
  - rewrite app_nil_r. destruct Hfl as [->|(fp & -> & Hfp & Hdigits)].
    + rewrite app_nil_r. by apply digits_last.
    + destruct (digits_last fp Hfp Hdigits) as (m & d & -> & Hd).
      exists (ip ++ "."%char :: m), d. split; [|done]. by rewrite <- app_assoc.
  - destruct (digits_last ds Hds Hdigits) as (m & d & -> & Hd).
    exists (ip ++ fl ++ e :: sg ++ m), d. split; [|done].
    rewrite <- !app_assoc. simpl. by rewrite <- !app_assoc.
Qed.

Lemma parseNumber_consumes s v r :
  JSON.parseNumber s = Some (v, r) -> exists b, s = b ++ r /\ numberLexeme b.
Proof.
  unfold JSON.parseNumber.
  set (sign := match s with
               | c :: r0 => if (c =? "-")%char then (true, r0) else (false, s)
               | [] => (false, [])
               end).
  destruct sign as [neg s1] eqn:Esign. subst sign.
  destruct (JSON.parseInt s1) as [[ip r1]|] eqn:Ei; simpl; [|done].
  destruct (JSON.parseFrac r1) as [[fp r2]|] eqn:Ef; simpl; [|done].
  destruct (JSON.parseExp r2) as [[ex r3]|] eqn:Ee; simpl; [|done].
  intros H. simplify_eq.
  destruct (parseInt_spec _ _ _ Ei) as (-> & Hip & Hne).
  destruct (parseFrac_spec _ _ _ Ef) as (fl & -> & Hfl).
  destruct (parseExp_spec _ _ _ Ee) as (el & -> & Hel).
  pose proof (unsignedDecimal_lexeme ip fl el Hne Hip Hfl Hel) as Hnum.
  destruct (lexeme_last ip fl el Hne Hip Hfl Hel) as (m & d & Hlast & Hd).
  assert (Hfirst : exists c m0, ip ++ fl ++ el = c :: m0 /\ JSON.isDigit c = true).
  { destruct ip as [|c ip]; [done|]. simpl in Hip. apply andb_prop in Hip as [Hc _].
    by exists c, (ip ++ fl ++ el). }
  destruct Hfirst as (c0 & m0 & Hfirst & Hc0).
  destruct s as [|c s]; [simplify_eq; by destruct ip|].
  destruct (Ascii.eqb_spec c "-") as [->|Hc]; simplify_eq.
  - exists ("-"%char :: ip ++ fl ++ el).
    split; [simpl; by rewrite <- ?app_assoc|].
    split; [|split].
    + unfold JSON.isStrNumericLiteral. simpl (_ =? _)%char. simpl orb at 2.
      cbv iota. rewrite Hnum. apply orb_true_r.
    + exists "-"%char, (ip ++ fl ++ el). auto.
    + exists ("-"%char :: m), d. by rewrite Hlast.
  - exists (ip ++ fl ++ el). split; [by rewrite <- ?app_assoc|].
    split; [|split].
    + unfold JSON.isStrNumericLiteral. rewrite Hfirst.
      assert ((c0 =? "+")%char || (c0 =? "-")%char = false) as ->.
      { destruct (Ascii.eqb_spec c0 "+") as [->|_]; [done|].
        by destruct (Ascii.eqb_spec c0 "-") as [->|_]. }
      rewrite <- Hfirst, Hnum. apply orb_true_r.
    + exists c0, m0. auto.
    + by exists m, d.
Qed.

(** *** Value lexemes *)

Lemma parseValue_consumes : forall fuel s v r,
  JSON.parseValue fuel s = Some (v, r) -> exists b, s = b ++ r /\ valueLexeme b.
Proof.
  induction fuel as [|fuel IH]; intros s v r H; simpl in H; [done|].
  assert (Hvalue : forall s v r, JSON.parseValue fuel s = Some (v, r) -> r `suffix_of` s).
  { intros s0 v0 r0 H0. destruct (IH _ _ _ H0) as (b & -> & _). by exists b. }
  destruct s as [|c s]; [done|].
  destruct (Ascii.eqb_spec c "{") as [->|_].
  { destruct (JSON.skipWhitespace s) as [|d r'] eqn:E; [done|].
    apply skipWhitespace_suffix_eq in E as [w ->].
    destruct (Ascii.eqb_spec d "}") as [->|_].
    - simplify_eq. exists ("{"%char :: w ++ ["}"%char]).
      split; [simpl; by rewrite <- app_assoc|]. left. by exists w.
    - apply (parseMembers_consumes _ Hvalue) in H as [k Hk]. rewrite Hk.
      exists ("{"%char :: (w ++ k) ++ ["}"%char]).
      split; [simpl; by rewrite <- !app_assoc|]. left. by exists (w ++ k). }
  destruct (Ascii.eqb_spec c "[") as [->|_].
  { destruct (JSON.skipWhitespace s) as [|d r'] eqn:E; [done|].
    apply skipWhitespace_suffix_eq in E as [w ->].
    destruct (Ascii.eqb_spec d "]") as [->|_].
    - simplify_eq. exists ("["%char :: w ++ ["]"%char]).
      split; [simpl; by rewrite <- app_assoc|]. right. left. by exists w.
    - apply (parseElements_consumes _ Hvalue) in H as [k Hk]. rewrite Hk.
      exists ("["%char :: (w ++ k) ++ ["]"%char]).
      split; [simpl; by rewrite <- !app_assoc|]. right. left. by exists (w ++ k). }
  destruct (Ascii.eqb_spec c JSON.quote) as [->|_].
  { destruct (JSON.parseChars s []) as [[str r']|] eqn:E; simpl in H; [|done].
    simplify_eq. apply parseChars_consumes in E as [k ->].
    exists (JSON.quote :: k ++ [JSON.quote]).
    split; [simpl; by rewrite <- app_assoc|]. right. right. left. by exists k. }
  unfold JSON.parseLiteral in H.
  destruct (Ascii.eqb_spec c "t") as [->|_].
  { destruct (JSON.stripPrefix _ _) as [r'|] eqn:E; simpl in H; [|done].
    simplify_eq. apply stripPrefix_consumes in E.
    exists (list_ascii_of_string "true"). split; [exact E|]. do 3 right; left; reflexivity. }
  destruct (Ascii.eqb_spec c "f") as [->|_].
  { destruct (JSON.stripPrefix _ _) as [r'|] eqn:E; simpl in H; [|done].
    simplify_eq. apply stripPrefix_consumes in E.
    exists (list_ascii_of_string "false"). split; [exact E|]. do 4 right; left; reflexivity. }
  destruct (Ascii.eqb_spec c "n") as [->|_].
  { destruct (JSON.stripPrefix _ _) as [r'|] eqn:E; simpl in H; [|done].
    simplify_eq. apply stripPrefix_consumes in E.
    exists (list_ascii_of_string "null"). split; [exact E|]. do 5 right; left; reflexivity. }
  apply parseNumber_consumes in H as (b & -> & Hb). exists b. split; [done|].
  do 6 right. done.
Qed.

Lemma digit_not_whitespace c : JSON.isDigit c = true -> JS.isWhiteSpace c = false.
Proof.
  unfold JSON.isDigit, JS.isWhiteSpace. intros H.
  apply andb_prop in H as [H1 H2]. apply N.leb_le in H1, H2.
  repeat (apply orb_false_intro); try apply andb_false_intro2;
    try (apply N.leb_gt; lia); apply N.eqb_neq; lia.
Qed.

(** A value lexeme neither starts nor ends with whitespace. *)
Lemma valueLexeme_solid b :
  valueLexeme b ->
  exists c m d m', b = c :: m /\ b = m' ++ [d]
    /\ JS.isWhiteSpace c = false /\ JS.isWhiteSpace d = false.
Proof.
  intros [(m & ->)|[(m & ->)|[(m & ->)|[->|[->|[->|(_ & (c & m & -> & Hc) & (m' & d & Hb & Hd))]]]]]].
  - by exists "{"%char, (m ++ ["}"%char]), "}"%char, ("{"%char :: m).
  - by exists "["%char, (m ++ ["]"%char]), "]"%char, ("["%char :: m).
  - by exists JSON.quote, (m ++ [JSON.quote]), JSON.quote, (JSON.quote :: m).
  - by exists "t"%char, (list_ascii_of_string "rue"), "e"%char, (list_ascii_of_string "tru").
  - by exists "f"%char, (list_ascii_of_string "alse"), "e"%char, (list_ascii_of_string "fals").
  - by exists "n"%char, (list_ascii_of_string "ull"), "l"%char, (list_ascii_of_string "nul").
  - exists c, m, d, m'. split; [done|]. split; [done|]. split.
    + destruct Hc as [->|Hc]; [done|by apply digit_not_whitespace].
    + by apply digit_not_whitespace.
Qed.

(** *** First and last characters *)

Lemma firstChar_cons c m : firstChar (string_of_list_ascii (c :: m)) = Some c.
Proof. done. Qed.

Lemma length_snoc_string m d :
  String.length (string_of_list_ascii (m ++ [d])) = S (String.length (string_of_list_ascii m)).
Proof. induction m as [|c m IH]; simpl; [done|]. by rewrite IH. Qed.

Lemma lastChar_snoc m d : lastChar (string_of_list_ascii (m ++ [d])) = Some d.
Proof.
  unfold lastChar. rewrite length_snoc_string. simpl. rewrite Nat.sub_0_r.
  induction m as [|c m IH]; simpl; [done|]. exact IH.
Qed.

(** *** The theorem *)

Lemma trim_lexeme w1 w2 b :
  forallb JSON.isJsonWhitespace w1 = true ->
  forallb JSON.isJsonWhitespace w2 = true ->
  valueLexeme b ->
  JS.trim (string_of_list_ascii (w1 ++ b ++ w2)) = string_of_list_ascii b
  /\ JSON.trimWhitespace (w1 ++ b ++ w2) = b.
Proof.
  intros Hw1 Hw2 Hb.
  destruct (valueLexeme_solid b Hb) as (c & m & d & m' & Hc & Hd & Hwc & Hwd).
  split.
  - unfold JS.trim. rewrite list_ascii_of_string_of_list_ascii.
    rewrite (trimStart_strip (w1 ++ b ++ w2)), trimStart_strip.
    by rewrite (strip_both_body JS.isWhiteSpace w1 w2 c m d
                  (jsonWhitespace_all _ Hw1) (jsonWhitespace_all _ Hw2) Hwc Hwd b Hc
                  (ex_intro _ m' Hd)).
  - unfold JSON.trimWhitespace.
    rewrite (skipWhitespace_strip (w1 ++ b ++ w2)), skipWhitespace_strip.
    by rewrite (strip_both_body JSON.isJsonWhitespace w1 w2 c m d Hw1 Hw2
                  (not_isWhiteSpace_json _ Hwc) (not_isWhiteSpace_json _ Hwd) b Hc
                  (ex_intro _ m' Hd)).
Qed.

Lemma guard_lexeme b :
  valueLexeme b ->
  let trimmed := string_of_list_ascii b in
  bool_decide (firstChar trimmed = Some "{"%char) && bool_decide (lastChar trimmed = Some "}"%char)
  || bool_decide (firstChar trimmed = Some "["%char) && bool_decide (lastChar trimmed = Some "]"%char)
  || bool_decide (firstChar trimmed = Some JSON.quote) && bool_decide (lastChar trimmed = Some JSON.quote)
  || String.eqb trimmed "true"
  || String.eqb trimmed "false"
  || String.eqb trimmed "null"
  || negb (JSON.Number_isNaN trimmed) = true.
Proof.
  intros Hb trimmed. subst trimmed.
  destruct Hb as [(m & ->)|[(m & ->)|[(m & ->)|[->|[->|[->|Hnum]]]]]].
  - rewrite app_comm_cons, lastChar_snoc. done.
  - rewrite app_comm_cons, lastChar_snoc. simpl. by rewrite ?orb_true_r.
  - rewrite (app_comm_cons m), lastChar_snoc. done.
  - done.
  - done.
  - done.
  - assert (Hn : JSON.Number_isNaN (string_of_list_ascii b) = false).
    { unfold JSON.Number_isNaN.
      destruct (trim_lexeme [] [] b eq_refl eq_refl) as [Ht _]; [do 6 right; done|].
      simpl in Ht. rewrite app_nil_r in Ht. rewrite Ht.
      rewrite list_ascii_of_string_of_list_ascii.
      destruct Hnum as (-> & _). by rewrite orb_true_r. }
    rewrite Hn. simpl. by rewrite orb_true_r.
Qed.

(** A text that [JSON.parse] accepts passes [isValidJsonSyntax]. *)
Lemma isValidJsonSyntax_accepts text v :
  JSON.parse text = Normal v -> isValidJsonSyntax text = true.
Proof.
  unfold JSON.parse. destruct (JSON.parseText text) as [v'|] eqn:E; [|done].
  intros _. clear v. unfold JSON.parseText in E.
  set (body := JSON.trimWhitespace (list_ascii_of_string text)) in *.
  destruct (JSON.parseValue (S (length body)) body) as [[v r]|] eqn:Ev; simpl in E; [|done].
  destruct r; [|done]. simplify_eq.
  destruct (parseValue_consumes _ _ _ _ Ev) as (b & Hbody & Hb).
  rewrite app_nil_r in Hbody. subst b.
  destruct (strip_both_split JSON.isJsonWhitespace (list_ascii_of_string text))
    as (w1 & w2 & Htext & Hw1 & Hw2).
  assert (Hsplit : list_ascii_of_string text = w1 ++ body ++ w2).
  { unfold body, JSON.trimWhitespace.
    rewrite (skipWhitespace_strip (list_ascii_of_string text)), skipWhitespace_strip.
    exact Htext. }
  clear Htext. clearbody body.
  destruct (trim_lexeme w1 w2 body Hw1 Hw2 Hb) as [Htrim _].
  rewrite <- Hsplit, string_of_list_ascii_of_string in Htrim.
  destruct (valueLexeme_solid body Hb) as (c & m & _ & _ & Hc & _).
  unfold isValidJsonSyntax.
  assert (JS.truthy text = true) as ->.
  { destruct text; [|done]. simpl in Hsplit. destruct w1; [|done]. simpl in Hsplit.
    rewrite Hc in Hsplit. done. }
  simpl negb. cbv iota. rewrite Htrim.
  assert (JS.truthy (string_of_list_ascii body) = true) as ->.
  { by rewrite Hc. }
  simpl negb. cbv iota.
  rewrite (guard_lexeme body Hb).
  unfold JSON.parse, JSON.parseText. rewrite list_ascii_of_string_of_list_ascii.
  destruct (trim_lexeme [] [] body eq_refl eq_refl Hb) as [_ Hj].
  simpl in Hj. rewrite app_nil_r in Hj. rewrite Hj, Ev. done.
Qed.

(** A valid text whose objects have no own "hasOwnProperty" key parses
    to its value with no error, under every option set that is not
    strict with a node budget that is negative or not whole. *)
Lemma valid_text_parses (text : string) (options : Options.t) (v : json) :
  JSON.parse text = Normal v ->
  plainKeys v = true ->
  (0 <= JS.floor (default (JS.Whole 10000) (Options.maxNodes options))
   /\ JS.ceil (default (JS.Whole 10000) (Options.maxNodes options))
      = JS.floor (default (JS.Whole 10000) (Options.maxNodes options))
   \/ default false (Options.strict options) = false) ->
  exists r, parseJsonString text options = Normal r
    /\ ParseResult.data r = v
    /\ ParseResult.errors r = []
    /\ Metadata.isValid (ParseResult.metadata r) = true.
Proof.
  intros Hparse Hplain Hopt. unfold parseJsonString.
  rewrite (isValidJsonSyntax_accepts text v Hparse), Hparse. simpl negb. cbv iota.
  set (D := default (JS.Whole 100) (Options.maxDepth options)) in *.
  set (N := default (JS.Whole 10000) (Options.maxNodes options)) in *.
  rewrite analyze_rounded.
  destruct (analyze_plain (Graph.heap_of v) (JS.floor D) (JS.ceil N)
              (heap_of_plain v Hplain) (Graph.root_of v))
    as [a Ha].
  rewrite Ha.
  assert (Hcount : JS.gt (Analysis.nodeCount a) N = true ->
                   0 <= JS.floor N -> JS.ceil N = JS.floor N -> False).
  { rewrite gt_floor. intros Hgt HN Hwhole. apply Z.gtb_lt in Hgt.
    unfold analyzeJsonStructure in Ha. bind_cases Ha.
    unfold mret, completion_ret in Ha. simplify_eq. simpl in Hgt.
    assert (Vars.nodeCount a0 <= JS.ceil N); [|lia].
    apply (traverse_inv (Graph.heap_of v) (JS.floor D) (JS.ceil N)
             (fun s => Vars.nodeCount s <= JS.ceil N))
      in E; simpl; try done; intros; lia. }
  eexists. split; [reflexivity|].
  destruct (JS.gt (Analysis.depth a) D), (JS.gt (Analysis.nodeCount a) N) eqn:En; simpl;
    try done.
  all: destruct (default false (Options.strict options)) eqn:Es; simpl; try done.
  all: destruct Hopt as [[HN Hwhole]|Hs]; [by destruct (Hcount eq_refl HN Hwhole)|done].
Qed.

(** ** The properties of the specification *)

(** C1.  A syntactically valid text should parse to its value with an
    empty [errors] sequence.  The text [{"hasOwnProperty":1}] is valid
    JSON ([JSON.parse] returns its value), yet [parseJsonString] reports
    an error for it: the analysis calls [obj.hasOwnProperty(key)] on the
    parsed object, whose own property of that name is the number 1, and
    the TypeError is caught and pushed to [errors].  The value is stored
    and [isValid] stays true, while depth, node count and type keep
    their initial values. *)
Theorem valid_text_reported_as_error :
  let text := Samples.jsonText "{'hasOwnProperty':1}" in
  let value := JObject [("hasOwnProperty", JNumber 1 0)] in
  JSON.parse text = Normal value
  /\ parseJsonString text Options.empty
     = Normal (ParseResult.mk value (Metadata.mk 20 0 0 "unknown" true)
                 ["JSON Parse Error: obj.hasOwnProperty is not a function"] []).
Proof. split; vm_compute; reflexivity. Qed.

(** C2.  A valid document with more nodes than [maxNodes] should get a
    node-count warning and, under [strict], an error and
    [isValid = false].  [[1,2,3]] has four nodes; parsed with
    [maxNodes = 2] and [strict = true] the analysis stops counting at 2,
    the test [nodeCount > maxNodes] is false, and the result carries no
    warning, no error and [isValid = true]. *)
Theorem over_budget_document_not_flagged :
  let value := JArray [JNumber 1 0; JNumber 2 0; JNumber 3 0] in
  nodeTotal value = 4
  /\ parseJsonString "[1,2,3]" (Options.mk None (Some (JS.Whole 2)) (Some true))
     = Normal (ParseResult.mk value (Metadata.mk 7 1 2 "array" true) [] []).
Proof. split; vm_compute; reflexivity. Qed.

(** C3.  On an array whose single element is the array itself the
    analysis terminates with [nodeCount = 2] and [depth = 1], and it
    reports [hasCircularReferences = false], although the revisit of the
    array was detected and cut the traversal. *)
Theorem cyclic_array_not_flagged :
  analyzeJsonStructure Samples.selfArray 100 10000 (VRef [])
  = Normal (Analysis.mk 1 2 "array" false).
Proof. vm_compute. reflexivity. Qed.

(** The flag is the constant [false] on every input. *)
Lemma analyze_flag_false h maxDepth maxNodes data a :
  analyzeJsonStructure h maxDepth maxNodes data = Normal a ->
  Analysis.hasCircularReferences a = false.
Proof.
  unfold analyzeJsonStructure. intros H. bind_cases H.
  unfold mret, completion_ret in H. by simplify_eq.
Qed.

(** C4.  A search with an empty or blank query should return no hit.
    [searchInJson] of the parser library has no such guard: the empty
    string is contained in every key and in every scalar, so for
    [{"a":1}] and the query [""] it returns two hits; a blank query is
    searched for like any other text.  The search of the tree view
    returns the empty sequence for both. *)
Theorem empty_query_matches_everything :
  let data := JObject [("a", JNumber 1 0)] in
  let hit := Hit.mk "a" (JNumber 1 0) "number" in
  searchInJson data "" false = [hit; hit]
  /\ searchInJson (JObject [("a b", JNull)]) " " false = [Hit.mk "a b" JNull "null"]
  /\ TreeView.searchInJson "" data = Normal []
  /\ TreeView.searchInJson " " (JObject [("a b", JNull)]) = Normal [].
Proof. repeat split; vm_compute; reflexivity. Qed.

(** The search of the tree view returns no hit for a blank term. *)
Lemma view_search_blank searchTerm data :
  JS.truthy (JS.trim searchTerm) = false ->
  TreeView.searchInJson searchTerm data = Normal [].
Proof. intros H. unfold TreeView.searchInJson. by rewrite H. Qed.

(** C5.  Every node that the expansion set makes visible should be
    emitted when the budget allows, and a position past the budget should
    show as a "limit reached" marker.  For [{"a":[1,2]}], with the root
    and the path [a] both expanded and a budget of 1000, the visible
    nodes are the root, [a], [a[0]] and [a[1]]; the tree view renders the
    root and [a] only, because every child element is created with
    [isExpanded = false] and [expandedPaths] is consulted for the root
    alone.  With a budget of 1 the members of an expanded root are left
    out without any marker: the loop that creates the child elements
    does not run once the counter has reached the budget. *)
Theorem expanded_child_not_rendered :
  let st := TreeView.handleToggle "a" TreeView.State.initial in
  TreeView.State.expandedPaths st = {[ ""; "a" ]}
  /\ TreeView.lines (TreeView.JsonTreeView Samples.nested 1000 st)
     = [TreeView.ValueLine "" Samples.nested;
        TreeView.ValueLine "a" (JArray [JNumber 1 0; JNumber 2 0])]
  /\ TreeView.lines (TreeView.JsonTreeView Samples.nested 1 TreeView.State.initial)
     = [TreeView.ValueLine "" Samples.nested].
Proof.
  split; [apply leibniz_equiv; vm_compute; set_solver|].
  split; vm_compute; reflexivity.
Qed.

(** With 100 flat keys and a budget of 10 the view shows 10 values (the
    root and nine members) followed by one limit line for each of the 91
    members left; with a budget of 1000 it shows all 101 values and no
    limit line. *)
Lemma flat_keys_rendering :
  let small := TreeView.lines (TreeView.JsonTreeView (Samples.flat 100) 10 TreeView.State.initial) in
  let large := TreeView.lines (TreeView.JsonTreeView (Samples.flat 100) 1000 TreeView.State.initial) in
  List.length (List.filter (fun l => negb (Samples.isLimitLine l)) small) = 10%nat
  /\ List.length (List.filter Samples.isLimitLine small) = 91%nat
  /\ List.filter Samples.isLimitLine (firstn 10 small) = []
  /\ List.length large = 101%nat
  /\ List.filter Samples.isLimitLine large = [].
Proof. repeat split; vm_compute; reflexivity. Qed.


(** The query [red] on [{"name":"Widget","tags":["red","name-tag"]}]
    gives one hit, at [tags[0]]; a member whose key and value both
    contain the query is reported twice under the same path. *)
Lemma search_examples :
  searchInJson
    (JObject [("name", JString "Widget");
              ("tags", JArray [JString "red"; JString "name-tag"])])
    "red" false
  = [Hit.mk "tags[0]" (JString "red") "string"]
  /\ searchInJson (JObject [("Name", JString "a name")]) "name" false
     = [Hit.mk "Name" (JString "a name") "string";
        Hit.mk "Name" (JString "a name") "string"].
Proof. split; vm_compute; reflexivity. Qed.

(** C7, as amended.  For every value graph and depth budget the node
    count the analysis returns does not decrease when the node budget
    grows.  For a parsed document without an own "hasOwnProperty" key the
    analysis returns under every budget, and once the node budget is at
    least the number of values at nesting level at most [maxDepth] the
    count equals that number; that number is the total number of values
    when [maxDepth] is at least the depth of the document. *)
Theorem node_count_monotone_then_stable
    (h : heap) (data : jsval) (t : json) (maxDepth N N' : Z) :
  N <= N' ->
  plainKeys t = true ->
  (forall a a',
      analyzeJsonStructure h maxDepth N data = Normal a ->
      analyzeJsonStructure h maxDepth N' data = Normal a' ->
      Analysis.nodeCount a <= Analysis.nodeCount a')
  /\ (exists a a',
        analyzeJsonStructure (Graph.heap_of t) maxDepth N (Graph.root_of t) = Normal a
        /\ analyzeJsonStructure (Graph.heap_of t) maxDepth N' (Graph.root_of t) = Normal a'
        /\ Analysis.nodeCount a <= Analysis.nodeCount a'
        /\ (nodesWithin (Z.to_nat (maxDepth + 1)) t <= N ->
            Analysis.nodeCount a = nodesWithin (Z.to_nat (maxDepth + 1)) t
            /\ Analysis.nodeCount a' = nodesWithin (Z.to_nat (maxDepth + 1)) t))
  /\ (Z.of_nat (nesting t) <= maxDepth ->
      nodesWithin (Z.to_nat (maxDepth + 1)) t = nodeTotal t).
Proof.
  intros HN Hplain. split; [|split].
  - intros a a'. by apply analyze_budget_mono.
  - destruct (analyze_plain (Graph.heap_of t) maxDepth N (heap_of_plain t Hplain)
                (Graph.root_of t)) as [a Ha].
    destruct (analyze_plain (Graph.heap_of t) maxDepth N' (heap_of_plain t Hplain)
                (Graph.root_of t)) as [a' Ha'].
    exists a, a'. split; [done|]. split; [done|]. split.
    + by eapply analyze_budget_mono.
    + intros Hn.
      destruct (analyze_tree t maxDepth N Hplain Hn) as (b & Hb & Hcount).
      destruct (analyze_tree t maxDepth N' Hplain ltac:(lia)) as (b' & Hb' & Hcount').
      rewrite Hb in Ha. rewrite Hb' in Ha'. simplify_eq. by split.
  - intros Hd. apply nodesWithin_total. lia.
Qed.

Lemma node_count_monotone_then_stable_witness :
  (forall a a',
      analyzeJsonStructure Samples.selfArray 100 3 (VRef []) = Normal a ->
      analyzeJsonStructure Samples.selfArray 100 5 (VRef []) = Normal a' ->
      Analysis.nodeCount a <= Analysis.nodeCount a')
  /\ (exists a a',
        analyzeJsonStructure (Graph.heap_of Samples.deep) 100 3 (Graph.root_of Samples.deep) = Normal a
        /\ analyzeJsonStructure (Graph.heap_of Samples.deep) 100 5 (Graph.root_of Samples.deep) = Normal a'
        /\ Analysis.nodeCount a <= Analysis.nodeCount a'
        /\ (nodesWithin (Z.to_nat (100 + 1)) Samples.deep <= 3 ->
            Analysis.nodeCount a = nodesWithin (Z.to_nat (100 + 1)) Samples.deep
            /\ Analysis.nodeCount a' = nodesWithin (Z.to_nat (100 + 1)) Samples.deep))
  /\ (Z.of_nat (nesting Samples.deep) <= 100 ->
      nodesWithin (Z.to_nat (100 + 1)) Samples.deep = nodeTotal Samples.deep).
Proof.
  apply (node_count_monotone_then_stable Samples.selfArray (VRef []) Samples.deep 100 3 5).
  - lia.
  - reflexivity.
Defined.

(** C7 as stated fails when the depth budget cuts the traversal: [[[1]]]
    has three values, and with [maxDepth = 1] and [maxNodes = 3] the
    reported count is 2. *)
Lemma depth_cut_count_below_total :
  nodeTotal Samples.deep = 3
  /\ analyzeJsonStructure (Graph.heap_of Samples.deep) 1 3 (Graph.root_of Samples.deep)
     = Normal (Analysis.mk 1 2 "array" false).
Proof. split; vm_compute; reflexivity. Qed.

(** C8, as amended.  For every position of a document whose key segments
    are not empty and contain none of [.], [[], []], the path rendered by
    [extractJsonPaths] splits on these delimiters, empty fragments
    dropped, into the texts of its segments in order, an index as its
    decimal digits. *)
Theorem path_round_trip (data : json) (segments : list Path.segment) :
  In segments (Path.positions data []) ->
  forallb Path.plainSegment segments = true ->
  In (Path.render segments) (extractJsonPaths data)
  /\ TreeView.pathParts (Path.render segments) = map Path.text segments.
Proof.
  intros Hpos Hplain. split.
  - unfold extractJsonPaths. change "" with (Path.render []).
    rewrite extract_positions. simpl. by apply in_map.
  - by apply pathParts_render.
Qed.

Lemma path_round_trip_witness :
  In (Path.render [Path.Key "a"; Path.Index 1; Path.Key "b"])
     (extractJsonPaths Samples.pathDoc)
  /\ TreeView.pathParts (Path.render [Path.Key "a"; Path.Index 1; Path.Key "b"])
     = map Path.text [Path.Key "a"; Path.Index 1; Path.Key "b"].
Proof.
  apply (path_round_trip Samples.pathDoc [Path.Key "a"; Path.Index 1; Path.Key "b"]).
  - simpl. right. right. right. left. reflexivity.
  - reflexivity.
Defined.

(** In [{"a":[1,{"b":2}]}] the path to 2 is [a[1].b]; it splits into
    [a], [1], [b]. *)
Lemma path_example :
  extractJsonPaths Samples.pathDoc = ["a"; "a[0]"; "a[1]"; "a[1].b"]
  /\ Path.render [Path.Key "a"; Path.Index 1; Path.Key "b"] = "a[1].b"
  /\ TreeView.pathParts "a[1].b" = ["a"; "1"; "b"].
Proof. repeat split; vm_compute; reflexivity. Qed.

(** C8 as stated fails for an empty key, which contains none of the
    delimiters: in [{"a":{"":1}}] the path to 1 has the segments [a] and
    the empty key, it renders as [a.], and splitting gives [a] alone. *)
Lemma empty_key_lost_in_round_trip :
  let data := JObject [("a", JObject [("", JNumber 1 0)])] in
  let segments := [Path.Key "a"; Path.Key ""] in
  In segments (Path.positions data [])
  /\ forallb (fun s => forallb Path.plainChar (list_ascii_of_string (Path.text s)))
             segments = true
  /\ Path.render segments = "a."
  /\ In "a." (extractJsonPaths data)
  /\ TreeView.pathParts (Path.render segments) = ["a"]
  /\ map Path.text segments = ["a"; ""].
Proof. repeat split; vm_compute; auto. Qed.

(** C9.  With an empty hit sequence both directions leave the state as
    it is, and the search effect has set the cursor to -1.  With hits
    and the cursor on one of them, "next" moves one forward and from the
    last hit to 0, "previous" moves one back and from 0 to the last
    hit; the hits themselves are untouched. *)
Theorem navigation_wraps (st : TreeView.State.t) :
  let n := Z.of_nat (List.length (TreeView.State.searchResults st)) in
  let cur := TreeView.State.currentSearchIndex st in
  0 <= cur < n \/ (n = 0 /\ cur = -1) ->
  (n = 0 ->
     TreeView.navigateSearchResults TreeView.next st = st
     /\ TreeView.navigateSearchResults TreeView.prev st = st
     /\ TreeView.State.currentSearchIndex
          (TreeView.navigateSearchResults TreeView.next st) = -1
     /\ TreeView.State.currentSearchIndex
          (TreeView.navigateSearchResults TreeView.prev st) = -1)
  /\ (0 < n ->
     TreeView.State.currentSearchIndex (TreeView.navigateSearchResults TreeView.next st)
       = (if cur =? n - 1 then 0 else cur + 1)
     /\ TreeView.State.currentSearchIndex (TreeView.navigateSearchResults TreeView.prev st)
       = (if cur =? 0 then n - 1 else cur - 1)
     /\ TreeView.State.searchResults (TreeView.navigateSearchResults TreeView.next st)
       = TreeView.State.searchResults st
     /\ TreeView.State.searchResults (TreeView.navigateSearchResults TreeView.prev st)
       = TreeView.State.searchResults st).
Proof.
  intros n cur Hinv. unfold TreeView.navigateSearchResults. fold n. fold cur.
  split.
  - intros Hn. rewrite (proj2 (Z.eqb_eq n 0) Hn). repeat split; fold cur; lia.
  - intros Hn. rewrite (proj2 (Z.eqb_neq n 0)) by lia. simpl.
    destruct Hinv as [Hcur|[? _]]; [|lia].
    repeat split.
    + destruct (Z.eqb_spec cur (n - 1)), (Z.ltb_spec cur (n - 1)); lia.
    + destruct (Z.eqb_spec cur 0), (Z.gtb_spec cur 0); lia.
Qed.

(** Three hits, cursor at 0: three "next" give 1, 2, 0. *)
Lemma three_hits_cycle :
  let st0 := TreeView.State.mk ∅ "q" Samples.threeHits 0 in
  let st1 := TreeView.navigateSearchResults TreeView.next st0 in
  let st2 := TreeView.navigateSearchResults TreeView.next st1 in
  let st3 := TreeView.navigateSearchResults TreeView.next st2 in
  map TreeView.State.currentSearchIndex [st1; st2; st3] = [1; 2; 0].
Proof. reflexivity. Qed.

(** The search effect puts the cursor on the first hit, or on -1 when
    there is none. *)
Lemma searchEffect_cursor data st st' :
  TreeView.searchEffect data st = Normal st' ->
  let n := Z.of_nat (List.length (TreeView.State.searchResults st')) in
  let cur := TreeView.State.currentSearchIndex st' in
  0 <= cur < n \/ (n = 0 /\ cur = -1).
Proof.
  unfold TreeView.searchEffect. intros H. bind_cases H. simplify_eq. simpl.
  destruct a; simpl; [right|left]; lia.
Qed.

Lemma navigation_wraps_witness :
  let st := TreeView.State.mk ∅ "q" Samples.threeHits 2 in
  let n := Z.of_nat (List.length (TreeView.State.searchResults st)) in
  let cur := TreeView.State.currentSearchIndex st in
  (n = 0 ->
     TreeView.navigateSearchResults TreeView.next st = st
     /\ TreeView.navigateSearchResults TreeView.prev st = st
     /\ TreeView.State.currentSearchIndex
          (TreeView.navigateSearchResults TreeView.next st) = -1
     /\ TreeView.State.currentSearchIndex
          (TreeView.navigateSearchResults TreeView.prev st) = -1)
  /\ (0 < n ->
     TreeView.State.currentSearchIndex (TreeView.navigateSearchResults TreeView.next st)
       = (if cur =? n - 1 then 0 else cur + 1)
     /\ TreeView.State.currentSearchIndex (TreeView.navigateSearchResults TreeView.prev st)
       = (if cur =? 0 then n - 1 else cur - 1)
     /\ TreeView.State.searchResults (TreeView.navigateSearchResults TreeView.next st)
       = TreeView.State.searchResults st
     /\ TreeView.State.searchResults (TreeView.navigateSearchResults TreeView.prev st)
       = TreeView.State.searchResults st).
Proof.
  apply (navigation_wraps (TreeView.State.mk ∅ "q" Samples.threeHits 2)).
  left. simpl. lia.
Defined.

(** C10, as amended.  For budgets that are not negative, whole or not,
    the metadata the analysis returns satisfies [depth <= maxDepth] and
    [nodeCount < maxNodes + 1]: the depth is at most the depth budget
    rounded down to a whole number, and the node count is at most the
    node budget rounded up to a whole number, which is [maxNodes] itself
    when the budget is whole. *)
Theorem analysis_within_budgets
    (h : heap) (data : jsval) (maxDepth maxNodes : JS.number) (a : Analysis.t) :
  0 <= JS.floor maxDepth -> 0 <= JS.floor maxNodes ->
  analyzeJsonStructure h maxDepth maxNodes data = Normal a ->
  Analysis.depth a <= JS.floor maxDepth
  /\ Analysis.nodeCount a <= JS.ceil maxNodes
  /\ JS.gt (Analysis.depth a) maxDepth = false
  /\ JS.lt (Analysis.nodeCount a - 1) maxNodes = true
  /\ (forall whole : Z, maxNodes = JS.Whole whole -> Analysis.nodeCount a <= whole).
Proof.
  intros HD HN. rewrite analyze_rounded.
  unfold analyzeJsonStructure. intros H. bind_cases H.
  unfold mret, completion_ret in H. simplify_eq. simpl.
  pose proof (floor_le_ceil maxNodes) as Hceil.
  apply traverse_bounds in E as [Hn Hd]; [|simpl; lia..].
  split; [done|]. split; [done|].
  rewrite gt_floor, lt_ceil, Z.gtb_ltb.
  split; [apply Z.ltb_ge; lia|]. split; [apply Z.ltb_lt; lia|].
  intros whole ->. exact Hn.
Qed.

Lemma analysis_within_budgets_witness :
  let a := Analysis.mk 1 3 "array" false in
  Analysis.depth a <= JS.floor 100
  /\ Analysis.nodeCount a <= JS.ceil (JS.Fraction 25 1)
  /\ JS.gt (Analysis.depth a) 100 = false
  /\ JS.lt (Analysis.nodeCount a - 1) (JS.Fraction 25 1) = true
  /\ (forall whole : Z, JS.Fraction 25 1 = JS.Whole whole -> Analysis.nodeCount a <= whole).
Proof.
  apply (analysis_within_budgets
           (Graph.heap_of (JArray [JNumber 1 0; JNumber 2 0; JNumber 3 0]))
           (Graph.root_of (JArray [JNumber 1 0; JNumber 2 0; JNumber 3 0]))
           100 (JS.Fraction 25 1)).
  - simpl. lia.
  - vm_compute. discriminate.
  - vm_compute. reflexivity.
Defined.

(** C10 as stated fails for a negative budget and for a node budget that
    is not whole.  With a budget of -1 the traversal returns at once,
    and the counts it reports, both 0, exceed the budget.  With the node
    budget 2.5 the analysis of [[1,2,3]] counts 3 nodes: the third is
    counted because 2 is below 2.5. *)
Lemma budget_exceeded :
  analyzeJsonStructure (Graph.heap_of JNull) 100 (-1) (Graph.root_of JNull)
    = Normal (Analysis.mk 0 0 "null" false)
  /\ analyzeJsonStructure (Graph.heap_of JNull) (-1) 10000 (Graph.root_of JNull)
    = Normal (Analysis.mk 0 0 "null" false)
  /\ JS.gt 0 (-1) = true
  /\ analyzeJsonStructure
       (Graph.heap_of (JArray [JNumber 1 0; JNumber 2 0; JNumber 3 0]))
       100 (JS.Fraction 25 1)
       (Graph.root_of (JArray [JNumber 1 0; JNumber 2 0; JNumber 3 0]))
    = Normal (Analysis.mk 1 3 "array" false)
  /\ JS.gt 3 (JS.Fraction 25 1) = true.
Proof. repeat split; vm_compute; reflexivity. Qed.

(** * Further properties of the code *)

Import JsonParser Measure.
Import SearchSpec.
Import Lexeme.

(** ** The syntax guard *)

Lemma strip_fixed (p : ascii -> bool) s :
  match s with c :: _ => p c = false | [] => True end -> strip p s = s.
Proof. destruct s as [|c s]; simpl; [done|]. by intros ->. Qed.

Lemma strip_head_spec (p : ascii -> bool) s :
  match strip p s with c :: _ => p c = false | [] => True end.
Proof.
  destruct (strip p s) as [|c r] eqn:E; [done|]. by eapply strip_head.
Qed.

Lemma strip_last (p : ascii -> bool) s m d :
  strip p s = m ++ [d] -> exists m', s = m' ++ [d].
Proof.
  destruct (strip_split p s) as (w & Hs & _). intros E.
  exists (w ++ m). by rewrite Hs, E, app_assoc.
Qed.

(** What stripping both ends leaves is not changed by stripping again. *)
Lemma strip_both_fixed (p : ascii -> bool) s :
  let b := strip p (rev (strip p s)) in
  strip p b = b /\ strip p (rev b) = rev b.
Proof.
  intros b. split.
  - apply strip_fixed, strip_head_spec.
  - apply strip_fixed.
    destruct (rev b) as [|d r] eqn:E; [done|].
    apply (f_equal (@rev ascii)) in E. rewrite rev_involutive in E. simpl in E.
    unfold b in E. apply strip_last in E as (m' & E).
    apply (f_equal (@rev ascii)) in E. rewrite rev_involutive, rev_unit in E.
    by eapply strip_head.
Qed.

(** Trimming twice is trimming once. *)
Lemma trim_idempotent (s : string) : JS.trim (JS.trim s) = JS.trim s.
Proof.
  unfold JS.trim at 1. f_equal.
  unfold JS.trim. rewrite list_ascii_of_string_of_list_ascii.
  rewrite !trimStart_strip.
  destruct (strip_both_fixed JS.isWhiteSpace (list_ascii_of_string s)) as [H1 H2].
  simpl in H1, H2. by rewrite H2, rev_involutive, H1.
Qed.

Lemma trim_empty_text (text : string) :
  JS.truthy text = false -> JS.truthy (JS.trim text) = false.
Proof. destruct text; [done|done]. Qed.

(** X1.  [isValidJsonSyntax] accepts a text exactly when [JSON.parse]
    accepts the text trimmed by [String.prototype.trim]: the test of the
    first and last characters rejects nothing that the parser accepts. *)
Theorem syntax_guard_is_parse_of_trimmed (text : string) :
  isValidJsonSyntax text = true
  <-> exists value, JSON.parse (JS.trim text) = Normal value.
Proof.
  split.
  - unfold isValidJsonSyntax.
    destruct (JS.truthy text); simpl; [|done].
    destruct (JS.truthy (JS.trim text)); simpl; [|done].
    destruct (_ || _); [|done].
    destruct (JSON.parse (JS.trim text)) as [value| |]; [|done..].
    intros _. by exists value.
  - intros [value Hparse].
    pose proof (isValidJsonSyntax_accepts _ _ Hparse) as Hguard.
    unfold isValidJsonSyntax in Hguard |- *.
    rewrite trim_idempotent in Hguard.
    destruct (JS.truthy (JS.trim text)) eqn:Htrim.
    + destruct (JS.truthy text) eqn:Htext.
      * simpl in *. exact Hguard.
      * apply trim_empty_text in Htext. congruence.
    + by destruct (JS.truthy (JS.trim text)); destruct (JS.truthy text).
Qed.

(** ** The result record of [parseJsonString] *)

Lemma getJsonType_root (data : json) :
  getJsonType_val (Graph.heap_of data) (Graph.root_of data) = getJsonType data.
Proof. by destruct data. Qed.

Lemma analyze_type h maxDepth maxNodes data a :
  analyzeJsonStructure h maxDepth maxNodes data = Normal a ->
  Analysis.type a = getJsonType_val h data.
Proof.
  unfold analyzeJsonStructure. intros H. bind_cases H.
  unfold mret, completion_ret in H. by simplify_eq.
Qed.

(** X2.  [parseJsonString] returns a result for every text and every
    option set, and the fields of the result agree with one another:
    [size] is the length of the text; when [isValid] is set, [data] is
    the value of [JSON.parse]; a result without errors is valid and its
    [type] is the type of [data]; a result that is not valid carries an
    error. *)
Theorem parse_result_consistent (text : string) (options : Options.t) :
  exists r, parseJsonString text options = Normal r
    /\ Metadata.size (ParseResult.metadata r) = Z.of_nat (String.length text)
    /\ (Metadata.isValid (ParseResult.metadata r) = true ->
        JSON.parse text = Normal (ParseResult.data r))
    /\ (ParseResult.errors r = [] ->
        Metadata.isValid (ParseResult.metadata r) = true
        /\ Metadata.type (ParseResult.metadata r) = getJsonType (ParseResult.data r))
    /\ (Metadata.isValid (ParseResult.metadata r) = false ->
        ParseResult.errors r <> []).
Proof.
  unfold parseJsonString.
  set (D := default (JS.Whole 100) (Options.maxDepth options)).
  set (N := default (JS.Whole 10000) (Options.maxNodes options)).
  destruct (isValidJsonSyntax text); simpl.
  2: { eexists. split; [done|]. simpl. repeat split; done. }
  pose proof (JSON_parse_returns text) as Hret.
  destruct (JSON.parse text) as [parsed|msg|]; [| |done].
  2: { eexists. split; [done|]. simpl. repeat split; done. }
  rewrite analyze_rounded.
  pose proof (analyze_returns (Graph.heap_of parsed) (JS.floor D) (JS.ceil N)
                (Graph.root_of parsed)) as Hfuel.
  destruct (analyzeJsonStructure _ _ _ _) as [a|msg|] eqn:E; [| |done].
  2: { eexists. split; [done|]. simpl. repeat split; try done. }
  apply analyze_type in E. rewrite getJsonType_root in E.
  eexists. split; [done|].
  destruct (JS.gt (Analysis.depth a) D), (JS.gt (Analysis.nodeCount a) N),
           (default false (Options.strict options));
    simpl; repeat split; try done.
Qed.

(** ** The depth reported by the analyzer *)

Lemma nodesWithin_pos n t : 1 <= nodesWithin (S n) t.
Proof.
  simpl. pose proof (zsum_nonneg (nodesWithin n) (children t) (nodesWithin_nonneg n)). lia.
Qed.

Lemma foldr_max_start (a x : Z) (l : list Z) :
  foldr Z.max (Z.max a x) l = Z.max x (foldr Z.max a l).
Proof. induction l as [|y l IH]; simpl; lia. Qed.

Lemma foldr_max_levels {A} (f : A -> nat) (a d : Z) (l : list A) :
  d <= a ->
  foldr Z.max a (map (fun c => d + 1 + Z.of_nat (f c)) l)
  = Z.max a (d + Z.of_nat (foldr Nat.max 0%nat (map (fun c => S (f c)) l))).
Proof. intros Ha. induction l as [|c l IH]; simpl; lia. Qed.

Lemma nestingWithin_min t : forall n,
  nestingWithin (S n) t = Nat.min (nesting t) n.
Proof.
  induction t as [| | | |items IH|props IH] using json_ind; intros [|n];
    try (simpl; lia).
  - change (nestingWithin (S (S n)) (JArray items))
      with (foldr Nat.max 0%nat (map (fun c => S (nestingWithin (S n) c)) items)).
    change (nesting (JArray items))
      with (foldr Nat.max 0%nat (map (fun c => S (nesting c)) items)).
    induction IH as [|c l Hc _ IHl]; cbn [foldr map]; [done|].
    rewrite IHl, Hc. lia.
  - change (nestingWithin (S (S n)) (JObject props))
      with (foldr Nat.max 0%nat
              (map (fun c => S (nestingWithin (S n) c)) (map snd props))).
    change (nesting (JObject props))
      with (foldr Nat.max 0%nat (map (fun kv : string * json => S (nesting kv.2)) props)).
    induction IH as [|kv l Hc _ IHl]; cbn [foldr map]; [done|].
    rewrite IHl, Hc. lia.
Qed.

(** Loops whose body leaves the state as it is *)
Lemma for_array_idle N body items st :
  (forall v s, body v s = Normal s) -> for_array N body items st = Normal st.
Proof.
  intros Hbody. induction items as [|v items IH]; simpl; [done|].
  destruct (JS.lt _ _); [|done]. by rewrite Hbody.
Qed.

Lemma for_in_idle N body obj rest st :
  hasKey "hasOwnProperty" obj = false ->
  (forall v s, body v s = Normal s) -> for_in N body obj rest st = Normal st.
Proof.
  intros Hplain Hbody. induction rest as [|[key v] rest IH]; simpl; [done|].
  unfold call_hasOwnProperty. rewrite Hplain. simpl.
  destruct (_ && _); [|done]. by rewrite Hbody.
Qed.

Lemma traverse_too_deep h D N fuel v d st :
  D < d -> traverse h D N (S fuel) v d st = Normal st.
Proof.
  intros Hd. simpl. destruct (JS.ge _ _); [done|].
  by rewrite (proj2 (Z.gtb_gt d D)) by lia.
Qed.

Section loops_depth.
Context (N : Z) (body : jsval -> Vars.t -> completion Vars.t)
        (w dw : json -> Z) (Q : nat -> json -> Prop) (p : addr).
Context (Hw : forall c, 1 <= w c).
Context (Hbody : forall k c st, Q k c ->
  unvisited_below (p ++ [k]) (Vars.visited st) ->
  Vars.nodeCount st + w c <= N ->
  exists st', body (Graph.val_at (p ++ [k]) c) st = Normal st'
    /\ Vars.nodeCount st' = Vars.nodeCount st + w c
    /\ Vars.depth st' = Z.max (Vars.depth st) (dw c)
    /\ (forall a, a ∈ Vars.visited st' ->
          a ∈ Vars.visited st \/ (p ++ [k]) `prefix_of` a)).

Lemma for_array_levels : forall rest k st,
  (forall i c, rest !! i = Some c -> Q (k + i)%nat c) ->
  (forall j, (k <= j)%nat -> unvisited_below (p ++ [j]) (Vars.visited st)) ->
  Vars.nodeCount st + zsum (map w rest) <= N ->
  exists st',
    for_array N body (imap (fun i c => Graph.val_at (p ++ [(k + i)%nat]) c) rest) st
      = Normal st'
    /\ Vars.nodeCount st' = Vars.nodeCount st + zsum (map w rest)
    /\ Vars.depth st' = foldr Z.max (Vars.depth st) (map dw rest)
    /\ (forall a, a ∈ Vars.visited st' -> a ∈ Vars.visited st \/ p `prefix_of` a).
Proof.
  induction rest as [|c rest IH]; intros k st HQ Hvis Hn.
  - exists st. simpl. split; [done|]. split; [lia|]. auto.
  - simpl in Hn.
    assert (Hrest : 0 <= zsum (map w rest)).
    { apply zsum_nonneg. intros c'. specialize (Hw c'). lia. }
    pose proof (Hw c) as Hc. simpl.
    rewrite (proj2 (Z.ltb_lt _ _)) by lia.
    destruct (Hbody k c st) as (st1 & E & Hc1 & Hd1 & Hv1).
    { specialize (HQ 0%nat c eq_refl). by rewrite Nat.add_0_r in HQ. }
    { by apply Hvis. }
    { lia. }
    rewrite Nat.add_0_r, E. simpl.
    destruct (IH (S k) st1) as (st2 & E2 & Hc2 & Hd2 & Hv2).
    { intros i c' Hi. specialize (HQ (S i) c' Hi).
      by rewrite Nat.add_succ_r in HQ. }
    { intros j Hj a Ha Hpre. destruct (Hv1 a Ha) as [Hold|Hnew].
      - by apply (Hvis j ltac:(lia) a Hold).
      - pose proof (sibling_prefix _ _ _ _ Hnew Hpre). lia. }
    { lia. }
    exists st2. split.
    { rewrite <- E2. f_equal. apply imap_ext. intros i x _. simpl.
      by rewrite Nat.add_succ_r. }
    split; [simpl; lia|].
    split; [by rewrite Hd2, Hd1, foldr_max_start|].
    intros a Ha. destruct (Hv2 a Ha) as [Hin|?]; [|by right].
    destruct (Hv1 a Hin) as [?|Hnew]; [by left|right].
    by eapply child_prefix.
Qed.

Lemma for_in_levels obj : hasKey "hasOwnProperty" obj = false ->
  forall rest k st,
  (forall i kv, rest !! i = Some kv -> Q (k + i)%nat kv.2 /\ hasKey kv.1 obj = true) ->
  (forall j, (k <= j)%nat -> unvisited_below (p ++ [j]) (Vars.visited st)) ->
  Vars.nodeCount st + zsum (map (fun kv => w kv.2) rest) <= N ->
  exists st',
    for_in N body obj
      (imap (fun i kv => (kv.1, Graph.val_at (p ++ [(k + i)%nat]) kv.2)) rest) st
      = Normal st'
    /\ Vars.nodeCount st' = Vars.nodeCount st + zsum (map (fun kv => w kv.2) rest)
    /\ Vars.depth st' = foldr Z.max (Vars.depth st) (map (fun kv => dw kv.2) rest)
    /\ (forall a, a ∈ Vars.visited st' -> a ∈ Vars.visited st \/ p `prefix_of` a).
Proof.
  intros Hplain.
  induction rest as [|[key c] rest IH]; intros k st HQ Hvis Hn.
  - exists st. simpl. split; [done|]. split; [lia|]. auto.
  - simpl in Hn.
    assert (Hrest : 0 <= zsum (map (fun kv : string * json => w kv.2) rest)).
    { apply (zsum_nonneg (fun kv : string * json => w kv.2)).
      intros kv. specialize (Hw kv.2). lia. }
    pose proof (Hw c) as Hc.
    simpl. unfold call_hasOwnProperty. rewrite Hplain. simpl.
    destruct (HQ 0%nat (key, c) eq_refl) as [HQ0 Hkey]. simpl in HQ0, Hkey.
    rewrite Nat.add_0_r in HQ0.
    rewrite Hkey, (proj2 (Z.ltb_lt _ _)) by lia. simpl.
    destruct (Hbody k c st) as (st1 & E & Hc1 & Hd1 & Hv1); [done|by apply Hvis|lia|].
    rewrite Nat.add_0_r, E. simpl.
    destruct (IH (S k) st1) as (st2 & E2 & Hc2 & Hd2 & Hv2).
    { intros i kv Hi. specialize (HQ (S i) kv Hi).
      by rewrite Nat.add_succ_r in HQ. }
    { intros j Hj a Ha Hpre. destruct (Hv1 a Ha) as [Hold|Hnew].
      - by apply (Hvis j ltac:(lia) a Hold).
      - pose proof (sibling_prefix _ _ _ _ Hnew Hpre). lia. }
    { lia. }
    exists st2. split.
    { rewrite <- E2. f_equal. apply imap_ext. intros i x _. simpl.
      by rewrite Nat.add_succ_r. }
    split; [simpl; lia|].
    split; [by rewrite Hd2, Hd1, foldr_max_start|].
    intros a Ha. destruct (Hv2 a Ha) as [Hin|?]; [|by right].
    destruct (Hv1 a Hin) as [?|Hnew]; [by left|right].
    by eapply child_prefix.
Qed.

End loops_depth.

Section tree_depth.
Context (t : json) (D N : Z).

Lemma traverse_levels : forall fuel s p d st,
  Graph.subtree t p = Some s ->
  plainKeys s = true ->
  unvisited_below p (Vars.visited st) ->
  (Z.to_nat (D + 1 - d) < fuel)%nat ->
  d <= D ->
  Vars.nodeCount st + nodesWithin (Z.to_nat (D + 1 - d)) s <= N ->
  exists st',
    traverse (Graph.heap_of t) D N fuel (Graph.val_at p s) d st = Normal st'
    /\ Vars.nodeCount st' = Vars.nodeCount st + nodesWithin (Z.to_nat (D + 1 - d)) s
    /\ Vars.depth st'
       = Z.max (Vars.depth st) (d + Z.of_nat (nestingWithin (Z.to_nat (D + 1 - d)) s))
    /\ (forall a, a ∈ Vars.visited st' -> a ∈ Vars.visited st \/ p `prefix_of` a).
Proof.
  induction fuel as [|fuel IH]; intros s p d st Hsub Hplain Hvis Hfuel Hd Hn; [lia|].
  destruct (Z.to_nat (D + 1 - d)) as [|n'] eqn:En; [lia|].
  assert (Hn' : Z.to_nat (D + 1 - (d + 1)) = n') by lia.
  pose proof (zsum_nonneg (nodesWithin n') (children s) (nodesWithin_nonneg n')) as Hkids.
  change (nodesWithin (S n') s) with (1 + zsum (map (nodesWithin n') (children s))) in *.
  cbn [traverse JS.ge JS.gt].
  destruct (Z.geb_spec (Vars.nodeCount st) N); [lia|].
  destruct (Z.gtb_spec d D); [lia|].
  set (st1 := Vars.mk (Z.max (Vars.depth st) d) (Vars.nodeCount st + 1) (Vars.visited st)).
  assert (Hnew : p ∉ Vars.visited st).
  { intros Hin. by apply (Hvis p Hin). }
  assert (Hfresh : forall j, (0 <= j)%nat ->
    unvisited_below (p ++ [j]) ({[ p ]} ∪ Vars.visited st)).
  { intros j _ a Ha Hpre. apply elem_of_union in Ha as [Ha|Ha].
    - apply elem_of_singleton in Ha as ->. by eapply not_child_prefix_self.
    - apply (Hvis a Ha). by eapply child_prefix. }
  destruct n' as [|n''].
  - (* the children lie below the depth budget *)
    assert (Hzero : zsum (map (nodesWithin 0) (children s)) = 0).
    { clear. induction (children s) as [|c l IHl]; simpl in *; [done|lia]. }
    rewrite Hzero. simpl nestingWithin.
    assert (Hidle : forall v s0, traverse (Graph.heap_of t) D N fuel v (d + 1) s0 = Normal s0).
    { intros v s0. destruct fuel as [|fuel]; [lia|].
      apply traverse_too_deep. lia. }
    assert (Hres : forall st2, st2 = st1 \/
        st2 = Vars.mk (Vars.depth st1) (Vars.nodeCount st1) ({[ p ]} ∪ Vars.visited st1) ->
      Vars.nodeCount st2 = Vars.nodeCount st + (1 + 0)
      /\ Vars.depth st2 = Z.max (Vars.depth st) (d + Z.of_nat 0)
      /\ (forall a, a ∈ Vars.visited st2 -> a ∈ Vars.visited st \/ p `prefix_of` a)).
    { intros st2 [->| ->]; simpl; (split; [lia|split; [lia|]]); [auto|].
      intros a Ha. apply elem_of_union in Ha as [Ha|Ha]; [|by left].
      apply elem_of_singleton in Ha as ->. by right. }
    destruct s; simpl Graph.val_at; cbv iota;
      try (exists st1; split; [done|]; apply Hres; by left).
    + rewrite bool_decide_eq_false_2 by done.
      unfold Graph.heap_of at 1. rewrite Hsub. simpl Graph.obj_at. cbv iota.
      rewrite for_array_idle by done.
      eexists. split; [done|]. apply Hres. by right.
    + rewrite bool_decide_eq_false_2 by done.
      unfold Graph.heap_of at 1. rewrite Hsub. simpl Graph.obj_at. cbv iota.
      simpl in Hplain. apply andb_prop in Hplain as [Hown _].
      apply negb_true_iff in Hown.
      rewrite for_in_idle; [|by rewrite hasKey_imap|done].
      eexists. split; [done|]. apply Hres. by right.
  - (* the children are within the depth budget *)
    set (n' := S n'') in *.
    assert (Hbody : forall k c st0,
      (Graph.subtree t (p ++ [k]) = Some c /\ plainKeys c = true) ->
      unvisited_below (p ++ [k]) (Vars.visited st0) ->
      Vars.nodeCount st0 + nodesWithin n' c <= N ->
      exists st',
        traverse (Graph.heap_of t) D N fuel (Graph.val_at (p ++ [k]) c) (d + 1) st0 = Normal st'
        /\ Vars.nodeCount st' = Vars.nodeCount st0 + nodesWithin n' c
        /\ Vars.depth st' = Z.max (Vars.depth st0) (d + 1 + Z.of_nat (nestingWithin n' c))
        /\ (forall a, a ∈ Vars.visited st' ->
              a ∈ Vars.visited st0 \/ (p ++ [k]) `prefix_of` a)).
    { intros k c st0 [Hc Hpc] Hv0 Hn0. rewrite <- Hn'.
      apply IH; try done; [lia|lia|by rewrite Hn']. }
    change (nestingWithin (S n') s)
      with (foldr Nat.max 0%nat (map (fun c => S (nestingWithin n' c)) (children s))).
    destruct s; simpl Graph.val_at; cbv iota;
      try (exists st1; simpl; split; [done|]; split; [lia|]; split; [lia|auto]).
    + (* array *)
      rewrite bool_decide_eq_false_2 by done.
      unfold Graph.heap_of at 1. rewrite Hsub. simpl Graph.obj_at. cbv iota.
      destruct (for_array_levels N (fun v => traverse (Graph.heap_of t) D N fuel v (d + 1))
                  (nodesWithin n') (fun c => d + 1 + Z.of_nat (nestingWithin n' c))
                  (fun k c => Graph.subtree t (p ++ [k]) = Some c /\ plainKeys c = true)
                  p (nodesWithin_pos n'') Hbody items 0%nat
                  (Vars.mk (Vars.depth st1) (Vars.nodeCount st1) ({[ p ]} ∪ Vars.visited st1)))
        as (st' & E & Hc & Hdep & Hv).
      { intros i c Hi. simpl. split.
        - rewrite (subtree_snoc t p i _ Hsub). done.
        - eapply (plainKeys_child (JArray items)); [done|exact Hi]. }
      { exact Hfresh. }
      { simpl in *. lia. }
      exists st'. split; [exact E|]. split; [simpl in *; lia|].
      split.
      { rewrite Hdep. simpl Vars.depth. simpl children.
        rewrite foldr_max_levels by lia. lia. }
      intros a Ha. destruct (Hv a Ha) as [Hin|?]; [|by right]. simpl in Hin.
      apply elem_of_union in Hin as [Hin|Hin]; [|by left].
      apply elem_of_singleton in Hin as ->. by right.
    + (* object *)
      rewrite bool_decide_eq_false_2 by done.
      unfold Graph.heap_of at 1. rewrite Hsub. simpl Graph.obj_at. cbv iota.
      simpl in Hplain. apply andb_prop in Hplain as [Hown Hplain'].
      apply negb_true_iff in Hown.
      destruct (for_in_levels N (fun v => traverse (Graph.heap_of t) D N fuel v (d + 1))
                  (nodesWithin n') (fun c => d + 1 + Z.of_nat (nestingWithin n' c))
                  (fun k c => Graph.subtree t (p ++ [k]) = Some c /\ plainKeys c = true)
                  p (nodesWithin_pos n'') Hbody
                  (imap (fun i kv => (kv.1, Graph.val_at (p ++ [i]) kv.2)) props)
                  ltac:(by rewrite hasKey_imap)
                  props 0%nat
                  (Vars.mk (Vars.depth st1) (Vars.nodeCount st1) ({[ p ]} ∪ Vars.visited st1)))
        as (st' & E & Hc & Hdep & Hv).
      { intros i kv Hi. simpl. split; [split|].
        - rewrite (subtree_snoc t p i _ Hsub). simpl.
          by rewrite list_lookup_fmap, Hi.
        - eapply (plainKeys_child (JObject props) i).
          + simpl. by rewrite Hown, Hplain'.
          + simpl. by rewrite list_lookup_fmap, Hi.
        - rewrite hasKey_imap. by eapply hasKey_lookup. }
      { exact Hfresh. }
      { simpl in *. rewrite map_map in Hn. lia. }
      exists st'. split; [exact E|]. split.
      { simpl in *. rewrite map_map. lia. }
      split.
      { rewrite Hdep. simpl Vars.depth. simpl children. rewrite map_map.
        rewrite (foldr_max_levels (fun kv : string * json => nestingWithin n' kv.2)) by lia.
        lia. }
      intros a Ha. destruct (Hv a Ha) as [Hin|?]; [|by right]. simpl in Hin.
      apply elem_of_union in Hin as [Hin|Hin]; [|by left].
      apply elem_of_singleton in Hin as ->. by right.
Qed.

End tree_depth.

(** The depth reported under whole budgets. *)
Lemma reported_depth_whole (t : json) (maxDepth maxNodes : Z) :
  plainKeys t = true ->
  0 <= maxDepth ->
  nodesWithin (Z.to_nat (maxDepth + 1)) t <= maxNodes ->
  exists a,
    analyzeJsonStructure (Graph.heap_of t) maxDepth maxNodes (Graph.root_of t) = Normal a
    /\ Analysis.depth a = Z.min (Z.of_nat (nesting t)) maxDepth.
Proof.
  intros Hplain HD Hn. unfold analyzeJsonStructure, Graph.root_of.
  destruct (traverse_levels t maxDepth maxNodes (stack_bound maxDepth) t [] 0
              (Vars.mk 0 0 ∅)) as (st' & E & _ & Hd & _); try done.
  - unfold stack_bound. simpl JS.floor. lia.
  - simpl. by rewrite Z.sub_0_r.
  - rewrite E. simpl. eexists. split; [done|]. simpl in *.
    rewrite Hd, Z.sub_0_r.
    replace (Z.to_nat (maxDepth + 1)) with (S (Z.to_nat maxDepth)) by lia.
    rewrite nestingWithin_min. lia.
Qed.

(** X3.  For a parsed document none of whose objects has an own key
    "hasOwnProperty", a depth budget that is not negative and a node
    budget that covers the values within the depth budget, the analysis
    returns, and the depth it reports is the deepest nesting level of
    the document, or, when the document nests deeper, [maxDepth] rounded
    down to a whole number.  The budgets need not be whole: the values
    within the depth budget are those at a nesting level of at most
    [maxDepth], and the node budget covers them when, rounded up, it is
    at least their number. *)
Theorem reported_depth_is_nesting (t : json) (maxDepth maxNodes : JS.number) :
  plainKeys t = true ->
  0 <= JS.floor maxDepth ->
  nodesWithin (Z.to_nat (JS.floor maxDepth + 1)) t <= JS.ceil maxNodes ->
  exists a,
    analyzeJsonStructure (Graph.heap_of t) maxDepth maxNodes (Graph.root_of t) = Normal a
    /\ Analysis.depth a = Z.min (Z.of_nat (nesting t)) (JS.floor maxDepth).
Proof.
  intros Hplain HD Hn. rewrite analyze_rounded. by apply reported_depth_whole.
Qed.

Lemma reported_depth_is_nesting_witness :
  exists a,
    analyzeJsonStructure (Graph.heap_of Samples.pathDoc) (JS.Fraction 15 1) 10
                         (Graph.root_of Samples.pathDoc)
      = Normal a
    /\ Analysis.depth a
       = Z.min (Z.of_nat (nesting Samples.pathDoc)) (JS.floor (JS.Fraction 15 1)).
Proof.
  apply (reported_depth_is_nesting Samples.pathDoc (JS.Fraction 15 1) 10);
    [reflexivity|vm_compute; discriminate|vm_compute; discriminate].
Defined.

(** ** Paths and hits *)

Lemma positions_count (t : json) : forall here,
  Z.of_nat (length (Path.positions t here)) = nodeTotal t - 1.
Proof.
  induction t as [| | | |items IH|props IH] using json_ind; intros here; simpl;
    try done.
  - generalize 0%nat.
    induction IH as [|c l Hc _ IHl]; intros index; simpl; [done|].
    rewrite length_app, Nat2Z.inj_succ, Nat2Z.inj_add, Hc.
    specialize (IHl (S index)). lia.
  - induction IH as [|[key c] l Hc _ IHl]; simpl; [done|].
    rewrite length_app, Nat2Z.inj_succ, Nat2Z.inj_add, Hc.
    simpl in *. lia.
Qed.

Lemma extractJsonPaths_positions (data : json) :
  extractJsonPaths data = map Path.render (Path.positions data []).
Proof. unfold extractJsonPaths. apply (extract_positions data [] []). Qed.

(** X4.  [extractJsonPaths] returns one path for each value of the
    document below the root: as many paths as the document has values,
    less one. *)
Theorem one_path_per_value (data : json) :
  Z.of_nat (length (extractJsonPaths data)) = nodeTotal data - 1.
Proof.
  rewrite extractJsonPaths_positions, length_map. apply positions_count.
Qed.

(** X5.  With budgets that cover the document, the node count of the
    analysis is the number of paths that [extractJsonPaths] returns,
    plus one for the root. *)
Theorem analysis_counts_paths (data : json) (maxDepth maxNodes : Z) :
  plainKeys data = true ->
  Z.of_nat (nesting data) <= maxDepth ->
  nodeTotal data <= maxNodes ->
  exists a,
    analyzeJsonStructure (Graph.heap_of data) maxDepth maxNodes (Graph.root_of data)
      = Normal a
    /\ Analysis.nodeCount a = 1 + Z.of_nat (length (extractJsonPaths data)).
Proof.
  intros Hplain HD HN.
  assert (Htotal : nodesWithin (Z.to_nat (maxDepth + 1)) data = nodeTotal data).
  { apply nodesWithin_total. lia. }
  destruct (analyze_tree data maxDepth maxNodes Hplain) as (a & E & Hc); [lia|].
  exists a. split; [done|].
  rewrite Hc, Htotal, extractJsonPaths_positions, length_map, positions_count. lia.
Qed.

Lemma analysis_counts_paths_witness :
  exists a,
    analyzeJsonStructure (Graph.heap_of Samples.pathDoc) 100 10000
                         (Graph.root_of Samples.pathDoc) = Normal a
    /\ Analysis.nodeCount a = 1 + Z.of_nat (length (extractJsonPaths Samples.pathDoc)).
Proof.
  apply (analysis_counts_paths Samples.pathDoc 100 10000);
    [reflexivity|vm_compute; discriminate|vm_compute; discriminate].
Defined.

(** The paths of the nodes are the root path and the extracted paths. *)
Lemma nodes_paths (t : json) : forall here key,
  map nodePath (nodes t (Path.render here) key)
  = Path.render here :: map Path.render (Path.positions t here).
Proof.
  induction t as [| | | |items IH|props IH] using json_ind; intros here key;
    simpl; try done; f_equal.
  - generalize 0%nat.
    induction IH as [|c l Hc _ IHl]; intros index; simpl; [done|].
    change (indexPath (Path.render here) index)
      with (Path.extend (Path.render here) (Path.Index index)).
    rewrite <- render_snoc, map_app, Hc, IHl, map_app. done.
  - induction IH as [|[k c] l Hc _ IHl]; simpl; [done|].
    change (keyPath (Path.render here) k)
      with (Path.extend (Path.render here) (Path.Key k)).
    rewrite <- render_snoc, map_app. simpl in Hc. rewrite Hc, IHl, map_app. done.
Qed.

(** X6.  Every hit of [searchInJson] lies on the root path or on one of
    the paths of [extractJsonPaths], and its [type] is the type of its
    [value]. *)
Theorem hits_lie_on_paths (data : json) (query : string) (caseSensitive : bool)
    (hit : Hit.t) :
  In hit (searchInJson data query caseSensitive) ->
  (Hit.path hit = "" \/ In (Hit.path hit) (extractJsonPaths data))
  /\ Hit.type hit = getJsonType (Hit.value hit).
Proof.
  rewrite searchInJson_search. unfold search.
  set (term := if caseSensitive then query else JS.toLowerCase query).
  intros H. apply in_concat in H as (hs & Hhs & Hin).
  apply in_map_iff in Hhs as (n & <- & Hn).
  assert (Hhit : hit = hitAt n).
  { unfold hitsOf in Hin. apply in_app_or in Hin as [Hin|Hin].
    - destruct (keyMatches _ _ n); simpl in Hin; [|done]. by destruct Hin.
    - destruct (valueMatches _ _ n); simpl in Hin; [|done]. by destruct Hin. }
  subst hit. simpl. split; [|done].
  apply (in_map nodePath) in Hn.
  change "" with (Path.render []) in Hn. rewrite nodes_paths in Hn.
  rewrite extractJsonPaths_positions. destruct Hn as [Hroot|Hpath]; [by left|by right].
Qed.

Lemma hits_lie_on_paths_witness :
  let hit := Hit.mk "a[1].b" (JNumber 2 0) "number" in
  (Hit.path hit = "" \/ In (Hit.path hit) (extractJsonPaths Samples.pathDoc))
  /\ Hit.type hit = getJsonType (Hit.value hit).
Proof.
  apply (hits_lie_on_paths Samples.pathDoc "2" false). vm_compute. by left.
Defined.

(** *** Case *)

Lemma prefix_lower (sub s : string) :
  String.prefix sub s = true ->
  String.prefix (JS.toLowerCase sub) (JS.toLowerCase s) = true.
Proof.
  revert s. induction sub as [|c sub IH]; intros [|d s]; simpl; try done.
  destruct (ascii_dec c d) as [->|]; [|done].
  intros H. destruct (ascii_dec _ _); [|done]. by apply IH.
Qed.

Lemma includes_lower (s sub : string) :
  JS.includes s sub = true ->
  JS.includes (JS.toLowerCase s) (JS.toLowerCase sub) = true.
Proof.
  induction s as [|c s IH]; simpl.
  - by destruct sub.
  - intros H. apply orb_prop in H as [H|H].
    + apply (prefix_lower sub (String c s)) in H. simpl in H. by rewrite H.
    + rewrite (IH H). apply orb_true_r.
Qed.

Lemma sublist_guard {A} (b1 b2 : bool) (x : A) :
  (b1 = true -> b2 = true) ->
  (if b1 then [x] else []) `sublist_of` (if b2 then [x] else []).
Proof.
  destruct b1, b2; intros H; try done.
  - by specialize (H eq_refl).
  - apply sublist_nil_l.
Qed.

Lemma sublist_concat_map {A B} (f g : A -> list B) (l : list A) :
  (forall x, f x `sublist_of` g x) ->
  concat (map f l) `sublist_of` concat (map g l).
Proof.
  intros H. induction l as [|x l IH]; simpl; [done|]. by apply sublist_app.
Qed.

(** X7.  For a document and a query in the Latin-1 range (characters
    below U+0100, the strings of the model), the hits of a
    case-sensitive search are hits of the case-insensitive search for
    the same query, in the same order.  Beyond that range
    [toLowerCase] depends on the characters around a letter (a capital
    sigma at the end of a word becomes a final sigma, which a lowered
    query, a small sigma, does not match), and the property is not
    claimed. *)
Theorem case_sensitive_hits_among_insensitive (data : json) (query : string) :
  searchInJson data query true `sublist_of` searchInJson data query false.
Proof.
  rewrite !searchInJson_search. unfold search.
  apply sublist_concat_map. intros n. unfold hitsOf.
  apply sublist_app; apply sublist_guard.
  - unfold keyMatches, folded. destruct (nodeKey n); [|done]. apply includes_lower.
  - unfold valueMatches, folded. intros H. apply andb_prop in H as [-> H].
    by apply includes_lower.
Qed.

(** ** The tree view *)

Lemma JsonTreeNode_limit maxNodes data path level isExpanded nodeCount :
  maxNodes <= nodeCount ->
  TreeView.JsonTreeNode maxNodes data path level isExpanded nodeCount
  = (TreeView.LimitReached level, nodeCount).
Proof.
  intros H. destruct data; simpl; by rewrite (proj2 (Z.geb_le _ _)) by lia.
Qed.

Lemma JsonTreeNode_collapsed maxNodes data path level nodeCount :
  nodeCount < maxNodes ->
  TreeView.JsonTreeNode maxNodes data path level false nodeCount
  = (TreeView.Row path data false [], nodeCount + 1).
Proof.
  intros H. destruct data; simpl;
    destruct (Z.geb_spec nodeCount maxNodes); try lia; done.
Qed.

Lemma JsonTreeNode_leaf maxNodes data path level isExpanded nodeCount :
  nodeCount < maxNodes ->
  isExpanded && TreeView.hasChildren data = false ->
  TreeView.JsonTreeNode maxNodes data path level isExpanded nodeCount
  = (TreeView.Row path data isExpanded [], nodeCount + 1).
Proof.
  intros H Hleaf.
  assert (Hnot : negb isExpanded || negb (TreeView.hasChildren data) = true).
  { by destruct isExpanded, (TreeView.hasChildren data). }
  destruct data; simpl in *;
    destruct (Z.geb_spec nodeCount maxNodes); try lia; try done;
    try (destruct isExpanded; done).
  - rewrite Hnot. done.
  - rewrite Hnot. done.
Qed.

Lemma lines_row path data isExpanded children :
  TreeView.lines (TreeView.Row path data isExpanded children)
  = TreeView.ValueLine path data :: concat (map TreeView.lines children).
Proof.
  simpl. f_equal. induction children as [|c l IH]; simpl; [done|]. by rewrite IH.
Qed.

(** Collapsed children rendered one after the other: value rows while
    the counter is below the budget, limit lines from then on. *)
Lemma renderAll_collapsed (maxNodes : Z) level (cs : list (string * json)) :
  forall nodeCount,
  let elements :=
    map (fun c : string * json =>
           TreeView.JsonTreeNode maxNodes c.2 c.1 level false) cs in
  let room := Z.to_nat (maxNodes - nodeCount) in
  concat (map TreeView.lines (TreeView.renderAll elements nodeCount).1)
  = take room (map (fun c => TreeView.ValueLine c.1 c.2) cs)
    ++ replicate (length cs - room) TreeView.LimitLine.
Proof.
  induction cs as [|[path data] cs IH]; intros nodeCount; simpl; [by rewrite take_nil|].
  destruct (Z.lt_ge_cases nodeCount maxNodes) as [Hlt|Hge].
  - rewrite JsonTreeNode_collapsed by done.
    specialize (IH (nodeCount + 1)). simpl in IH.
    destruct (TreeView.renderAll _ (nodeCount + 1)) as [rs n'] eqn:E. simpl in *.
    replace (Z.to_nat (maxNodes - nodeCount))
      with (S (Z.to_nat (maxNodes - (nodeCount + 1)))) by lia.
    simpl. f_equal. exact IH.
  - rewrite JsonTreeNode_limit by lia.
    specialize (IH nodeCount). simpl in IH.
    destruct (TreeView.renderAll _ nodeCount) as [rs n'] eqn:E. simpl in *.
    replace (Z.to_nat (maxNodes - nodeCount)) with 0%nat in * by lia.
    simpl. rewrite take_0 in IH. simpl in IH. rewrite Nat.sub_0_r in IH.
    by rewrite IH.
Qed.

Lemma JsonTreeNode_array maxNodes items path level nodeCount :
  nodeCount + 1 < maxNodes -> items <> [] ->
  TreeView.JsonTreeNode maxNodes (JArray items) path level true nodeCount
  = let elements :=
      map (fun c : string * json =>
             TreeView.JsonTreeNode maxNodes c.2 c.1 (S level) false)
          (imap (fun i item => (path +:+ "[" +:+ JS.string_of_nat i +:+ "]", item)) items) in
    let (rows, nodeCount') := TreeView.renderAll elements (nodeCount + 1) in
    (TreeView.Row path (JArray items) true rows, nodeCount').
Proof.
  intros Hroom Hitems. simpl.
  rewrite Z.geb_leb, (proj2 (Z.leb_gt _ _)) by lia.
  rewrite bool_decide_eq_false_2 by done. simpl negb. cbv iota.
  rewrite (proj2 (Z.ltb_lt (nodeCount + 1) maxNodes)) by lia.
  assert (Hloop : forall l k,
    (fix loop (l : list json) (i : nat) {struct l} : list TreeView.element :=
       match l with
       | [] => []
       | item :: l' =>
           TreeView.JsonTreeNode maxNodes item
             (path +:+ "[" +:+ JS.string_of_nat i +:+ "]") (S level) false
           :: loop l' (S i)
       end) l k
    = map (fun c : string * json =>
             TreeView.JsonTreeNode maxNodes c.2 c.1 (S level) false)
          (imap (fun i item =>
                   (path +:+ "[" +:+ JS.string_of_nat (k + i) +:+ "]", item)) l)).
  { induction l as [|item l IHl]; intros k; [done|].
    simpl. rewrite Nat.add_0_r. f_equal.
    rewrite IHl. f_equal. apply imap_ext. intros j x _. simpl.
    by rewrite Nat.add_succ_r. }
  by rewrite Hloop.
Qed.

Lemma JsonTreeNode_object maxNodes props path level nodeCount :
  nodeCount + 1 < maxNodes -> props <> [] ->
  TreeView.JsonTreeNode maxNodes (JObject props) path level true nodeCount
  = let elements :=
      map (fun c : string * json =>
             TreeView.JsonTreeNode maxNodes c.2 c.1 (S level) false)
          (map (fun kv : string * json => (keyPath path kv.1, kv.2)) props) in
    let (rows, nodeCount') := TreeView.renderAll elements (nodeCount + 1) in
    (TreeView.Row path (JObject props) true rows, nodeCount').
Proof.
  intros Hroom Hprops. simpl.
  rewrite Z.geb_leb, (proj2 (Z.leb_gt _ _)) by lia.
  rewrite bool_decide_eq_false_2 by done. simpl negb. cbv iota.
  rewrite (proj2 (Z.ltb_lt (nodeCount + 1) maxNodes)) by lia.
  assert (Hloop : forall l,
    (fix loop (l : list (string * json)) : list TreeView.element :=
       match l with
       | [] => []
       | (key, value) :: l' =>
           TreeView.JsonTreeNode maxNodes value (keyPath path key) (S level) false
           :: loop l'
       end) l
    = map (fun c : string * json =>
             TreeView.JsonTreeNode maxNodes c.2 c.1 (S level) false)
          (map (fun kv : string * json => (keyPath path kv.1, kv.2)) l)).
  { induction l as [|[key value] l IHl]; [done|]. simpl. by rewrite IHl. }
  by rewrite Hloop.
Qed.

(** With room for the root only, no element is created for a member. *)
Lemma JsonTreeNode_full maxNodes data path level isExpanded nodeCount :
  nodeCount < maxNodes -> maxNodes <= nodeCount + 1 ->
  TreeView.JsonTreeNode maxNodes data path level isExpanded nodeCount
  = (TreeView.Row path data isExpanded [], nodeCount + 1).
Proof.
  intros Hlt Hfull.
  destruct data as [| | | |items|props]; simpl;
    rewrite Z.geb_leb, (proj2 (Z.leb_gt _ _)) by lia;
    try (by destruct isExpanded).
  - destruct (_ || _); [done|]. destruct items; [done|].
    by rewrite (proj2 (Z.ltb_ge _ _)) by lia.
  - destruct (_ || _); [done|]. destruct props as [|[key value] props]; [done|].
    by rewrite (proj2 (Z.ltb_ge _ _)) by lia.
Qed.

(** The lines of the rendered tree under a whole budget *)
Lemma view_lines_whole (data : json) (maxNodes : Z) (st : TreeView.State.t) :
  TreeView.lines (TreeView.JsonTreeView data maxNodes st)
  = ViewSpec.expectedLines data maxNodes
      (bool_decide ("" ∈ TreeView.State.expandedPaths st)).
Proof.
  unfold TreeView.JsonTreeView, ViewSpec.expectedLines.
  simpl JS.ceil. cbv zeta.
  set (expanded := bool_decide _).
  destruct (Z.leb_spec maxNodes 0) as [Hle|Hgt].
  { by rewrite JsonTreeNode_limit by lia. }
  destruct (Z.ltb_spec 1 maxNodes) as [Hroom|Hfull].
  2: { rewrite JsonTreeNode_full by lia. simpl. by rewrite andb_false_r. }
  rewrite andb_true_r.
  destruct (expanded && TreeView.hasChildren data) eqn:Hkids.
  2: { rewrite JsonTreeNode_leaf by (done || lia). simpl. f_equal.
       destruct expanded; simpl in *; [|done].
       destruct data as [| | | |[|c l]|[|kv l]]; try done; simpl; by rewrite take_nil. }
  apply andb_prop in Hkids as [-> Hkids].
  destruct data as [| | | |items|props]; try done.
  - rewrite JsonTreeNode_array; [|lia|by destruct items].
    cbv zeta.
    pose proof (renderAll_collapsed maxNodes 1
      (imap (fun i item => ("" +:+ "[" +:+ JS.string_of_nat i +:+ "]", item)) items)
      (0 + 1)) as Hall.
    cbv zeta in Hall.
    destruct (TreeView.renderAll _ _) as [rs n'] eqn:E.
    cbn [fst] in Hall |- *. rewrite lines_row. f_equal. rewrite Hall.
    rewrite length_imap. simpl ViewSpec.childLines. rewrite length_imap.
    replace (0 + 1) with 1 by lia. f_equal.
    f_equal. rewrite fmap_imap. done.
  - rewrite JsonTreeNode_object; [|lia|by destruct props].
    cbv zeta.
    pose proof (renderAll_collapsed maxNodes 1
      (map (fun kv : string * json => (keyPath "" kv.1, kv.2)) props)
      (0 + 1)) as Hall.
    cbv zeta in Hall.
    destruct (TreeView.renderAll _ _) as [rs n'] eqn:E.
    cbn [fst] in Hall |- *. rewrite lines_row. f_equal. rewrite Hall.
    rewrite length_map. simpl ViewSpec.childLines. rewrite length_map.
    replace (0 + 1) with 1 by lia. f_equal.
    f_equal. rewrite map_map. done.
Qed.

(** Elements that render alike are rendered alike in a row. *)
Lemma renderAll_ext (cs cs' : list TreeView.element) :
  Forall2 (fun f g => forall n, f n = g n) cs cs' ->
  forall n, TreeView.renderAll cs n = TreeView.renderAll cs' n.
Proof.
  induction 1 as [|f g cs cs' Hfg _ IH]; intros n; simpl; [done|].
  rewrite Hfg. destruct (g n) as [r n']. by rewrite IH.
Qed.

(** A node rendered under the budget [N] is the node rendered under [N]
    rounded up. *)
Lemma JsonTreeNode_rounded (N : JS.number) (data : json) :
  forall path level isExpanded nodeCount,
    TreeView.JsonTreeNode N data path level isExpanded nodeCount
    = TreeView.JsonTreeNode (JS.ceil N) data path level isExpanded nodeCount.
Proof.
  induction data as [| | | |items IH|props IH] using json_ind;
    intros path level isExpanded nodeCount; simpl; rewrite ?ge_ceil, ?lt_ceil;
    try done.
  - destruct (_ >=? _); [done|].
    destruct (negb isExpanded || _); [done|].
    destruct (_ <? _).
    2: { by destruct items. }
    erewrite renderAll_ext; [done|].
    generalize 0%nat. induction IH as [|item l Hitem _ IHl]; intros i; [done|].
    constructor; [intros n; apply Hitem|apply IHl].
  - destruct (_ >=? _); [done|].
    destruct (negb isExpanded || _); [done|].
    destruct (_ <? _).
    2: { by destruct props as [|[key value] props]. }
    erewrite renderAll_ext; [done|].
    induction IH as [|[key value] l Hvalue _ IHl]; [done|].
    constructor; [intros n; apply Hvalue|apply IHl].
Qed.

(** The lines of the rendered tree *)
Lemma view_lines (data : json) (maxNodes : JS.number) (st : TreeView.State.t) :
  TreeView.lines (TreeView.JsonTreeView data maxNodes st)
  = ViewSpec.expectedLines data maxNodes
      (bool_decide ("" ∈ TreeView.State.expandedPaths st)).
Proof.
  unfold TreeView.JsonTreeView. rewrite JsonTreeNode_rounded.
  exact (view_lines_whole data (JS.ceil maxNodes) st).
Qed.

(** X8.  What the tree view renders, for every document, state and
    budget, whole or not: with a budget of 0 or less a single limit
    line; otherwise the root and, when the root is expanded and the
    budget is above 1, its members as collapsed rows for as long as the
    number of rows is below the budget, followed by one limit line for
    each member left.  The number of rows that fit is the budget rounded
    up to a whole number.  Nothing below the members of the root is
    rendered. *)
Theorem tree_view_lines (data : json) (maxNodes : JS.number)
    (st : TreeView.State.t) :
  TreeView.lines (TreeView.JsonTreeView data maxNodes st)
  = ViewSpec.expectedLines data maxNodes
      (bool_decide ("" ∈ TreeView.State.expandedPaths st)).
Proof. apply view_lines. Qed.

Lemma filter_value_replicate n :
  List.filter ViewSpec.isValueLine (replicate n TreeView.LimitLine) = [].
Proof. induction n as [|n IH]; simpl; [done|exact IH]. Qed.

(** X9.  The tree view never renders more value rows than the budget
    [maxNodes] rounded up to a whole number, and none when the budget is
    0 or less: under a whole budget the value rows are at most
    [maxNodes], under a budget that is not whole they are fewer than
    [maxNodes + 1]. *)
Theorem rendered_values_within_budget (data : json) (maxNodes : JS.number)
    (st : TreeView.State.t) :
  Z.of_nat (length (List.filter ViewSpec.isValueLine
                      (TreeView.lines (TreeView.JsonTreeView data maxNodes st))))
  <= Z.max 0 (JS.ceil maxNodes).
Proof.
  rewrite view_lines. unfold ViewSpec.expectedLines. cbv zeta.
  set (room := JS.ceil maxNodes).
  destruct (Z.leb_spec room 0) as [Hle|Hgt]; [simpl; lia|].
  destruct (_ && _) eqn:E; [|simpl; lia].
  apply andb_prop in E as [_ E]. apply Z.ltb_lt in E.
  cbn [List.filter ViewSpec.isValueLine length].
  rewrite List.filter_app, filter_value_replicate, app_nil_r.
  pose proof (List.filter_length_le ViewSpec.isValueLine
                (take (Z.to_nat (room - 1)) (ViewSpec.childLines data))) as Hlen.
  rewrite length_take in Hlen. lia.
Qed.

(** Budgets that are not whole: at 0.5 the root alone is rendered, at
    1.5 the root and one member, then a limit line for each member
    left. *)
Lemma fractional_budget_rendering :
  let data := JArray [JNull; JNull; JNull] in
  TreeView.lines (TreeView.JsonTreeView data (JS.Fraction 5 1) TreeView.State.initial)
  = [TreeView.ValueLine "" data]
  /\ TreeView.lines (TreeView.JsonTreeView data (JS.Fraction 15 1) TreeView.State.initial)
     = [TreeView.ValueLine "" data; TreeView.ValueLine "[0]" JNull;
        TreeView.LimitLine; TreeView.LimitLine].
Proof. split; vm_compute; reflexivity. Qed.

(** X10.  When the budget covers the root and its members, the view
    of an expanded root shows the root and every member, and no limit
    line. *)
Theorem budget_covers_members (data : json) (maxNodes : Z) (st : TreeView.State.t) :
  "" ∈ TreeView.State.expandedPaths st ->
  1 + Z.of_nat (length (children data)) <= maxNodes ->
  TreeView.lines (TreeView.JsonTreeView data maxNodes st)
  = TreeView.ValueLine "" data :: ViewSpec.childLines data.
Proof.
  intros Hroot Hbudget. rewrite view_lines. unfold ViewSpec.expectedLines.
  simpl JS.ceil. cbv zeta.
  rewrite bool_decide_eq_true_2 by done.
  assert (Hlen : length (ViewSpec.childLines data) = length (children data)).
  { destruct data; simpl; try done; [apply length_imap|by rewrite !length_map]. }
  rewrite (proj2 (Z.leb_gt _ _)) by lia. f_equal.
  destruct (Z.ltb_spec 1 maxNodes) as [Hroom|Hfull]; simpl.
  - rewrite take_ge by lia.
    replace (_ - _)%nat with 0%nat by lia. simpl. by rewrite app_nil_r.
  - destruct (ViewSpec.childLines data); [done|]. simpl in Hlen. lia.
Qed.

Lemma budget_covers_members_witness :
  TreeView.lines (TreeView.JsonTreeView (Samples.flat 3) 4 TreeView.State.initial)
  = TreeView.ValueLine "" (Samples.flat 3) :: ViewSpec.childLines (Samples.flat 3).
Proof.
  apply (budget_covers_members (Samples.flat 3) 4 TreeView.State.initial).
  - simpl. by apply elem_of_singleton_2.
  - vm_compute. discriminate.
Defined.

(** *** The expansion set *)

Lemma toggle_out (path : string) (E : gset string) :
  path ∈ E -> E ∖ {[ path ]} ∪ {[ path ]} = E /\ path ∉ E ∖ {[ path ]}.
Proof.
  intros H. split.
  - apply set_eq. intros x.
    rewrite elem_of_union, elem_of_difference, elem_of_singleton.
    destruct (decide (x = path)) as [->|]; tauto.
  - rewrite not_elem_of_difference. right. by apply elem_of_singleton.
Qed.

Lemma toggle_in (path : string) (E : gset string) :
  path ∉ E -> (E ∪ {[ path ]}) ∖ {[ path ]} = E /\ path ∈ E ∪ {[ path ]}.
Proof.
  intros H. split.
  - apply set_eq. intros x.
    rewrite elem_of_difference, elem_of_union, elem_of_singleton.
    split; [tauto|]. intros Hx. split; [tauto|]. by intros ->.
  - apply elem_of_union. right. by apply elem_of_singleton.
Qed.

(** X11.  Toggling a path twice restores the state. *)
Theorem toggle_twice (path : string) (st : TreeView.State.t) :
  TreeView.handleToggle path (TreeView.handleToggle path st) = st.
Proof.
  destruct st as [expanded term results index]. unfold TreeView.handleToggle. simpl.
  f_equal.
  destruct (decide (path ∈ expanded)) as [Hin|Hout].
  - destruct (toggle_out path expanded Hin) as [Heq Hnot].
    rewrite (bool_decide_eq_true_2 _ Hin).
    by rewrite (bool_decide_eq_false_2 _ Hnot).
  - destruct (toggle_in path expanded Hout) as [Heq Hnow].
    rewrite (bool_decide_eq_false_2 _ Hout).
    by rewrite (bool_decide_eq_true_2 _ Hnow).
Qed.

(** X12.  The expansion of a path other than the root has no effect on
    what is rendered: toggling such a path leaves the rendered tree as
    it is, and [expandAll] renders what the initial state renders. *)
Theorem nested_expansion_not_rendered (data : json) (maxNodes : JS.number)
    (path : string) (st : TreeView.State.t) :
  path <> "" ->
  TreeView.JsonTreeView data maxNodes (TreeView.handleToggle path st)
  = TreeView.JsonTreeView data maxNodes st
  /\ TreeView.JsonTreeView data maxNodes (TreeView.expandAll st)
     = TreeView.JsonTreeView data maxNodes TreeView.State.initial.
Proof.
  intros Hpath. unfold TreeView.JsonTreeView. split.
  - f_equal. f_equal. unfold TreeView.handleToggle. simpl.
    apply bool_decide_ext. destruct (bool_decide _).
    + rewrite elem_of_difference, elem_of_singleton. split; [tauto|]. intros H.
      split; [done|]. by intros <-.
    + rewrite elem_of_union, elem_of_singleton. split; [|tauto].
      intros [H|H]; [done|]. by destruct Hpath.
  - f_equal.
Qed.

Lemma nested_expansion_not_rendered_witness :
  TreeView.JsonTreeView Samples.nested 50
    (TreeView.handleToggle "a" TreeView.State.initial)
  = TreeView.JsonTreeView Samples.nested 50 TreeView.State.initial
  /\ TreeView.JsonTreeView Samples.nested 50 (TreeView.expandAll TreeView.State.initial)
     = TreeView.JsonTreeView Samples.nested 50 TreeView.State.initial.
Proof.
  apply (nested_expansion_not_rendered Samples.nested 50 "a" TreeView.State.initial).
  discriminate.
Defined.

(** X13.  After [collapseAll] the view shows the root alone, as a
    collapsed row, whatever the document. *)
Theorem collapse_all_shows_root (data : json) (maxNodes : Z) (st : TreeView.State.t) :
  1 <= maxNodes ->
  TreeView.lines (TreeView.JsonTreeView data maxNodes (TreeView.collapseAll st))
  = [TreeView.ValueLine "" data].
Proof.
  intros Hbudget. rewrite view_lines. unfold ViewSpec.expectedLines.
  simpl JS.ceil. cbv zeta.
  rewrite (proj2 (Z.leb_gt _ _)) by lia. done.
Qed.

Lemma collapse_all_shows_root_witness :
  TreeView.lines (TreeView.JsonTreeView Samples.nested 50
                    (TreeView.collapseAll TreeView.State.initial))
  = [TreeView.ValueLine "" Samples.nested].
Proof.
  apply (collapse_all_shows_root Samples.nested 50 TreeView.State.initial). lia.
Defined.

(** *** The cursor of the search *)

Lemma navigate_results d st :
  TreeView.State.searchResults (TreeView.navigateSearchResults d st)
  = TreeView.State.searchResults st.
Proof.
  unfold TreeView.navigateSearchResults. by destruct (_ =? _), d.
Qed.

Lemma navigate_valid d st :
  ViewSpec.cursorValid st -> ViewSpec.cursorValid (TreeView.navigateSearchResults d st).
Proof.
  unfold ViewSpec.cursorValid, TreeView.navigateSearchResults.
  destruct (Z.eqb_spec (Z.of_nat (length (TreeView.State.searchResults st))) 0);
    [done|].
  intros [[? ?]|Hin]; [lia|]. right. simpl.
  destruct d.
  - destruct (Z.ltb_spec (TreeView.State.currentSearchIndex st)
                (Z.of_nat (length (TreeView.State.searchResults st)) - 1)); lia.
  - destruct (Z.gtb_spec (TreeView.State.currentSearchIndex st) 0); lia.
Qed.

(** X14.  After the search effect has run, any sequence of "next" and
    "previous" leaves the hits as they are and the cursor on one of
    them; when there is no hit the cursor is -1. *)
Theorem cursor_stays_on_a_hit (data : json) (st st' : TreeView.State.t)
    (moves : list TreeView.direction) :
  TreeView.searchEffect data st = Normal st' ->
  let final := fold_left (fun s d => TreeView.navigateSearchResults d s) moves st' in
  TreeView.State.searchResults final = TreeView.State.searchResults st'
  /\ ViewSpec.cursorValid final.
Proof.
  intros H.
  assert (Hvalid : ViewSpec.cursorValid st').
  { unfold TreeView.searchEffect in H. bind_cases H. simplify_eq.
    unfold ViewSpec.cursorValid. simpl.
    destruct a as [|hit hits]; simpl; [by left|right; lia]. }
  clear H. revert st' Hvalid.
  induction moves as [|d moves IH]; intros st' Hvalid; simpl; [done|].
  destruct (IH (TreeView.navigateSearchResults d st') (navigate_valid d st' Hvalid))
    as [Hres Hcur].
  split; [|done]. by rewrite Hres, navigate_results.
Qed.

Lemma cursor_stays_on_a_hit_witness :
  let data := JObject [("a", JNumber 1 0); ("b", JNumber 1 0)] in
  let st := TreeView.setSearchTerm "1" TreeView.State.initial in
  let st' := TreeView.State.mk {[ ""; "a"; "b" ]} "1"
               [Hit.mk "a" (JNumber 1 0) "number"; Hit.mk "b" (JNumber 1 0) "number"] 0 in
  let final := fold_left (fun s d => TreeView.navigateSearchResults d s)
                 [TreeView.next; TreeView.next; TreeView.prev] st' in
  TreeView.State.searchResults final = TreeView.State.searchResults st'
  /\ ViewSpec.cursorValid final.
Proof.
  intros data st st'.
  apply (cursor_stays_on_a_hit data st st' [TreeView.next; TreeView.next; TreeView.prev]).
  vm_compute. reflexivity.
Defined.

(** X15.  While the cursor is on a hit, "next" and "previous" undo
    each other. *)
Theorem next_and_previous_are_inverse (st : TreeView.State.t) :
  0 <= TreeView.State.currentSearchIndex st
       < Z.of_nat (length (TreeView.State.searchResults st)) ->
  TreeView.navigateSearchResults TreeView.prev
    (TreeView.navigateSearchResults TreeView.next st) = st
  /\ TreeView.navigateSearchResults TreeView.next
       (TreeView.navigateSearchResults TreeView.prev st) = st.
Proof.
  destruct st as [expanded term results cursor]. simpl. intros Hin.
  unfold TreeView.navigateSearchResults. simpl.
  destruct (Z.eqb_spec (Z.of_nat (length results)) 0) as [|Hlen]; [lia|].
  simpl. rewrite (proj2 (Z.eqb_neq _ _) Hlen). simpl.
  split; f_equal.
  - destruct (Z.ltb_spec cursor (Z.of_nat (length results) - 1)).
    + destruct (Z.gtb_spec (cursor + 1) 0); lia.
    + destruct (Z.gtb_spec 0 0); lia.
  - destruct (Z.gtb_spec cursor 0).
    + destruct (Z.ltb_spec (cursor - 1) (Z.of_nat (length results) - 1)); lia.
    + destruct (Z.ltb_spec (Z.of_nat (length results) - 1)
                  (Z.of_nat (length results) - 1)); lia.
Qed.

Lemma next_and_previous_are_inverse_witness :
  let st := TreeView.State.mk {[ "" ]} "x" Samples.threeHits 2 in
  TreeView.navigateSearchResults TreeView.prev
    (TreeView.navigateSearchResults TreeView.next st) = st
  /\ TreeView.navigateSearchResults TreeView.next
       (TreeView.navigateSearchResults TreeView.prev st) = st.
Proof.
  intros st. apply (next_and_previous_are_inverse st). simpl. lia.
Defined.

(** X16.  The row that is highlighted as the current result is one of
    the rows highlighted as results. *)
Theorem current_result_is_a_result (st : TreeView.State.t) (path : string) :
  TreeView.isCurrentSearchResult st path = true ->
  TreeView.isSearchResult st path = true.
Proof.
  unfold TreeView.isCurrentSearchResult, TreeView.isSearchResult, TreeView.resultAt.
  intros H. apply andb_prop in H as [_ H].
  destruct (_ <? _); [done|].
  destruct (_ !! _) as [result|] eqn:E; [|done].
  apply existsb_exists. exists result. split; [|done].
  apply list_elem_of_In. by eapply list_elem_of_lookup_2.
Qed.

Lemma current_result_is_a_result_witness :
  TreeView.isSearchResult (TreeView.State.mk {[ "" ]} "x" Samples.threeHits 1) "b" = true.
Proof.
  apply (current_result_is_a_result
           (TreeView.State.mk {[ "" ]} "x" Samples.threeHits 1) "b").
  reflexivity.
Defined.

(** *** The paths expanded for a result *)

Lemma includes_char (s : string) (c : ascii) :
  JS.includes s (String c "") = existsb (Ascii.eqb c) (list_ascii_of_string s).
Proof.
  induction s as [|d s IH]; simpl; [done|]. rewrite IH. f_equal.
  destruct (ascii_dec c d) as [->|Hne].
  - rewrite Ascii.eqb_refl. by destruct s.
  - symmetry. by apply Ascii.eqb_neq.
Qed.

Lemma extend_truthy cur s :
  JS.truthy cur = true -> JS.truthy (Path.extend cur s) = true.
Proof.
  intros H. destruct s; simpl; unfold keyPath, indexPath; rewrite H;
    by destruct cur.
Qed.

Lemma render_truthy k rest :
  JS.truthy k = true -> JS.truthy (Path.render (Path.Key k :: rest)) = true.
Proof.
  intros Hk. induction rest as [|s rest IH] using rev_ind.
  - unfold Path.render. simpl. unfold keyPath. simpl. done.
  - rewrite app_comm_cons, render_snoc. by apply extend_truthy.
Qed.

Lemma plainKey_no_char key c :
  Path.plainKey key = true -> JS.isPathDelimiter c = true ->
  existsb (Ascii.eqb c) (list_ascii_of_string key) = false.
Proof.
  intros Hk Hc. apply andb_prop in Hk as [_ Hk].
  induction (list_ascii_of_string key) as [|d l IH]; simpl in *; [done|].
  apply andb_prop in Hk as [Hd Hl]. rewrite (IH Hl), orb_false_r.
  apply Ascii.eqb_neq. intros <-. unfold Path.plainChar in Hd. by rewrite Hc in Hd.
Qed.

(** A path of plain keys has no bracket. *)
Lemma keys_no_bracket segments c :
  forallb Path.plainSegment segments = true ->
  forallb Path.isKey segments = true ->
  c = "["%char \/ c = "]"%char ->
  JS.includes (Path.render segments) (String c "") = false.
Proof.
  intros Hplain Hkeys Hc. rewrite includes_char.
  assert (Hdelim : JS.isPathDelimiter c = true) by (by destruct Hc as [->| ->]).
  assert (Hdot : (c =? ".")%char = false) by (by destruct Hc as [->| ->]).
  induction segments as [|s segments IH] using rev_ind; [done|].
  rewrite forallb_app in Hplain, Hkeys. simpl in Hplain, Hkeys.
  apply andb_prop in Hplain as [Hp Hs]. apply andb_prop in Hkeys as [Hk Hs'].
  rewrite andb_true_r in Hs, Hs'. specialize (IH Hp Hk).
  rewrite render_snoc. destruct s as [key|]; [|done]. simpl in *.
  unfold keyPath. destruct (JS.truthy _).
  - rewrite !chars_append, !existsb_app, IH. simpl. rewrite Hdot. simpl.
    by apply plainKey_no_char.
  - by apply plainKey_no_char.
Qed.

(** A path that ends with an index has both brackets. *)
Lemma index_has_brackets segments index :
  JS.includes (Path.render (segments ++ [Path.Index index])) "[" = true
  /\ JS.includes (Path.render (segments ++ [Path.Index index])) "]" = true.
Proof.
  rewrite render_snoc, !includes_char. simpl. unfold indexPath.
  destruct (JS.truthy _); rewrite !chars_append, !existsb_app; simpl;
    rewrite ?existsb_app; simpl; split; by rewrite ?orb_true_r.
Qed.

Lemma expansion_steps (bracketed : bool) : forall rest pre,
  pre <> [] ->
  JS.truthy (Path.render pre) = true ->
  forallb (if bracketed then Path.isIndex else Path.isKey) rest = true ->
  (fix go (parts : list string) (index : nat) (currentPath : string)
     : list string :=
     match parts with
     | [] => []
     | part :: parts' =>
         let currentPath :=
           if (index =? 0)%nat then part
           else if bracketed then currentPath +:+ "[" +:+ part +:+ "]"
           else currentPath +:+ "." +:+ part in
         currentPath :: go parts' (S index) currentPath
     end) (map Path.text rest) (length pre) (Path.render pre)
  = map (fun n => Path.render (pre ++ take n rest)) (seq 1 (length rest)).
Proof.
  induction rest as [|s rest IH]; intros pre Hpre Htruthy Hkind; [done|].
  simpl in Hkind. apply andb_prop in Hkind as [Hs Hrest].
  cbn [map length seq].
  destruct (length pre) as [|n] eqn:Hlen; [by destruct pre|].
  cbn [Nat.eqb]. cbv zeta.
  assert (Hstep : (if bracketed
                   then Path.render pre +:+ "[" +:+ Path.text s +:+ "]"
                   else Path.render pre +:+ "." +:+ Path.text s)
                  = Path.render (pre ++ [s])).
  { rewrite render_snoc.
    destruct bracketed, s; simpl in *; try done;
      unfold keyPath, indexPath; by rewrite Htruthy. }
  rewrite Hstep. f_equal.
  specialize (IH (pre ++ [s])).
  rewrite length_app, Hlen in IH. simpl in IH. rewrite Nat.add_1_r in IH.
  rewrite IH; [| |by rewrite render_snoc; apply extend_truthy|done].
  2: { by destruct pre. }
  rewrite <- (seq_shift (length rest) 1), map_map. apply map_ext. intros k.
  by rewrite <- app_assoc.
Qed.

(** X17.  For a result whose path starts with a key and goes on with
    keys only, or with indices only, every key being not empty and
    without any of [.], [[], []], the search effect expands the path
    itself and each of its ancestors below the root.  For an empty key
    the path has two delimiters in a row and the effect expands other
    paths ([expansion_with_empty_key] below). *)
Theorem expansion_of_uniform_path (segments : list Path.segment) :
  forallb Path.plainSegment segments = true ->
  Path.uniform segments = true ->
  TreeView.expansionOf (Path.render segments)
  = map Path.render (Path.prefixes segments).
Proof.
  intros Hplain Huniform.
  destruct segments as [|[k|] rest]; try done. simpl in Huniform.
  unfold TreeView.expansionOf. rewrite pathParts_render by done.
  set (bracketed := _ && _).
  assert (Hk : JS.truthy k = true).
  { simpl in Hplain. apply andb_prop in Hplain as [Hp _].
    by apply andb_prop in Hp as [Hp _]. }
  assert (Hkind : forallb (if bracketed then Path.isIndex else Path.isKey) rest = true).
  { unfold bracketed. destruct (forallb Path.isKey rest) eqn:Hkeys.
    - rewrite (keys_no_bracket (Path.Key k :: rest) "[") by (done || by left). done.
    - simpl in Huniform.
      destruct rest as [|s rest _] using rev_ind; [done|].
      destruct s as [|index].
      { rewrite forallb_app in Huniform. simpl in Huniform.
        by rewrite andb_false_r in Huniform. }
      rewrite app_comm_cons.
      destruct (index_has_brackets (Path.Key k :: rest) index) as [-> ->]. done. }
  unfold Path.prefixes. rewrite map_map.
  cbn [map length seq Path.text]. cbn [Nat.eqb]. cbv zeta.
  f_equal.
  pose proof (expansion_steps bracketed rest [Path.Key k]) as Hsteps.
  simpl length in Hsteps. cbv zeta in Hsteps.
  change (Path.render [Path.Key k]) with k in Hsteps.
  rewrite Hsteps; [| done | done | done].
  by rewrite <- (seq_shift (length rest) 1), map_map.
Qed.

Lemma expansion_of_uniform_path_witness :
  TreeView.expansionOf (Path.render [Path.Key "a"; Path.Key "b"; Path.Key "c"])
  = map Path.render (Path.prefixes [Path.Key "a"; Path.Key "b"; Path.Key "c"]).
Proof.
  apply (expansion_of_uniform_path [Path.Key "a"; Path.Key "b"; Path.Key "c"]);
    reflexivity.
Defined.

(** With an empty key in the middle, [a..c], the effect expands [a] and
    [a.c], while the ancestors are [a] and [a.]. *)
Lemma expansion_with_empty_key :
  let segments := [Path.Key "a"; Path.Key ""; Path.Key "c"] in
  Path.render segments = "a..c"
  /\ TreeView.expansionOf (Path.render segments) = ["a"; "a.c"]
  /\ map Path.render (Path.prefixes segments) = ["a"; "a."; "a..c"].
Proof. repeat split; vm_compute; reflexivity. Qed.

(** ** The files of the page *)

Lemma filterOut_delete {A} (index : Z) (l : list A) : forall i,
  i <= index ->
  HomePage.filterOut index i l = delete (Z.to_nat (index - i)) l.
Proof.
  induction l as [|x l IH]; intros i Hi; simpl; [done|].
  destruct (Z.eqb_spec i index) as [->|Hne].
  - rewrite Z.sub_diag. simpl.
    clear IH Hi. assert (Hskip : forall (l : list A) i, index < i ->
      HomePage.filterOut index i l = l).
    { clear. induction l as [|y l IH]; intros i Hi; simpl; [done|].
      destruct (Z.eqb_spec i index); [lia|]. f_equal. apply IH. lia. }
    apply Hskip. lia.
  - replace (Z.to_nat (index - i)) with (S (Z.to_nat (index - (i + 1)))) by lia.
    simpl. f_equal. apply IH. lia.
Qed.

(** X18.  [handleRemoveFile] removes the file at the index.  Removing a
    file that comes after the active one leaves the active file as it
    is; removing the active file makes the file that followed it the
    active one, or the file before it when it was the last; removing a
    file that comes before the active one leaves the index as it is, so
    that the file after the active one becomes active, and no file is
    active when the active one was the last. *)
Theorem active_file_after_removal (index : Z) (st : HomePage.State.t) :
  let files := HomePage.State.files st in
  let active := HomePage.State.activeFileIndex st in
  0 <= index < HomePage.filesLength st ->
  0 <= active < HomePage.filesLength st ->
  let st' := HomePage.handleRemoveFile index st in
  HomePage.State.files st' = delete (Z.to_nat index) files
  /\ HomePage.filesLength st' = HomePage.filesLength st - 1
  /\ HomePage.activeFile st'
     = if active <? index then HomePage.fileAt files active
       else if index <? active then HomePage.fileAt files (active + 1)
       else if active + 1 <? HomePage.filesLength st
            then HomePage.fileAt files (active + 1)
            else HomePage.fileAt files (active - 1).
Proof.
  destruct st as [files active mode].
  unfold HomePage.filesLength, HomePage.activeFile, HomePage.handleRemoveFile.
  simpl. intros Hindex Hactive.
  rewrite (filterOut_delete index files 0) by lia. rewrite Z.sub_0_r.
  assert (Hlen : Z.of_nat (length (delete (Z.to_nat index) files))
                 = Z.of_nat (length files) - 1).
  { rewrite length_delete; [lia|]. apply lookup_lt_is_Some. lia. }
  split; [done|]. split; [done|]. rewrite Hlen.
  unfold HomePage.fileAt.
  destruct (Z.ltb_spec active index) as [Hafter|Hnot].
  - (* a later file is removed *)
    rewrite (proj2 (Z.eqb_neq index active)) by lia. simpl.
    rewrite (proj2 (Z.eqb_neq _ 0)) by lia.
    rewrite (proj2 (Z.ltb_ge active 0)) by lia.
    apply list_lookup_delete_lt. lia.
  - destruct (Z.ltb_spec index active) as [Hbefore|Hsame].
    + (* an earlier file is removed *)
      rewrite (proj2 (Z.eqb_neq index active)) by lia. simpl.
      rewrite (proj2 (Z.eqb_neq _ 0)) by lia.
      rewrite (proj2 (Z.ltb_ge active 0)), (proj2 (Z.ltb_ge (active + 1) 0)) by lia.
      rewrite list_lookup_delete_ge by lia. f_equal. lia.
    + (* the active file is removed *)
      assert (index = active) as -> by lia. rewrite Z.eqb_refl. simpl.
      destruct (Z.ltb_spec (active + 1) (Z.of_nat (length files))) as [Hnext|Hlast].
      * rewrite (proj2 (Z.gtb_gt _ 0)) by lia.
        rewrite Z.min_l by lia.
        rewrite (proj2 (Z.ltb_ge active 0)), (proj2 (Z.ltb_ge (active + 1) 0)) by lia.
        rewrite list_lookup_delete_ge by lia. f_equal. lia.
      * destruct (Z.gtb_spec (Z.of_nat (length files) - 1) 0) as [Hmore|Hnone].
        -- rewrite Z.min_r by lia.
           rewrite (proj2 (Z.ltb_ge (Z.of_nat (length files) - 1 - 1) 0)) by lia.
           rewrite (proj2 (Z.ltb_ge (active - 1) 0)) by lia.
           rewrite list_lookup_delete_lt by lia. f_equal. lia.
        -- rewrite (proj2 (Z.eqb_eq _ 0)) by lia. simpl.
           assert (active = 0) as -> by lia. simpl.
           destruct files as [|f [|g files]]; simpl in *; [lia|done|lia].
Qed.

Lemma active_file_after_removal_witness :
  let f1 := Samples.upload "a.json" "1" in
  let f2 := Samples.upload "b.json" "2" in
  let f3 := Samples.upload "c.json" "3" in
  let st := HomePage.State.mk [f1; f2; f3] 2 HomePage.tree in
  let st' := HomePage.handleRemoveFile 0 st in
  HomePage.State.files st' = [f2; f3]
  /\ HomePage.filesLength st' = 2
  /\ HomePage.activeFile st' = None.
Proof.
  intros f1 f2 f3 st.
  apply (active_file_after_removal 0 st); unfold HomePage.filesLength; simpl; lia.
Defined.

(** X19.  While the active index is within the files, the shortcuts
    for the previous and the next file undo each other, and each of them
    leaves the index within the files. *)
Theorem previous_and_next_file (st : HomePage.State.t) :
  0 <= HomePage.State.activeFileIndex st < HomePage.filesLength st ->
  HomePage.previousFile (HomePage.nextFile st) = st
  /\ HomePage.nextFile (HomePage.previousFile st) = st
  /\ 0 <= HomePage.State.activeFileIndex (HomePage.nextFile st) < HomePage.filesLength st
  /\ 0 <= HomePage.State.activeFileIndex (HomePage.previousFile st) < HomePage.filesLength st.
Proof.
  destruct st as [files active mode].
  unfold HomePage.previousFile, HomePage.nextFile, HomePage.filesLength. simpl.
  set (len := Z.of_nat (length files)). intros Hin.
  rewrite (proj2 (Z.gtb_gt len 0)) by lia. simpl.
  fold len. rewrite (proj2 (Z.gtb_gt len 0)) by lia.
  destruct (Z.ltb_spec active (len - 1)), (Z.gtb_spec active 0); simpl;
    repeat split; try lia; f_equal;
    repeat match goal with
           | |- context [?a >? ?b] => destruct (Z.gtb_spec a b)
           | |- context [?a <? ?b] => destruct (Z.ltb_spec a b)
           end; lia.
Qed.

Lemma previous_and_next_file_witness :
  let st := HomePage.State.mk
              [Samples.upload "a.json" "1"; Samples.upload "b.json" "2"] 1
              HomePage.tree in
  HomePage.previousFile (HomePage.nextFile st) = st
  /\ HomePage.nextFile (HomePage.previousFile st) = st
  /\ 0 <= HomePage.State.activeFileIndex (HomePage.nextFile st) < HomePage.filesLength st
  /\ 0 <= HomePage.State.activeFileIndex (HomePage.previousFile st) < HomePage.filesLength st.
Proof.
  intros st. apply (previous_and_next_file st). unfold HomePage.filesLength. simpl. lia.
Defined.

(** The analysis stays within budgets that are not negative: the depth
    within the depth budget rounded down, the node count within the node
    budget rounded up. *)
Lemma analyze_bounds h (maxDepth maxNodes : JS.number) data a :
  0 <= JS.floor maxDepth -> 0 <= JS.ceil maxNodes ->
  analyzeJsonStructure h maxDepth maxNodes data = Normal a ->
  Analysis.nodeCount a <= JS.ceil maxNodes /\ Analysis.depth a <= JS.floor maxDepth.
Proof.
  intros HD HN. rewrite analyze_rounded.
  unfold analyzeJsonStructure. intros H. bind_cases H.
  unfold mret, completion_ret in H. simplify_eq. simpl.
  eapply traverse_bounds; [| |exact E]; simpl; lia.
Qed.

Lemma parse_metadata_bounds text options r :
  0 <= JS.floor (default (JS.Whole 100) (Options.maxDepth options)) ->
  0 <= JS.ceil (default (JS.Whole 10000) (Options.maxNodes options)) ->
  parseJsonString text options = Normal r ->
  Metadata.nodeCount (ParseResult.metadata r)
    <= JS.ceil (default (JS.Whole 10000) (Options.maxNodes options))
  /\ Metadata.depth (ParseResult.metadata r)
    <= JS.floor (default (JS.Whole 100) (Options.maxDepth options)).
Proof.
  intros HD HN. unfold parseJsonString.
  set (D := default (JS.Whole 100) (Options.maxDepth options)) in *.
  set (N := default (JS.Whole 10000) (Options.maxNodes options)) in *.
  destruct (isValidJsonSyntax text); simpl; [|intros; simplify_eq; simpl; lia].
  destruct (JSON.parse text) as [parsed|msg|]; [|intros; simplify_eq; simpl; lia|done].
  destruct (analyzeJsonStructure _ _ _ _) as [a|msg|] eqn:E;
    [|intros; simplify_eq; simpl; lia|done].
  apply analyze_bounds in E as [Hn Hd]; [|lia..].
  intros H. simplify_eq.
  destruct (JS.gt _ D), (JS.gt _ N), (default false (Options.strict options));
    simpl; lia.
Qed.

(** X20.  [handleFileSelect] appends one processed file for each file
    selected, in order and with name and content unchanged.  A processed
    file carries the result of [parseJsonString] under the node budget
    of the free tier: the node count of its metadata is at most 50, its
    depth at most 100, and its list of warnings is empty. *)
Theorem selected_files_are_processed (newFiles : list HomePage.FileData.t)
    (st : HomePage.State.t) :
  exists processed,
    HomePage.handleFileSelect newFiles st
    = Normal (HomePage.State.mk
                (HomePage.State.files st ++ processed)
                (if HomePage.filesLength st =? 0 then 0
                 else HomePage.State.activeFileIndex st)
                (HomePage.State.viewMode st))
    /\ Forall2 (fun file p =>
         HomePage.FileData.name p = HomePage.FileData.name file
         /\ HomePage.FileData.content p = HomePage.FileData.content file
         /\ HomePage.FileData.warnings p = Some []
         /\ exists metadata,
              HomePage.FileData.metadata p = Some metadata
              /\ Metadata.nodeCount metadata <= 50
              /\ Metadata.depth metadata <= 100)
       newFiles processed.
Proof.
  unfold HomePage.handleFileSelect.
  assert (Hall : exists processed,
    HomePage.processFiles newFiles = Normal processed
    /\ Forall2 (fun file p =>
         HomePage.FileData.name p = HomePage.FileData.name file
         /\ HomePage.FileData.content p = HomePage.FileData.content file
         /\ HomePage.FileData.warnings p = Some []
         /\ exists metadata,
              HomePage.FileData.metadata p = Some metadata
              /\ Metadata.nodeCount metadata <= 50
              /\ Metadata.depth metadata <= 100)
       newFiles processed).
  { induction newFiles as [|file rest (others & E & Hothers)]; simpl.
    - exists []. split; [done|]. constructor.
    - unfold HomePage.processFile.
      set (options := Options.mk None (Some HomePage.freeViewLimit) (Some false)).
      destruct (parseJsonString_returns (HomePage.FileData.content file) options)
        as [r Hr].
      rewrite Hr. simpl. rewrite E. simpl. eexists. split; [done|].
      constructor; [|done]. simpl.
      split; [done|]. split; [done|].
      split.
      { f_equal.
        apply (parse_never_warns (HomePage.FileData.content file) options r);
          [done..|exact Hr]. }
      eexists. split; [done|].
      apply (parse_metadata_bounds (HomePage.FileData.content file) options r);
        [done..|exact Hr]. }
  destruct Hall as (processed & E & Hall).
  exists processed. rewrite E. simpl. done.
Qed.

(** X21.  What the page shows for a file selected into the empty page.
    A text that [JSON.parse] rejects is shown as a failure.  A text that
    parses to a value none of whose objects has an own key
    "hasOwnProperty" is shown in the tree view with the node budget of
    the free tier when the value is truthy; when the value is [null],
    [false], zero or the empty string, the page shows the "processing"
    spinner instead. *)
Theorem panel_of_selected_file (file : HomePage.FileData.t) :
  exists st,
    HomePage.handleFileSelect [file] HomePage.State.initial = Normal st
    /\ match JSON.parse (HomePage.FileData.content file) with
       | Normal value =>
           if plainKeys value then
             HomePage.mainPanel st
             = if HomePage.isTruthy value
               then HomePage.TreePanel value HomePage.freeViewLimit
               else HomePage.Processing
           else True
       | _ => exists errors, HomePage.mainPanel st = HomePage.FailedToParse errors
       end.
Proof.
  unfold HomePage.handleFileSelect. simpl. unfold HomePage.processFile.
  set (options := Options.mk None (Some HomePage.freeViewLimit) (Some false)).
  pose proof (JSON_parse_returns (HomePage.FileData.content file)) as Hret.
  destruct (JSON.parse (HomePage.FileData.content file)) as [value|msg|] eqn:Hparse;
    [| |done].
  - destruct (plainKeys value) eqn:Hplain.
    + destruct (valid_text_parses _ options value Hparse Hplain)
        as (r & Hr & Hdata & Herrors & _).
      { left. split; [vm_compute; discriminate|reflexivity]. }
      rewrite Hr. simpl. eexists. split; [done|].
      unfold HomePage.mainPanel, HomePage.activeFile, HomePage.fileAt. simpl.
      rewrite Herrors, Hdata. done.
    + destruct (parseJsonString_returns (HomePage.FileData.content file) options)
        as [r Hr].
      rewrite Hr. simpl. by eexists.
  - destruct (parse_invalid_text _ options msg Hparse) as (r & Hr & _ & Herrors & _).
    rewrite Hr. simpl. eexists. split; [done|].
    unfold HomePage.mainPanel, HomePage.activeFile, HomePage.fileAt. simpl.
    destruct (ParseResult.errors r) as [|e errors]; [done|]. by eexists.
Qed.

(** ** The tokens of the syntax highlighter *)

Lemma takeWhile_split test : forall code text rest,
  SyntaxHighlighter.takeWhile test code = (text, rest) -> code = text ++ rest.
Proof.
  induction code as [|c code IH]; simpl; intros text rest H; [by simplify_eq|].
  destruct (test c).
  - destruct (SyntaxHighlighter.takeWhile test code) as [text' rest'].
    simplify_eq. simpl. f_equal. by apply IH.
  - by simplify_eq.
Qed.

Lemma scanString_split : forall code escaped text rest,
  SyntaxHighlighter.scanString code escaped = (text, rest) -> code = text ++ rest.
Proof.
  induction code as [|c code IH]; simpl; intros escaped text rest H; [by simplify_eq|].
  destruct escaped.
  - destruct (SyntaxHighlighter.scanString code false) as [text' rest'] eqn:E.
    simplify_eq. simpl. f_equal. by eapply IH.
  - destruct (c =? JSON.backslash)%char.
    + destruct (SyntaxHighlighter.scanString code true) as [text' rest'] eqn:E.
      simplify_eq. simpl. f_equal. by eapply IH.
    + destruct (c =? JSON.quote)%char; [by simplify_eq|].
      destruct (SyntaxHighlighter.scanString code false) as [text' rest'] eqn:E.
      simplify_eq. simpl. f_equal. by eapply IH.
Qed.

Lemma scanNumber_split code text rest :
  SyntaxHighlighter.scanNumber code = (text, rest) -> code = text ++ rest.
Proof.
  unfold SyntaxHighlighter.scanNumber.
  destruct (match code with
            | [] => ([], [])
            | c :: r => if (c =? "-")%char then ([c], r) else ([], code)
            end) as [sign r0] eqn:E0.
  assert (H0 : code = sign ++ r0).
  { destruct code as [|c r]; [by simplify_eq|].
    destruct (c =? "-")%char; by simplify_eq. }
  destruct (SyntaxHighlighter.takeWhile JSON.isDigit r0) as [integer r1] eqn:E1.
  apply takeWhile_split in E1.
  destruct (match r1 with
            | [] => ([], [])
            | c :: r =>
                if (c =? ".")%char
                then let (digits, r') := SyntaxHighlighter.takeWhile JSON.isDigit r in
                     (c :: digits, r')
                else ([], r1)
            end) as [decimal r2] eqn:E2.
  assert (H2 : r1 = decimal ++ r2).
  { destruct r1 as [|c r]; [by simplify_eq|].
    destruct (c =? ".")%char; [|by simplify_eq].
    destruct (SyntaxHighlighter.takeWhile JSON.isDigit r) as [digits r'] eqn:E.
    apply takeWhile_split in E. by simplify_eq. }
  destruct (match r2 with
            | [] => ([], [])
            | c :: r =>
                if (c =? "e")%char || (c =? "E")%char
                then
                  let (sign', r') :=
                    match r with
                    | [] => ([], [])
                    | s :: r'' =>
                        if (s =? "+")%char || (s =? "-")%char
                        then ([s], r'') else ([], r)
                    end in
                  let (digits, r'') := SyntaxHighlighter.takeWhile JSON.isDigit r' in
                  (c :: sign' ++ digits, r'')
                else ([], r2)
            end) as [exponent r3] eqn:E3.
  assert (H3 : r2 = exponent ++ r3).
  { destruct r2 as [|c r]; [by simplify_eq|].
    destruct ((c =? "e")%char || (c =? "E")%char); [|by simplify_eq].
    destruct (match r with
              | [] => ([], [])
              | s :: r'' =>
                  if (s =? "+")%char || (s =? "-")%char then ([s], r'') else ([], r)
              end) as [sign' r'] eqn:Es.
    assert (Hs : r = sign' ++ r').
    { destruct r as [|s r'']; [by simplify_eq|].
      destruct ((s =? "+")%char || (s =? "-")%char); by simplify_eq. }
    destruct (SyntaxHighlighter.takeWhile JSON.isDigit r') as [digits r''] eqn:E.
    apply takeWhile_split in E. simplify_eq. simpl. by rewrite <- app_assoc. }
  intros H. simplify_eq. by rewrite <- !app_assoc.
Qed.

(** Every round of the tokenizer takes a text that is not empty from
    the front of the code. *)
Lemma nextToken_splits code type text code' :
  SyntaxHighlighter.nextToken code = Some (type, text, code') ->
  code = text ++ code' /\ text <> [].
Proof.
  destruct code as [|char rest]; [done|]. unfold SyntaxHighlighter.nextToken.
  destruct (JS.isWhiteSpace char) eqn:Hws.
  { cbn [SyntaxHighlighter.takeWhile]. rewrite Hws.
    destruct (SyntaxHighlighter.takeWhile JS.isWhiteSpace rest) as [text' rest'] eqn:E.
    apply takeWhile_split in E. intros H. simplify_eq. done. }
  destruct (char =? JSON.quote)%char.
  { destruct (SyntaxHighlighter.scanString rest false) as [text' rest'] eqn:E.
    apply scanString_split in E. intros H. simplify_eq. done. }
  destruct (JSON.isDigit char || (char =? "-")%char) eqn:Hnum.
  { destruct (SyntaxHighlighter.scanNumber (char :: rest)) as [text' rest'] eqn:E.
    intros H. simplify_eq. split; [by apply scanNumber_split|].
    intros ->. unfold SyntaxHighlighter.scanNumber in E.
    destruct (Ascii.eqb_spec char "-") as [->|Hne].
    - destruct (SyntaxHighlighter.takeWhile JSON.isDigit rest) as [a b].
      repeat (match type of E with
              | context [let (_, _) := ?m in _] => destruct m
              end). simplify_eq.
    - rewrite orb_false_r in Hnum. cbn [SyntaxHighlighter.takeWhile] in E.
      rewrite Hnum in E.
      destruct (SyntaxHighlighter.takeWhile JSON.isDigit rest) as [a b].
      repeat (match type of E with
              | context [let (_, _) := ?m in _] => destruct m
              end). simplify_eq. }
  destruct (if (char =? "t")%char then SyntaxHighlighter.startsWith "true" (char :: rest)
            else None) as [c1|] eqn:E1.
  { intros H. destruct (char =? "t")%char; [|done]. simplify_eq.
    apply stripPrefix_consumes in E1. done. }
  destruct (if (char =? "f")%char then SyntaxHighlighter.startsWith "false" (char :: rest)
            else None) as [c2|] eqn:E2.
  { intros H. destruct (char =? "f")%char; [|done]. simplify_eq.
    apply stripPrefix_consumes in E2. done. }
  destruct (if (char =? "n")%char then SyntaxHighlighter.startsWith "null" (char :: rest)
            else None) as [c3|] eqn:E3.
  { intros H. destruct (char =? "n")%char; [|done]. simplify_eq.
    apply stripPrefix_consumes in E3. done. }
  destruct (SyntaxHighlighter.isPunctuation char); intros H; by simplify_eq.
Qed.

Lemma shownText_app (a b : list SyntaxHighlighter.Token.t) :
  SyntaxHighlighter.shownText (a ++ b)
  = SyntaxHighlighter.shownText a +:+ SyntaxHighlighter.shownText b.
Proof.
  induction a as [|t a IH]; simpl; [done|].
  rewrite IH. generalize (SyntaxHighlighter.Token.value t).
  intros v. induction v as [|c v IHv]; [done|].
  change (String c v +:+ SyntaxHighlighter.shownText a +:+ SyntaxHighlighter.shownText b)
    with (String c (v +:+ SyntaxHighlighter.shownText a +:+ SyntaxHighlighter.shownText b)).
  by rewrite IHv.
Qed.

Lemma append_chars (a b : string) :
  a +:+ b = string_of_list_ascii (list_ascii_of_string a ++ list_ascii_of_string b).
Proof. by rewrite <- chars_append, string_of_list_ascii_of_string. Qed.

Lemma lineAfter_snoc before c :
  CodeSpec.lineAfter (before ++ [c])
  = if (c =? SyntaxHighlighter.newline)%char then CodeSpec.lineAfter before + 1
    else CodeSpec.lineAfter before.
Proof.
  unfold CodeSpec.lineAfter. rewrite List.filter_app, length_app.
  cbn [List.filter]. rewrite (Ascii.eqb_sym SyntaxHighlighter.newline c).
  destruct (c =? SyntaxHighlighter.newline)%char; cbn [length]; lia.
Qed.

Lemma columnAfter_snoc before c :
  CodeSpec.columnAfter (before ++ [c])
  = if (c =? SyntaxHighlighter.newline)%char then 1
    else CodeSpec.columnAfter before + 1.
Proof.
  unfold CodeSpec.columnAfter. rewrite rev_unit. cbn [SyntaxHighlighter.takeWhile].
  destruct (c =? SyntaxHighlighter.newline)%char; cbn [negb]; [done|].
  destruct (SyntaxHighlighter.takeWhile _ (rev before)) as [a b]. cbn [fst length]. lia.
Qed.

(** Moving over a text leads to the position after it. *)
Lemma position_moves text : forall before,
  fold_left
    (fun (position : Z * Z) (char : ascii) =>
       if (char =? SyntaxHighlighter.newline)%char then (position.1 + 1, 1)
       else (position.1, position.2 + 1))
    text (CodeSpec.lineAfter before, CodeSpec.columnAfter before)
  = (CodeSpec.lineAfter (before ++ text), CodeSpec.columnAfter (before ++ text)).
Proof.
  induction text as [|c text IH]; intros before; simpl; [by rewrite app_nil_r|].
  replace (before ++ c :: text) with ((before ++ [c]) ++ text)
    by (by rewrite <- app_assoc).
  rewrite <- IH. f_equal.
  rewrite lineAfter_snoc, columnAfter_snoc.
  by destruct (c =? SyntaxHighlighter.newline)%char.
Qed.


Lemma addToken_lexed type text before st :
  text <> [] ->
  CodeSpec.lexed before st ->
  CodeSpec.lexed (before ++ text) (SyntaxHighlighter.addToken type text st).
Proof.
  intros Htext (Hspell & Hline & Hcolumn & Htokens).
  unfold CodeSpec.lexed, SyntaxHighlighter.addToken.
  rewrite Hline, Hcolumn, position_moves.
  cbn [SyntaxHighlighter.Lexer.tokens SyntaxHighlighter.Lexer.line
       SyntaxHighlighter.Lexer.column fst snd].
  split.
  { rewrite shownText_app, chars_append, Hspell. simpl.
    rewrite chars_append, list_ascii_of_string_of_list_ascii. simpl.
    by rewrite app_nil_r. }
  split; [done|]. split; [done|].
  intros i token Hi.
  destruct (Nat.lt_ge_cases i (length (SyntaxHighlighter.Lexer.tokens st))) as [Hlt|Hge].
  - rewrite lookup_app_l in Hi by done.
    rewrite take_app_le by lia. by apply Htokens.
  - rewrite lookup_app_r in Hi by done.
    destruct (i - length (SyntaxHighlighter.Lexer.tokens st))%nat as [|k] eqn:Hk;
      [|by destruct k].
    simpl in Hi. injection Hi as <-. simpl.
    assert (i = length (SyntaxHighlighter.Lexer.tokens st)) as -> by lia.
    rewrite take_app_length, Hspell. split; [|done].
    by destruct text.
Qed.

Lemma initial_lexed : CodeSpec.lexed [] SyntaxHighlighter.Lexer.initial.
Proof. unfold CodeSpec.lexed. simpl. repeat split; done. Qed.

Lemma nextToken_none code : SyntaxHighlighter.nextToken code = None -> code = [].
Proof.
  destruct code as [|char rest]; [done|]. unfold SyntaxHighlighter.nextToken.
  destruct (JS.isWhiteSpace char).
  { by destruct (SyntaxHighlighter.takeWhile _ _). }
  destruct (char =? JSON.quote)%char.
  { by destruct (SyntaxHighlighter.scanString _ _). }
  destruct (_ || _).
  { by destruct (SyntaxHighlighter.scanNumber _). }
  repeat match goal with
         | |- context [match ?m with Some _ => _ | None => _ end] => destruct m
         end; try done.
  by destruct (SyntaxHighlighter.isPunctuation char).
Qed.

(** The loop ends within as many rounds as the code has characters. *)
Lemma tokenize_lexed : forall fuel code st before,
  (length code <= fuel)%nat ->
  CodeSpec.lexed before st ->
  exists st',
    SyntaxHighlighter.tokenize fuel code st = Normal st'
    /\ CodeSpec.lexed (before ++ code) st'.
Proof.
  induction fuel as [|fuel IH]; intros code st before Hfuel Hst.
  - destruct code; [|simpl in Hfuel; lia]. exists st. by rewrite app_nil_r.
  - cbn [SyntaxHighlighter.tokenize].
    destruct (SyntaxHighlighter.nextToken code) as [[[type text] code']|] eqn:E.
    + apply nextToken_splits in E as [-> Htext].
      destruct (IH code' (SyntaxHighlighter.addToken type text st) (before ++ text))
        as (st' & Hrun & Hst').
      { rewrite length_app in Hfuel. destruct text; [done|]. simpl in Hfuel. lia. }
      { by apply addToken_lexed. }
      exists st'. by rewrite app_assoc.
    + apply nextToken_none in E as ->. exists st. by rewrite app_nil_r.
Qed.

Lemma tokenizeJson_lexed (code : string) :
  exists st,
    SyntaxHighlighter.tokenizeJson code = Normal (SyntaxHighlighter.Lexer.tokens st)
    /\ CodeSpec.lexed (list_ascii_of_string code) st.
Proof.
  destruct (tokenize_lexed (String.length code) (list_ascii_of_string code)
              SyntaxHighlighter.Lexer.initial [])
    as (st & Hrun & Hst).
  { clear. induction code; simpl; lia. }
  { apply initial_lexed. }
  exists st. unfold SyntaxHighlighter.tokenizeJson. rewrite Hrun. done.
Qed.

(** X22.  [tokenizeJson] returns for every code, and its tokens spell
    the code: the values of the tokens, one after the other, are the
    code itself, and no token is empty. *)
Theorem tokens_spell_the_code (code : string) :
  exists tokens,
    SyntaxHighlighter.tokenizeJson code = Normal tokens
    /\ SyntaxHighlighter.shownText tokens = code
    /\ Forall (fun token => SyntaxHighlighter.Token.value token <> "") tokens.
Proof.
  destruct (tokenizeJson_lexed code) as (st & Hrun & Hspell & _ & _ & Htokens).
  exists (SyntaxHighlighter.Lexer.tokens st). split; [done|]. split.
  - apply (f_equal string_of_list_ascii) in Hspell.
    by rewrite !string_of_list_ascii_of_string in Hspell.
  - apply Forall_lookup. intros i token Hi. by apply (Htokens i token Hi).
Qed.

(** X23.  Every token carries the position of its first character:
    its line is one more than the number of newlines before it, and its
    column one more than the number of characters between the last of
    these newlines and the token. *)
Theorem token_positions (code : string) (tokens : list SyntaxHighlighter.Token.t)
    (i : nat) (token : SyntaxHighlighter.Token.t) :
  SyntaxHighlighter.tokenizeJson code = Normal tokens ->
  tokens !! i = Some token ->
  let front := list_ascii_of_string (SyntaxHighlighter.shownText (take i tokens)) in
  SyntaxHighlighter.Token.line token = CodeSpec.lineAfter front
  /\ SyntaxHighlighter.Token.column token = CodeSpec.columnAfter front.
Proof.
  intros Hrun Hi.
  destruct (tokenizeJson_lexed code) as (st & Hrun' & _ & _ & _ & Htokens).
  rewrite Hrun in Hrun'. simplify_eq.
  by destruct (Htokens i token Hi) as (_ & Hline & Hcolumn).
Qed.

Lemma token_positions_witness :
  let code := String "{" (String SyntaxHighlighter.newline " 1}") in
  let tokens :=
    [SyntaxHighlighter.Token.mk SyntaxHighlighter.punctuation "{" 1 1;
     SyntaxHighlighter.Token.mk SyntaxHighlighter.whitespace
       (String SyntaxHighlighter.newline " ") 1 2;
     SyntaxHighlighter.Token.mk SyntaxHighlighter.number "1" 2 2;
     SyntaxHighlighter.Token.mk SyntaxHighlighter.punctuation "}" 2 3] in
  let front := list_ascii_of_string (SyntaxHighlighter.shownText (take 2 tokens)) in
  2 = CodeSpec.lineAfter front /\ 2 = CodeSpec.columnAfter front.
Proof.
  intros code tokens.
  apply (token_positions code tokens 2
           (SyntaxHighlighter.Token.mk SyntaxHighlighter.number "1" 2 2));
    vm_compute; reflexivity.
Defined.

(** *** Valid JSON has no error token *)

Import CodeSpec.

Lemma cleanRun_trans a b c : cleanRun a b -> cleanRun b c -> cleanRun a c.
Proof.
  induction 1 as [|code type text code' code'' Hnext Htype _ IH]; [done|].
  intros Hc. eapply cleanRun_round; [exact Hnext|exact Htype|by apply IH].
Qed.

Lemma takeWhile_app test w x :
  forallb test w = true ->
  match x with c :: _ => test c = false | [] => True end ->
  SyntaxHighlighter.takeWhile test (w ++ x) = (w, x).
Proof.
  intros Hw Hx. induction w as [|c w IH]; simpl.
  - destruct x as [|c x]; [done|]. simpl. by rewrite Hx.
  - simpl in Hw. apply andb_prop in Hw as [-> Hw]. by rewrite IH.
Qed.

(** Whitespace before a character that is not whitespace is one token. *)
Lemma whitespace_run w x :
  forallb JSON.isJsonWhitespace w = true ->
  match x with c :: _ => JS.isWhiteSpace c = false | [] => True end ->
  cleanRun (w ++ x) x.
Proof.
  intros Hw Hx. destruct w as [|c w]; [apply cleanRun_done|].
  apply jsonWhitespace_all in Hw.
  eapply (cleanRun_round _ SyntaxHighlighter.whitespace (c :: w) x);
    [|done|apply cleanRun_done].
  pose proof (takeWhile_app JS.isWhiteSpace (c :: w) x Hw Hx) as Htake.
  simpl in Hw. apply andb_prop in Hw as [Hc _].
  change ((c :: w) ++ x) with (c :: w ++ x) in *.
  unfold SyntaxHighlighter.nextToken. rewrite Hc, Htake. done.
Qed.

Lemma punctuation_round c x :
  c = "{"%char \/ c = "}"%char \/ c = "["%char \/ c = "]"%char
  \/ c = ":"%char \/ c = ","%char ->
  cleanRun (c :: x) x.
Proof.
  intros Hc.
  eapply (cleanRun_round _ SyntaxHighlighter.punctuation [c] x);
    [|done|apply cleanRun_done].
  by destruct Hc as [->|[->|[->|[->|[->| ->]]]]].
Qed.

Lemma literal_round word x :
  word = "true" \/ word = "false" \/ word = "null" ->
  cleanRun (list_ascii_of_string word ++ x) x.
Proof.
  intros [->|[->| ->]].
  - by eapply (cleanRun_round _ SyntaxHighlighter.boolean (list_ascii_of_string "true") x);
      [|done|apply cleanRun_done].
  - by eapply (cleanRun_round _ SyntaxHighlighter.boolean (list_ascii_of_string "false") x);
      [|done|apply cleanRun_done].
  - by eapply (cleanRun_round _ SyntaxHighlighter.null (list_ascii_of_string "null") x);
      [|done|apply cleanRun_done].
Qed.

Lemma hex_not_special h a :
  JSON.hexValue h = Some a ->
  (h =? JSON.backslash)%char = false /\ (h =? JSON.quote)%char = false.
Proof.
  intros H. split; apply Ascii.eqb_neq; intros ->; by vm_compute in H.
Qed.

(** The tokenizer finds the closing quote where the parser finds it. *)
Lemma string_scan : forall s acc str r,
  JSON.parseChars s acc = Some (str, r) ->
  exists b, s = b ++ r
    /\ forall x, SyntaxHighlighter.scanString (b ++ x) false = (b, x).
Proof.
  intros s. remember (length s) as n eqn:Hn. revert s Hn.
  induction n as [n IH] using lt_wf_ind. intros s Hn acc str r H.
  destruct s as [|c s]; simpl in H; [done|].
  destruct (Ascii.eqb_spec c JSON.quote) as [->|Hq].
  { simplify_eq. exists [JSON.quote]. split; [done|]. intros x. done. }
  destruct (Ascii.eqb_spec c JSON.backslash) as [->|Hb].
  - destruct s as [|e s]; [done|].
    destruct (Ascii.eqb_spec e "u").
    + destruct s as [|h1 [|h2 [|h3 [|h4 s]]]]; try done.
      destruct (JSON.hexValue h1) eqn:E1, (JSON.hexValue h2) eqn:E2,
        (JSON.hexValue h3) eqn:E3, (JSON.hexValue h4) eqn:E4; try done.
      destruct (_ <? _)%N; [|done].
      apply IH with (m := length s) in H; [|simpl in *; lia|done].
      destruct H as (b & -> & Hscan).
      exists (JSON.backslash :: e :: h1 :: h2 :: h3 :: h4 :: b). split; [done|].
      intros x.
      destruct (hex_not_special _ _ E1) as [B1 Q1], (hex_not_special _ _ E2) as [B2 Q2],
        (hex_not_special _ _ E3) as [B3 Q3], (hex_not_special _ _ E4) as [B4 Q4].
      cbn [SyntaxHighlighter.scanString app].
      rewrite B1, Q1, B2, Q2, B3, Q3, B4, Q4, Hscan. done.
    + destruct (JSON.escapeValue e); [|done].
      apply IH with (m := length s) in H; [|simpl in *; lia|done].
      destruct H as (b & -> & Hscan).
      exists (JSON.backslash :: e :: b). split; [done|].
      intros x. cbn [SyntaxHighlighter.scanString app]. rewrite Hscan. done.
  - destruct (_ <? _)%N; [done|].
    apply IH with (m := length s) in H; [|simpl in *; lia|done].
    destruct H as (b & -> & Hscan).
    exists (c :: b). split; [done|].
    intros x. cbn [SyntaxHighlighter.scanString app].
    rewrite (proj2 (Ascii.eqb_neq _ _) Hb), (proj2 (Ascii.eqb_neq _ _) Hq), Hscan.
    done.
Qed.

Lemma string_round b x :
  (forall y, SyntaxHighlighter.scanString (b ++ y) false = (b, y)) ->
  cleanRun (JSON.quote :: b ++ x) x.
Proof.
  intros Hscan.
  set (isKey := match (SyntaxHighlighter.takeWhile JS.isWhiteSpace x).2 with
                | c :: _ => (c =? ":")%char
                | [] => false
                end).
  eapply (cleanRun_round _ (if isKey then SyntaxHighlighter.key
                            else SyntaxHighlighter.string_) (JSON.quote :: b) x);
    [|by destruct isKey|apply cleanRun_done].
  unfold SyntaxHighlighter.nextToken.
  change (JS.isWhiteSpace JSON.quote) with false. cbv iota.
  rewrite Ascii.eqb_refl, Hscan. done.
Qed.

Lemma takeWhile_digits s : SyntaxHighlighter.takeWhile JSON.isDigit s = JSON.takeDigits s.
Proof. induction s as [|c s IH]; simpl; [done|]. by rewrite IH. Qed.

Lemma digit_chars c :
  JSON.isDigit c = true ->
  (c =? "-")%char = false /\ (c =? "+")%char = false /\ (c =? ".")%char = false
  /\ (c =? "e")%char = false /\ (c =? "E")%char = false.
Proof.
  intros H. repeat split; apply Ascii.eqb_neq; intros ->; by vm_compute in H.
Qed.

(** The parts of the text of a number. *)
Lemma parseNumber_parts s v r :
  JSON.parseNumber s = Some (v, r) ->
  exists sg ip fl el,
    s = sg ++ ip ++ fl ++ el ++ r
    /\ (sg = [] \/ sg = ["-"%char])
    /\ forallb JSON.isDigit ip = true /\ ip <> []
    /\ fractionLexeme fl /\ exponentLexeme el.
Proof.
  unfold JSON.parseNumber.
  destruct (match s with
            | [] => (false, [])
            | c :: r0 => if (c =? "-")%char then (true, r0) else (false, s)
            end) as [neg s1] eqn:Es.
  assert (Hsign : exists sg, s = sg ++ s1 /\ (sg = [] \/ sg = ["-"%char])).
  { destruct s as [|c r0]; [simplify_eq; by exists []; auto|].
    destruct (Ascii.eqb_spec c "-") as [->|_]; simplify_eq.
    - exists ["-"%char]. auto.
    - exists []. auto. }
  destruct Hsign as (sg & -> & Hsg).
  destruct (JSON.parseInt s1) as [[ip r1]|] eqn:Ei; simpl; [|done].
  destruct (parseInt_spec _ _ _ Ei) as (-> & Hip & Hne).
  destruct (JSON.parseFrac r1) as [[fp r2]|] eqn:Ef; simpl; [|done].
  destruct (parseFrac_spec _ _ _ Ef) as (fl & -> & Hfl).
  destruct (JSON.parseExp r2) as [[ex r3]|] eqn:Ee; simpl; [|done].
  destruct (parseExp_spec _ _ _ Ee) as (el & -> & Hel).
  intros H. simplify_eq. by exists sg, ip, fl, el.
Qed.

(** What ends the text of a number. *)
Lemma delimited_stops x :
  delimited x ->
  match x with
  | [] => True
  | c :: _ =>
      JSON.isDigit c = false /\ (c =? ".")%char = false
      /\ (c =? "e")%char = false /\ (c =? "E")%char = false
  end.
Proof.
  destruct x as [|c x]; [done|]. simpl.
  intros [H|[->|[->| ->]]]; try done.
  unfold JSON.isJsonWhitespace in H.
  repeat (apply orb_prop in H as [H|H]);
    apply N.eqb_eq in H;
    apply (f_equal ascii_of_N) in H; rewrite ascii_N_embedding in H; by subst c.
Qed.

Lemma number_scan sg ip fl el x :
  (sg = [] \/ sg = ["-"%char]) ->
  forallb JSON.isDigit ip = true -> ip <> [] ->
  fractionLexeme fl -> exponentLexeme el ->
  match x with
  | [] => True
  | c :: _ =>
      JSON.isDigit c = false /\ (c =? ".")%char = false
      /\ (c =? "e")%char = false /\ (c =? "E")%char = false
  end ->
  SyntaxHighlighter.scanNumber (sg ++ ip ++ fl ++ el ++ x)
  = (sg ++ ip ++ fl ++ el, x).
Proof.
  intros Hsg Hip Hne Hfl Hel Hx.
  (* the exponent *)
  assert (Hexp : forall c r, el ++ x = c :: r ->
    (c =? ".")%char = false /\ JSON.isDigit c = false).
  { intros c r E. destruct Hel as [->|(e & sg' & ds & -> & He & _)].
    - simpl in E. subst x. tauto.
    - simpl in E. simplify_eq. by destruct He as [->| ->]. }
  assert (Hscan_exp :
    match el ++ x with
    | [] => ([], [])
    | c :: r =>
        if (c =? "e")%char || (c =? "E")%char
        then
          let (sign', r') :=
            match r with
            | [] => ([], [])
            | s :: r'' =>
                if (s =? "+")%char || (s =? "-")%char then ([s], r'') else ([], r)
            end in
          let (digits, r'') := SyntaxHighlighter.takeWhile JSON.isDigit r' in
          (c :: sign' ++ digits, r'')
        else ([], el ++ x)
    end = (el, x)).
  { destruct Hel as [->|(e & sg' & ds & -> & He & Hsg' & Hds & Hdigits)].
    - simpl. destruct x as [|c x]; [done|].
      destruct Hx as (_ & _ & -> & ->). done.
    - assert (Htake : SyntaxHighlighter.takeWhile JSON.isDigit (ds ++ x) = (ds, x)).
      { apply takeWhile_app; [done|]. destruct x; tauto. }
      cbn [app]. replace ((e =? "e")%char || (e =? "E")%char) with true
        by (by destruct He as [->| ->]).
      destruct Hsg' as [->|[->| ->]]; cbn [app].
      + destruct ds as [|d ds]; [done|]. cbn [app] in *.
        simpl in Hdigits. apply andb_prop in Hdigits as [Hd _].
        destruct (digit_chars d Hd) as (-> & -> & _). cbn [orb]. cbv iota.
        by rewrite Htake.
      + replace (("-" =? "+")%char || ("-" =? "-")%char) with true by done.
        cbv iota beta. by rewrite Htake.
      + replace (("+" =? "+")%char || ("+" =? "-")%char) with true by done.
        cbv iota beta. by rewrite Htake. }
  (* the fraction *)
  assert (Hscan_frac :
    match fl ++ el ++ x with
    | [] => ([], [])
    | c :: r =>
        if (c =? ".")%char
        then let (digits, r') := SyntaxHighlighter.takeWhile JSON.isDigit r in
             (c :: digits, r')
        else ([], fl ++ el ++ x)
    end = (fl, el ++ x)).
  { destruct Hfl as [->|(fp & -> & Hfp & Hdigits)].
    - cbn [app]. destruct (el ++ x) as [|c r] eqn:E; [done|].
      by destruct (Hexp c r eq_refl) as [-> _].
    - cbn [app]. replace ("." =? ".")%char with true by done.
      rewrite takeWhile_app; [done|done|].
      destruct (el ++ x) as [|c r] eqn:E; [done|].
      by destruct (Hexp c r eq_refl) as [_ ->]. }
  assert (Hint : SyntaxHighlighter.takeWhile JSON.isDigit (ip ++ fl ++ el ++ x)
                 = (ip, fl ++ el ++ x)).
  { apply takeWhile_app; [done|].
    destruct Hfl as [->|(fp & -> & _)]; [|done]. cbn [app].
    destruct (el ++ x) as [|c r] eqn:E; [done|].
    by destruct (Hexp c r eq_refl) as [_ ->]. }
  unfold SyntaxHighlighter.scanNumber.
  destruct Hsg as [->| ->]; cbn [app].
  - destruct ip as [|d ip']; [done|].
    assert (Hd : (d =? "-")%char = false).
    { simpl in Hip. apply andb_prop in Hip as [Hd _]. by destruct (digit_chars d Hd). }
    change ((d :: ip') ++ fl ++ el ++ x) with (d :: ip' ++ fl ++ el ++ x) in *.
    cbv iota beta. rewrite Hd, Hint, Hscan_frac, Hscan_exp. done.
  - replace ("-" =? "-")%char with true by done.
    cbv iota beta. rewrite Hint, Hscan_frac, Hscan_exp. done.
Qed.

Lemma number_round s v r x :
  JSON.parseNumber s = Some (v, r) ->
  exists b, s = b ++ r
    /\ (exists c m, b = c :: m /\ JS.isWhiteSpace c = false)
    /\ (delimited x -> cleanRun (b ++ x) x).
Proof.
  intros H. destruct (parseNumber_parts s v r H)
    as (sg & ip & fl & el & -> & Hsg & Hip & Hne & Hfl & Hel).
  exists (sg ++ ip ++ fl ++ el). split; [by rewrite <- !app_assoc|].
  assert (Hfirst : exists c m, sg ++ ip ++ fl ++ el = c :: m
            /\ JS.isWhiteSpace c = false
            /\ JSON.isDigit c || (c =? "-")%char = true).
  { destruct Hsg as [->| ->].
    - destruct ip as [|d ip']; [done|]. exists d, (ip' ++ fl ++ el).
      simpl in Hip. apply andb_prop in Hip as [Hd _].
      split; [done|]. split; [by apply digit_not_whitespace|by rewrite Hd].
    - by exists "-"%char, (ip ++ fl ++ el). }
  destruct Hfirst as (c & m & Hb & Hws & Hnum).
  split; [by exists c, m|].
  intros Hx.
  eapply (cleanRun_round _ SyntaxHighlighter.number (sg ++ ip ++ fl ++ el) x);
    [|done|apply cleanRun_done].
  pose proof (number_scan sg ip fl el x Hsg Hip Hne Hfl Hel (delimited_stops x Hx))
    as Hscan.
  assert (Hcode : (sg ++ ip ++ fl ++ el) ++ x = c :: m ++ x) by (by rewrite Hb).
  assert (Hnested : sg ++ ip ++ fl ++ el ++ x = c :: m ++ x).
  { rewrite <- Hcode. by rewrite <- !app_assoc. }
  rewrite Hnested in Hscan.
  unfold SyntaxHighlighter.nextToken. rewrite Hcode, Hws.
  assert ((c =? JSON.quote)%char = false) as ->.
  { apply Ascii.eqb_neq. intros ->. by vm_compute in Hnum. }
  rewrite Hnum, Hscan. done.
Qed.

Lemma skipWhitespace_split r :
  exists w, r = w ++ JSON.skipWhitespace r /\ forallb JSON.isJsonWhitespace w = true.
Proof. rewrite skipWhitespace_strip. apply strip_split. Qed.

Lemma skipWhitespace_eq r d r' :
  JSON.skipWhitespace r = d :: r' ->
  exists w, r = w ++ d :: r' /\ forallb JSON.isJsonWhitespace w = true.
Proof.
  intros E. destruct (skipWhitespace_split r) as (w & Hr & Hw).
  exists w. by rewrite <- E.
Qed.

Lemma delimited_after w c rest :
  forallb JSON.isJsonWhitespace w = true ->
  c = ","%char \/ c = "]"%char \/ c = "}"%char ->
  delimited (w ++ c :: rest).
Proof.
  intros Hw Hc. destruct w as [|a w]; simpl; [by right|].
  simpl in Hw. apply andb_prop in Hw as [-> _]. by left.
Qed.

Lemma closed_clean b : closedLexeme b -> cleanLexeme b.
Proof. intros [Hstart Hrun]. split; [done|]. intros x _. apply Hrun. Qed.

Ltac flatten := repeat (rewrite <- app_assoc || rewrite <- app_comm_cons).

Section clean_loops.
Context (value : list ascii -> option (json * list ascii)).
Context (Hvalue : forall s v r, value s = Some (v, r) ->
  exists b, s = b ++ r /\ cleanLexeme b).

Lemma parseElements_clean : forall n s acc v r,
  JSON.parseElements value n s acc = Some (v, r) ->
  exists b, s = b ++ ("]"%char :: r)
    /\ (exists c m, b = c :: m /\ JS.isWhiteSpace c = false)
    /\ forall x, cleanRun (b ++ "]"%char :: x) x.
Proof.
  induction n as [|n IH]; intros s acc v r H; simpl in H; [done|].
  destruct (value s) as [[v1 r1]|] eqn:E; simpl in H; [|done].
  apply Hvalue in E as (b1 & -> & Hstart1 & Hclean1).
  destruct (JSON.skipWhitespace r1) as [|c r2] eqn:E1; [done|].
  apply skipWhitespace_eq in E1 as (w & -> & Hw).
  destruct (Ascii.eqb_spec c ",") as [->|_].
  - apply IH in H as (b' & Hb' & Hstart' & Hclean').
    destruct (skipWhitespace_split r2) as (w2 & Hr2 & Hw2).
    rewrite Hb' in Hr2. subst r2.
    exists (b1 ++ w ++ ","%char :: w2 ++ b'). split; [by flatten|].
    split.
    { destruct Hstart1 as (c & m & -> & Hc). by exists c, (m ++ w ++ ","%char :: w2 ++ b'). }
    intros x. flatten.
    eapply cleanRun_trans; [apply Hclean1; by apply delimited_after; auto|].
    eapply cleanRun_trans; [by apply whitespace_run|].
    eapply cleanRun_trans; [apply punctuation_round; tauto|].
    eapply cleanRun_trans; [|apply Hclean'].
    apply whitespace_run; [done|].
    destruct Hstart' as (c & m & -> & Hc). done.
  - destruct (Ascii.eqb_spec c "]") as [->|]; [|done]. simplify_eq.
    exists (b1 ++ w). split; [by flatten|].
    split.
    { destruct Hstart1 as (c & m & -> & Hc). by exists c, (m ++ w). }
    intros x. flatten.
    eapply cleanRun_trans; [apply Hclean1; by apply delimited_after; auto|].
    eapply cleanRun_trans; [by apply whitespace_run|].
    apply punctuation_round; tauto.
Qed.

Lemma parseMembers_clean : forall n s acc v r,
  JSON.parseMembers value n s acc = Some (v, r) ->
  exists b, s = b ++ ("}"%char :: r)
    /\ (exists c m, b = c :: m /\ JS.isWhiteSpace c = false)
    /\ forall x, cleanRun (b ++ "}"%char :: x) x.
Proof.
  induction n as [|n IH]; intros s acc v r H; simpl in H; [done|].
  destruct s as [|c r0]; [done|].
  destruct (Ascii.eqb_spec c JSON.quote) as [->|_]; [|done].
  destruct (JSON.parseChars r0 []) as [[key r1]|] eqn:Ek; simpl in H; [|done].
  apply string_scan in Ek as (kb & -> & Hscan).
  destruct (JSON.skipWhitespace r1) as [|colon r2] eqn:E1; [done|].
  apply skipWhitespace_eq in E1 as (w1 & -> & Hw1).
  destruct (Ascii.eqb_spec colon ":") as [->|_]; [|done].
  destruct (value (JSON.skipWhitespace r2)) as [[v1 r3]|] eqn:E; simpl in H; [|done].
  apply Hvalue in E as (bv & Hbv & Hstartv & Hcleanv).
  destruct (skipWhitespace_split r2) as (w2 & Hr2 & Hw2).
  rewrite Hbv in Hr2. subst r2. clear Hbv.
  destruct (JSON.skipWhitespace r3) as [|d r4] eqn:E3; [done|].
  apply skipWhitespace_eq in E3 as (w3 & -> & Hw3).
  assert (Hhead : forall d' tail, d' = ","%char \/ d' = "}"%char ->
    cleanRun (JSON.quote :: kb ++ w1 ++ ":"%char :: w2 ++ bv ++ w3 ++ d' :: tail) tail).
  { intros d' tail Hd'.
    eapply cleanRun_trans; [by apply string_round|].
    eapply cleanRun_trans; [by apply whitespace_run|].
    eapply cleanRun_trans; [apply punctuation_round; tauto|].
    eapply cleanRun_trans.
    { apply whitespace_run; [done|]. by destruct Hstartv as (c & m & -> & Hc). }
    eapply cleanRun_trans.
    { apply Hcleanv. apply delimited_after; [done|]. tauto. }
    eapply cleanRun_trans; [apply whitespace_run; [done|by destruct Hd' as [->| ->]]|].
    apply punctuation_round; tauto. }
  destruct (Ascii.eqb_spec d ",") as [->|_].
  - apply IH in H as (b' & Hb' & Hstart' & Hclean').
    destruct (skipWhitespace_split r4) as (w4 & Hr4 & Hw4).
    rewrite Hb' in Hr4. subst r4.
    exists (JSON.quote :: kb ++ w1 ++ ":"%char :: w2 ++ bv ++ w3 ++ ","%char :: w4 ++ b').
    split; [by flatten|]. split; [by eexists _, _|].
    intros x. flatten.
    eapply cleanRun_trans; [apply Hhead; tauto|].
    eapply cleanRun_trans; [|apply Hclean'].
    apply whitespace_run; [done|].
    destruct Hstart' as (c & m & -> & Hc). done.
  - destruct (Ascii.eqb_spec d "}") as [->|]; [|done]. simplify_eq.
    exists (JSON.quote :: kb ++ w1 ++ ":"%char :: w2 ++ bv ++ w3).
    split; [by flatten|]. split; [by eexists _, _|].
    intros x. flatten. apply Hhead. tauto.
Qed.

End clean_loops.

(** The text of a parsed value is read without an error token. *)
Lemma parseValue_clean : forall fuel s v r,
  JSON.parseValue fuel s = Some (v, r) -> exists b, s = b ++ r /\ cleanLexeme b.
Proof.
  induction fuel as [|fuel IH]; intros s v r H; simpl in H; [done|].
  destruct s as [|c s]; [done|].
  destruct (Ascii.eqb_spec c "{") as [->|_].
  { destruct (JSON.skipWhitespace s) as [|d r'] eqn:E; [done|].
    apply skipWhitespace_eq in E as (w & -> & Hw).
    destruct (Ascii.eqb_spec d "}") as [->|_].
    - simplify_eq. exists ("{"%char :: w ++ ["}"%char]).
      split; [by flatten|]. apply closed_clean. split; [by eexists _, _|].
      intros x. flatten.
      eapply cleanRun_trans; [apply punctuation_round; tauto|].
      eapply cleanRun_trans; [by apply whitespace_run|].
      apply punctuation_round; tauto.
    - apply (parseMembers_clean _ IH) in H as (b & Hb & Hstart & Hclean).
      rewrite Hb.
      exists ("{"%char :: w ++ b ++ ["}"%char]).
      split; [by flatten|]. apply closed_clean. split; [by eexists _, _|].
      intros x. flatten.
      eapply cleanRun_trans; [apply punctuation_round; tauto|].
      eapply cleanRun_trans; [|apply Hclean].
      apply whitespace_run; [done|]. by destruct Hstart as (c & m & -> & Hc). }
  destruct (Ascii.eqb_spec c "[") as [->|_].
  { destruct (JSON.skipWhitespace s) as [|d r'] eqn:E; [done|].
    apply skipWhitespace_eq in E as (w & -> & Hw).
    destruct (Ascii.eqb_spec d "]") as [->|_].
    - simplify_eq. exists ("["%char :: w ++ ["]"%char]).
      split; [by flatten|]. apply closed_clean. split; [by eexists _, _|].
      intros x. flatten.
      eapply cleanRun_trans; [apply punctuation_round; tauto|].
      eapply cleanRun_trans; [by apply whitespace_run|].
      apply punctuation_round; tauto.
    - apply (parseElements_clean _ IH) in H as (b & Hb & Hstart & Hclean).
      rewrite Hb.
      exists ("["%char :: w ++ b ++ ["]"%char]).
      split; [by flatten|]. apply closed_clean. split; [by eexists _, _|].
      intros x. flatten.
      eapply cleanRun_trans; [apply punctuation_round; tauto|].
      eapply cleanRun_trans; [|apply Hclean].
      apply whitespace_run; [done|]. by destruct Hstart as (c & m & -> & Hc). }
  destruct (Ascii.eqb_spec c JSON.quote) as [->|_].
  { destruct (JSON.parseChars s []) as [[str r']|] eqn:E; simpl in H; [|done].
    simplify_eq. apply string_scan in E as (b & -> & Hscan).
    exists (JSON.quote :: b). split; [done|]. apply closed_clean.
    split; [by eexists _, _|]. intros x. flatten. by apply string_round. }
  assert (Hlit : forall word value,
    word = "true" \/ word = "false" \/ word = "null" ->
    JSON.parseLiteral word value (c :: s) = Some (v, r) ->
    exists b, c :: s = b ++ r /\ cleanLexeme b).
  { intros word value Hword Hl. unfold JSON.parseLiteral in Hl.
    destruct (JSON.stripPrefix _ _) as [r'|] eqn:E; simpl in Hl; [|done].
    simplify_eq. apply stripPrefix_consumes in E.
    exists (list_ascii_of_string word). split; [done|]. apply closed_clean.
    split; [by destruct Hword as [->|[->| ->]]; eexists _, _|].
    intros x. by apply literal_round. }
  destruct (Ascii.eqb_spec c "t") as [->|_]; [by eapply Hlit; [|exact H]; auto|].
  destruct (Ascii.eqb_spec c "f") as [->|_]; [by eapply Hlit; [|exact H]; auto|].
  destruct (Ascii.eqb_spec c "n") as [->|_]; [by eapply Hlit; [|exact H]; auto|].
  clear Hlit.
  assert (Hnum := fun x => number_round (c :: s) v r x H).
  destruct (Hnum []) as (b & Hb & Hstart & _).
  exists b. split; [done|]. split; [done|].
  intros x Hx. destruct (Hnum x) as (b' & Hb' & _ & Hrun).
  assert (b' = b) as ->.
  { rewrite Hb in Hb'. by apply app_inv_tail in Hb'. }
  by apply Hrun.
Qed.

Lemma cleanRun_tokens code code' :
  cleanRun code code' -> code' = [] ->
  forall fuel st, (length code <= fuel)%nat ->
  exists st',
    SyntaxHighlighter.tokenize fuel code st = Normal st'
    /\ (Forall (fun token => isError token = false) (SyntaxHighlighter.Lexer.tokens st) ->
        Forall (fun token => isError token = false) (SyntaxHighlighter.Lexer.tokens st')).
Proof.
  induction 1 as [code|code type text code1 code2 Hnext Htype _ IH]; intros -> fuel st Hfuel.
  - exists st. split; [by destruct fuel|done].
  - pose proof (nextToken_splits _ _ _ _ Hnext) as [-> Htext].
    destruct fuel as [|fuel].
    { rewrite length_app in Hfuel. destruct text; [done|simpl in Hfuel; lia]. }
    cbn [SyntaxHighlighter.tokenize]. rewrite Hnext.
    destruct (IH eq_refl fuel (SyntaxHighlighter.addToken type text st))
      as (st' & Hrun & Hclean).
    { rewrite length_app in Hfuel. destruct text; [done|simpl in Hfuel; lia]. }
    exists st'. split; [done|]. intros Hst. apply Hclean.
    unfold SyntaxHighlighter.addToken. simpl. apply Forall_app. split; [done|].
    constructor; [|done]. unfold isError. simpl. by destruct type.
Qed.

(** X24.  The tokenizer finds no error token in a code that
    [JSON.parse] accepts. *)
Theorem valid_json_has_no_error_token (code : string) (value : json) :
  JSON.parse code = Normal value ->
  exists tokens,
    SyntaxHighlighter.tokenizeJson code = Normal tokens
    /\ Forall (fun token => isError token = false) tokens.
Proof.
  unfold JSON.parse. destruct (JSON.parseText code) as [v|] eqn:E; [|done].
  intros _. unfold JSON.parseText in E.
  set (body := JSON.trimWhitespace (list_ascii_of_string code)) in *.
  destruct (JSON.parseValue (S (length body)) body) as [[v' r]|] eqn:Ev; simpl in E; [|done].
  destruct r; [|done]. simplify_eq.
  destruct (parseValue_clean _ _ _ _ Ev) as (b & Hbody & Hstart & Hclean).
  rewrite app_nil_r in Hbody. subst b.
  destruct (strip_both_split JSON.isJsonWhitespace (list_ascii_of_string code))
    as (w1 & w2 & Hcode & Hw1 & Hw2).
  assert (Hsplit : list_ascii_of_string code = w1 ++ body ++ w2).
  { unfold body, JSON.trimWhitespace.
    rewrite (skipWhitespace_strip (list_ascii_of_string code)), skipWhitespace_strip.
    exact Hcode. }
  clear Hcode. clearbody body.
  assert (Hrun : cleanRun (list_ascii_of_string code) []).
  { rewrite Hsplit.
    eapply cleanRun_trans.
    { apply whitespace_run; [done|]. by destruct Hstart as (c & m & -> & Hc). }
    eapply cleanRun_trans.
    { apply Hclean. destruct w2 as [|c w2]; [done|].
      simpl in Hw2. apply andb_prop in Hw2 as [Hc _]. simpl. by left. }
    rewrite <- (app_nil_r w2) at 1. by apply whitespace_run. }
  destruct (cleanRun_tokens _ _ Hrun eq_refl (String.length code)
              SyntaxHighlighter.Lexer.initial) as (st & Htokens & Hnone).
  { clear. induction code; simpl; lia. }
  exists (SyntaxHighlighter.Lexer.tokens st).
  unfold SyntaxHighlighter.tokenizeJson. rewrite Htokens. split; [done|].
  apply Hnone. constructor.
Qed.

Lemma valid_json_has_no_error_token_witness :
  exists tokens,
    SyntaxHighlighter.tokenizeJson (Samples.jsonText "{'a': [1, -2.5e3, true, null]}")
      = Normal tokens
    /\ Forall (fun token => isError token = false) tokens.
Proof.
  apply (valid_json_has_no_error_token
           (Samples.jsonText "{'a': [1, -2.5e3, true, null]}")
           (JObject [("a", JArray [JNumber 1 0; JNumber (-25) 2; JBool true; JNull])])).
  vm_compute. reflexivity.
Defined.

(** *** The lines that are shown *)

Lemma lineAfter_app a b : lineAfter a <= lineAfter (a ++ b).
Proof. unfold lineAfter. rewrite List.filter_app, length_app. lia. Qed.

Lemma filter_is_take {A} (p : A -> bool) (l : list A) :
  (forall i j x y, (i <= j)%nat -> l !! i = Some x -> l !! j = Some y ->
     p y = true -> p x = true) ->
  exists k, List.filter p l = take k l.
Proof.
  induction l as [|x l IH]; intros Hmono; [by exists 0%nat|].
  simpl. destruct (p x) eqn:Hx.
  - destruct IH as [k Hk].
    { intros i j a b Hij Ha Hb. by apply (Hmono (S i) (S j) a b); [lia|..]. }
    exists (S k). simpl. by rewrite Hk.
  - exists 0%nat. simpl.
    assert (Hnone : forall y, In y l -> p y = false).
    { intros y Hy. apply list_elem_of_In, list_elem_of_lookup in Hy as [j Hj].
      destruct (p y) eqn:Hy'; [|done].
      rewrite <- Hx. symmetry. by apply (Hmono 0%nat (S j) x y); [lia|..]. }
    clear -Hnone. induction l as [|y l IHl]; simpl; [done|].
    rewrite (Hnone y) by (by left). apply IHl. intros z Hz. apply Hnone. by right.
Qed.

(** X25.  The tokens on the first [maxLines] lines are the first
    tokens of the code: what the highlighter shows under a line limit is
    a prefix of the code. *)
Theorem shown_lines_are_a_prefix (code : string)
    (tokens : list SyntaxHighlighter.Token.t) (maxLines : option Z) :
  SyntaxHighlighter.tokenizeJson code = Normal tokens ->
  exists rest,
    code = SyntaxHighlighter.shownText (SyntaxHighlighter.displayTokens maxLines tokens)
           +:+ rest.
Proof.
  intros Hrun.
  destruct (tokenizeJson_lexed code) as (st & Hrun' & Hspell & _ & _ & Htokens).
  rewrite Hrun in Hrun'. injection Hrun' as ->.
  apply (f_equal string_of_list_ascii) in Hspell.
  rewrite !string_of_list_ascii_of_string in Hspell.
  assert (Hall : exists k,
    SyntaxHighlighter.displayTokens maxLines (SyntaxHighlighter.Lexer.tokens st)
    = take k (SyntaxHighlighter.Lexer.tokens st)).
  { unfold SyntaxHighlighter.displayTokens.
    destruct maxLines as [n|]; [|exists (length (SyntaxHighlighter.Lexer.tokens st));
                                  by rewrite firstn_all].
    destruct (n =? 0); [exists (length (SyntaxHighlighter.Lexer.tokens st));
                        by rewrite firstn_all|].
    apply filter_is_take. intros i j x y Hij Hi Hj Hy.
    apply Z.leb_le in Hy. apply Z.leb_le.
    destruct (Htokens i x Hi) as (_ & -> & _).
    destruct (Htokens j y Hj) as (_ & Hline & _). rewrite Hline in Hy.
    etrans; [|exact Hy].
    rewrite <- (take_drop i (take j (SyntaxHighlighter.Lexer.tokens st))).
    rewrite take_take, Nat.min_l by lia.
    rewrite shownText_app, chars_append. apply lineAfter_app. }
  destruct Hall as [k ->].
  exists (SyntaxHighlighter.shownText (drop k (SyntaxHighlighter.Lexer.tokens st))).
  by rewrite <- shownText_app, take_drop.
Qed.

Lemma shown_lines_are_a_prefix_witness :
  let code := String "[" (String SyntaxHighlighter.newline "1]") in
  exists rest,
    code = SyntaxHighlighter.shownText
             (SyntaxHighlighter.displayTokens (Some 1)
                [SyntaxHighlighter.Token.mk SyntaxHighlighter.punctuation "[" 1 1;
                 SyntaxHighlighter.Token.mk SyntaxHighlighter.whitespace
                   (String SyntaxHighlighter.newline "") 1 2;
                 SyntaxHighlighter.Token.mk SyntaxHighlighter.number "1" 2 1;
                 SyntaxHighlighter.Token.mk SyntaxHighlighter.punctuation "]" 2 2])
           +:+ rest.
Proof.
  intros code. apply (shown_lines_are_a_prefix code _ (Some 1)).
  vm_compute. reflexivity.
Defined.

Lemma fold_max_bounds (lines : list Z) (low high : Z) :
  low <= high -> Forall (fun line => line <= high) lines ->
  low <= fold_left Z.max lines low <= high.
Proof.
  revert low. induction lines as [|line lines IH]; intros low Hlow Hall; simpl; [lia|].
  inversion Hall as [|? ? Hline Hrest]; subst.
  destruct (IH (Z.max low line)) as [H1 H2]; [lia|done|]. lia.
Qed.

(** X26.  The number of lines that the highlighter numbers is at least
    1 and at most the number of lines of the code. *)
Theorem line_count_within_code (code : string)
    (tokens : list SyntaxHighlighter.Token.t) :
  SyntaxHighlighter.tokenizeJson code = Normal tokens ->
  1 <= SyntaxHighlighter.lineCount tokens <= lineAfter (list_ascii_of_string code).
Proof.
  intros Hrun.
  destruct (tokenizeJson_lexed code) as (st & Hrun' & Hspell & _ & _ & Htokens).
  rewrite Hrun in Hrun'. injection Hrun' as ->.
  unfold SyntaxHighlighter.lineCount. apply fold_max_bounds.
  { unfold lineAfter. lia. }
  apply Forall_fmap, Forall_lookup. intros i token Hi. simpl.
  destruct (Htokens i token Hi) as (_ & -> & _).
  rewrite <- Hspell.
  rewrite <- (take_drop i (SyntaxHighlighter.Lexer.tokens st)) at 2.
  rewrite shownText_app, chars_append. apply lineAfter_app.
Qed.

Lemma line_count_within_code_witness :
  let code := String "[" (String SyntaxHighlighter.newline "1]") in
  let tokens :=
    [SyntaxHighlighter.Token.mk SyntaxHighlighter.punctuation "[" 1 1;
     SyntaxHighlighter.Token.mk SyntaxHighlighter.whitespace
       (String SyntaxHighlighter.newline "") 1 2;
     SyntaxHighlighter.Token.mk SyntaxHighlighter.number "1" 2 1;
     SyntaxHighlighter.Token.mk SyntaxHighlighter.punctuation "]" 2 2] in
  1 <= SyntaxHighlighter.lineCount tokens <= lineAfter (list_ascii_of_string code).
Proof.
  intros code tokens. apply (line_count_within_code code tokens).
  vm_compute. reflexivity.
Defined.

(** ** The extraction of archives *)

Section extraction.
Context (archive : string) (maxFileSize : Z) (extensions : list string) (now : Z).

(** What the loop keeps true of the result. *)
Lemma extractEntry_accounts (zipFiles : list ZipExtractor.ZipObject.t) :
  forall result,
  let fileOk (file : HomePage.FileData.t) :=
    HomePage.FileData.content file <> ""
    /\ HomePage.FileData.size file
       = Z.of_nat (String.length (HomePage.FileData.content file))
    /\ HomePage.FileData.size file <= maxFileSize
    /\ ZipExtractor.includes extensions (HomePage.FileData.type file) = true
    /\ HomePage.FileData.extractedFrom file = Some archive in
  let result' :=
    fold_left (ZipExtractor.extractEntry archive maxFileSize extensions now)
              zipFiles result in
  ZipExtractor.Result.totalExtracted result
    = Z.of_nat (length (ZipExtractor.Result.files result)) ->
  Z.of_nat (length (ZipExtractor.Result.errors result))
    <= ZipExtractor.Result.totalSkipped result ->
  Forall fileOk (ZipExtractor.Result.files result) ->
  ZipExtractor.Result.totalExtracted result'
    = Z.of_nat (length (ZipExtractor.Result.files result'))
  /\ ZipExtractor.Result.totalExtracted result' + ZipExtractor.Result.totalSkipped result'
     = ZipExtractor.Result.totalExtracted result + ZipExtractor.Result.totalSkipped result
       + Z.of_nat (length zipFiles)
  /\ Z.of_nat (length (ZipExtractor.Result.errors result'))
     <= ZipExtractor.Result.totalSkipped result'
  /\ Forall fileOk (ZipExtractor.Result.files result')
  /\ (length (ZipExtractor.Result.warnings result)
      <= length (ZipExtractor.Result.warnings result'))%nat.
Proof.
  induction zipFiles as [|zipFile zipFiles IH]; intros result fileOk; simpl.
  { intros. repeat split; try done; lia. }
  intros Hfiles Herrors Hok.
  set (step := ZipExtractor.extractEntry archive maxFileSize extensions now result zipFile).
  assert (Hstep :
    ZipExtractor.Result.totalExtracted step
      = Z.of_nat (length (ZipExtractor.Result.files step))
    /\ ZipExtractor.Result.totalExtracted step + ZipExtractor.Result.totalSkipped step
       = ZipExtractor.Result.totalExtracted result
         + ZipExtractor.Result.totalSkipped result + 1
    /\ Z.of_nat (length (ZipExtractor.Result.errors step))
       <= ZipExtractor.Result.totalSkipped step
    /\ Forall fileOk (ZipExtractor.Result.files step)
    /\ (length (ZipExtractor.Result.warnings result)
        <= length (ZipExtractor.Result.warnings step))%nat).
  { unfold step, ZipExtractor.extractEntry.
    destruct (negb _) eqn:Hext.
    { simpl. rewrite length_app. simpl. repeat split; try done; lia. }
    apply negb_false_iff in Hext.
    destruct (ZipExtractor.ZipObject.content zipFile) as [content|message].
    - destruct (Z.gtb_spec (Z.of_nat (String.length content)) maxFileSize).
      { simpl. rewrite length_app. simpl. repeat split; try done; lia. }
      destruct (Z.eqb_spec (Z.of_nat (String.length content)) 0).
      { simpl. rewrite length_app. simpl. repeat split; try done; lia. }
      simpl. rewrite length_app. simpl. repeat split; try done; try lia.
      apply Forall_app. split; [done|]. constructor; [|done].
      unfold fileOk. simpl. repeat split; try done.
      intros ->. simpl in *. lia.
    - simpl. rewrite length_app. simpl. repeat split; try done; lia. }
  destruct Hstep as (H1 & H2 & H3 & H4 & H5).
  destruct (IH step H1 H3 H4) as (G1 & G2 & G3 & G4 & G5).
  repeat split; try done; lia.
Qed.

End extraction.

(** The account of an archive that could be loaded *)
Lemma extraction_accounts (archive : string)
    (entries : list ZipExtractor.ZipObject.t) (options : ZipExtractor.Options.t)
    (now : Z) :
  let maxFileSize :=
    default ZipExtractor.defaultMaxFileSize (ZipExtractor.Options.maxFileSize options) in
  let maxFiles :=
    default ZipExtractor.defaultMaxFiles (ZipExtractor.Options.maxFiles options) in
  let extensions :=
    default ZipExtractor.defaultExtensions
            (ZipExtractor.Options.supportedExtensions options) in
  let zipFiles :=
    ZipExtractor.slice0 maxFiles
      (List.filter (fun zipFile => negb (ZipExtractor.ZipObject.dir zipFile)) entries) in
  let result :=
    ZipExtractor.extractZipFile archive (ZipExtractor.Resolved entries) options now in
  ZipExtractor.Result.totalExtracted result
    = Z.of_nat (length (ZipExtractor.Result.files result))
  /\ ZipExtractor.Result.totalExtracted result + ZipExtractor.Result.totalSkipped result
     = Z.of_nat (length zipFiles)
  /\ Z.of_nat (length (ZipExtractor.Result.errors result))
     <= ZipExtractor.Result.totalSkipped result
  /\ Forall (fun file =>
       HomePage.FileData.content file <> ""
       /\ HomePage.FileData.size file
          = Z.of_nat (String.length (HomePage.FileData.content file))
       /\ HomePage.FileData.size file <= maxFileSize
       /\ ZipExtractor.includes extensions (HomePage.FileData.type file) = true
       /\ HomePage.FileData.extractedFrom file = Some archive)
     (ZipExtractor.Result.files result).
Proof.
  intros maxFileSize maxFiles extensions zipFiles result.
  unfold result, ZipExtractor.extractZipFile.
  fold maxFileSize maxFiles extensions. fold zipFiles.
  destruct (Z.eqb_spec (Z.of_nat (length zipFiles)) 0) as [Hnone|Hsome].
  { simpl. repeat split; try done; lia. }
  set (start := if Z.of_nat (length entries) >? maxFiles then _ else _).
  destruct (extractEntry_accounts archive maxFileSize extensions now zipFiles start)
    as (H1 & H2 & H3 & H4 & _).
  { unfold start. by destruct (_ >? _). }
  { unfold start. by destruct (_ >? _). }
  { unfold start. by destruct (_ >? _). }
  assert (Hstart : ZipExtractor.Result.totalExtracted start
                   + ZipExtractor.Result.totalSkipped start = 0).
  { unfold start. by destruct (_ >? _). }
  destruct (_ && _); simpl; repeat split; try done; lia.
Qed.

(** X27.  Every file entry that [extractZipFile] takes from the archive
    is counted once, as extracted or as skipped; the extracted count is
    the number of files returned; no more errors are reported than
    entries were skipped; and every file returned has a supported
    extension, a content that is not empty and not larger than the
    limit, and the name of the archive in [extractedFrom]. *)
Theorem every_entry_is_accounted_for (archive : string)
    (entries : list ZipExtractor.ZipObject.t) (options : ZipExtractor.Options.t)
    (now : Z) :
  let maxFileSize :=
    default ZipExtractor.defaultMaxFileSize (ZipExtractor.Options.maxFileSize options) in
  let maxFiles :=
    default ZipExtractor.defaultMaxFiles (ZipExtractor.Options.maxFiles options) in
  let extensions :=
    default ZipExtractor.defaultExtensions
            (ZipExtractor.Options.supportedExtensions options) in
  let zipFiles :=
    ZipExtractor.slice0 maxFiles
      (List.filter (fun zipFile => negb (ZipExtractor.ZipObject.dir zipFile)) entries) in
  let result :=
    ZipExtractor.extractZipFile archive (ZipExtractor.Resolved entries) options now in
  ZipExtractor.Result.totalExtracted result
    = Z.of_nat (length (ZipExtractor.Result.files result))
  /\ ZipExtractor.Result.totalExtracted result + ZipExtractor.Result.totalSkipped result
     = Z.of_nat (length zipFiles)
  /\ Z.of_nat (length (ZipExtractor.Result.errors result))
     <= ZipExtractor.Result.totalSkipped result
  /\ Forall (fun file =>
       HomePage.FileData.content file <> ""
       /\ HomePage.FileData.size file
          = Z.of_nat (String.length (HomePage.FileData.content file))
       /\ HomePage.FileData.size file <= maxFileSize
       /\ ZipExtractor.includes extensions (HomePage.FileData.type file) = true
       /\ HomePage.FileData.extractedFrom file = Some archive)
     (ZipExtractor.Result.files result).
Proof. apply extraction_accounts. Qed.

Lemma positive_starts_with_digit (n : Z) :
  0 < n -> exists c rest, JS.string_of_Z n = String c rest /\ JSON.isDigit c = true.
Proof.
  intros Hn. unfold JS.string_of_Z. rewrite (proj2 (Z.ltb_ge n 0)) by lia.
  unfold JS.string_of_N, N.to_uint.
  destruct (Z.to_N n) as [|p] eqn:E; [lia|].
  pose proof (DecimalPos.Unsigned.to_uint_nonnil p) as Hnil.
  destruct (Pos.to_uint p); try done; simpl; by eexists _, _.
Qed.

Lemma join_head separator c part parts :
  exists rest,
    ZipExtractor.join separator (String c part :: parts) = String c rest.
Proof. destruct parts; simpl; by eexists. Qed.

(** A summary with a part starts with the digit of a count. *)
Lemma summary_with_part (result : ZipExtractor.Result.t) :
  0 < ZipExtractor.Result.totalExtracted result
  \/ 0 < ZipExtractor.Result.totalSkipped result
  \/ ZipExtractor.Result.errors result <> []
  \/ ZipExtractor.Result.warnings result <> [] ->
  exists c rest,
    ZipExtractor.getZipExtractionSummary result = String c rest
    /\ JSON.isDigit c = true.
Proof.
  intros H. unfold ZipExtractor.getZipExtractionSummary.
  set (errors := Z.of_nat (length (ZipExtractor.Result.errors result))).
  set (warnings := Z.of_nat (length (ZipExtractor.Result.warnings result))).
  assert (Hcount : 0 < ZipExtractor.Result.totalExtracted result
                   \/ 0 < ZipExtractor.Result.totalSkipped result
                   \/ 0 < errors \/ 0 < warnings).
  { destruct H as [H|[H|[H|H]]]; [auto|auto| |].
    - right; right; left. unfold errors.
      destruct (ZipExtractor.Result.errors result); [done|simpl; lia].
    - right; right; right. unfold warnings.
      destruct (ZipExtractor.Result.warnings result); [done|simpl; lia]. }
  clear H.
  assert (Hjoin : forall n tail more,
    0 < n ->
    exists c rest,
      ZipExtractor.join ", " ((JS.string_of_Z n +:+ tail) :: more) = String c rest
      /\ JSON.isDigit c = true).
  { intros n tail more Hn.
    destruct (positive_starts_with_digit n Hn) as (c & r & -> & Hc).
    destruct (join_head ", " c (r +:+ tail) more) as [rest Hrest].
    exists c, rest. split; [exact Hrest|done]. }
  destruct (Z.gtb_spec (ZipExtractor.Result.totalExtracted result) 0) as [H1|H1].
  { cbn [app]. edestruct Hjoin as (c & rest & -> & Hc); [exact H1|].
    exists c, rest. done. }
  destruct (Z.gtb_spec (ZipExtractor.Result.totalSkipped result) 0) as [H2|H2].
  { cbn [app]. edestruct Hjoin as (c & rest & -> & Hc); [exact H2|].
    exists c, rest. done. }
  destruct (Z.gtb_spec errors 0) as [H3|H3].
  { cbn [app]. edestruct Hjoin as (c & rest & -> & Hc); [exact H3|].
    exists c, rest. done. }
  destruct (Z.gtb_spec warnings 0) as [H4|H4].
  { cbn [app]. edestruct Hjoin as (c & rest & -> & Hc); [exact H4|].
    exists c, rest. done. }
  lia.
Qed.

(** X28.  [extractZipFile] never returns empty-handed: its result has
    a file, an error or a warning, whatever the archive and the
    options.  The summary of its result is therefore never the text
    "No files processed". *)
Theorem extraction_reports_something (archive : string)
    (loaded : ZipExtractor.settled (list ZipExtractor.ZipObject.t))
    (options : ZipExtractor.Options.t) (now : Z) :
  let result := ZipExtractor.extractZipFile archive loaded options now in
  (ZipExtractor.Result.files result <> []
   \/ ZipExtractor.Result.errors result <> []
   \/ ZipExtractor.Result.warnings result <> [])
  /\ String.eqb (ZipExtractor.getZipExtractionSummary result) "No files processed"
     = false.
Proof.
  intros result.
  assert (Hsome : ZipExtractor.Result.files result <> []
                  \/ ZipExtractor.Result.errors result <> []
                  \/ ZipExtractor.Result.warnings result <> []).
  { unfold result, ZipExtractor.extractZipFile.
    destruct loaded as [entries|message]; [|right; left; done].
    destruct (_ =? 0); [right; right; done|].
    set (final := fold_left _ _ _).
    destruct (Z.eqb_spec (Z.of_nat (length (ZipExtractor.Result.files final))) 0)
      as [Hf|Hf];
      destruct (Z.eqb_spec (Z.of_nat (length (ZipExtractor.Result.errors final))) 0)
        as [He|He]; simpl.
    - right; right. by destruct (ZipExtractor.Result.warnings final).
    - right; left. by destruct (ZipExtractor.Result.errors final).
    - left. by destruct (ZipExtractor.Result.files final).
    - left. by destruct (ZipExtractor.Result.files final). }
  split; [exact Hsome|].
  destruct (summary_with_part result) as (c & rest & -> & Hc).
  { destruct Hsome as [Hfiles|[Herrors|Hwarnings]]; [left|auto|auto].
    destruct loaded as [entries|message]; [|done].
    pose proof (extraction_accounts archive entries options now)
      as (Hcount & _).
    fold result in Hcount. rewrite Hcount.
    destruct (ZipExtractor.Result.files result); [done|simpl; lia]. }
  simpl. destruct (Ascii.eqb_spec c "N") as [->|]; [by vm_compute in Hc|done].
Qed.

(** ** The two searches *)

Lemma toStringValue_returns (t : json) :
  withoutKey "toString" t = true -> exists s, TreeView.toStringValue t = Normal s.
Proof.
  induction t as [| | | |items IH|props IH] using json_ind; intros Hfree;
    try (by eexists).
  - simpl in Hfree. simpl.
    induction IH as [|c l Hc _ IHl]; [by eexists|].
    simpl in Hfree. apply andb_prop in Hfree as [Hc' Hl].
    destruct (IHl Hl) as [r Hr]. destruct (Hc Hc') as [s Hs].
    assert (Hitem : exists s', match c with
                               | JNull => Normal ""
                               | _ => TreeView.toStringValue c
                               end = Normal s').
    { destruct c; try (by eexists); by exists s. }
    destruct Hitem as [s' ->]. simpl.
    destruct l as [|c' l']; [by eexists|].
    rewrite Hr. simpl. by eexists.
  - simpl in Hfree. apply andb_prop in Hfree as [Hown _].
    apply negb_true_iff in Hown. simpl. rewrite Hown. by eexists.
Qed.

Lemma toStringValue_scalar (t : json) :
  isScalar t = true -> TreeView.toStringValue t = Normal (primitiveToString t).
Proof. by destruct t. Qed.

Lemma lower_append (a b : string) :
  JS.toLowerCase (a +:+ b) = JS.toLowerCase a +:+ JS.toLowerCase b.
Proof. induction a as [|c a IH]; simpl; [done|]. by rewrite IH. Qed.

Lemma includes_suffix (a b sub : string) :
  JS.includes b sub = true -> JS.includes (a +:+ b) sub = true.
Proof.
  intros H. induction a as [|c a IH]; simpl; [done|].
  rewrite IH. apply orb_true_r.
Qed.

Section view_search.
Context (searchTerm : string).
Context (Hterm : JS.truthy (JS.trim searchTerm) = true).

Abbreviation lowered := (JS.toLowerCase searchTerm).

(** The path of a member ends with its key. *)
Abbreviation keyInPath path key :=
  (match key with
   | Some k => exists front : string, path = front +:+ k
   | None => True
   end).

(** The hits of the library for a node are among the two hits that the
    view can add for it. *)
Lemma node_hits_covered (t : json) (path : string) (key : option string)
    (valueStr : string) (hit : Hit.t) :
  keyInPath path key ->
  TreeView.toStringValue t = Normal valueStr ->
  In hit (hitsOf false lowered (mkNode path key t)) ->
  In hit ((if JS.includes (JS.toLowerCase valueStr) lowered
           then [Hit.mk path t (getJsonType t)] else [])
          ++ (if JS.includes (JS.toLowerCase path) lowered
              then [Hit.mk path t (getJsonType t)] else [])).
Proof.
  intros Hkey Hstr Hin. unfold hitsOf in Hin. apply in_app_or in Hin as [Hin|Hin].
  - destruct (keyMatches false lowered (mkNode path key t)) eqn:Hk; [|done].
    destruct Hin as [<-|[]]. apply in_or_app. right.
    unfold keyMatches, folded in Hk. simpl in Hk.
    destruct key as [k|]; [|done]. destruct Hkey as [front ->].
    rewrite lower_append, (includes_suffix _ _ _ Hk). by left.
  - destruct (valueMatches false lowered (mkNode path key t)) eqn:Hv; [|done].
    destruct Hin as [<-|[]]. apply in_or_app. left.
    unfold valueMatches, folded in Hv. simpl in Hv.
    apply andb_prop in Hv as [Hscalar Hv].
    rewrite (toStringValue_scalar t Hscalar) in Hstr. injection Hstr as <-.
    rewrite Hv. by left.
Qed.

Lemma keyPath_ends path k : exists front, keyPath path k = front +:+ k.
Proof.
  unfold keyPath. destruct (JS.truthy path).
  - exists (path +:+ ".").
    rewrite !append_chars, !list_ascii_of_string_of_list_ascii. by rewrite <- app_assoc.
  - by exists "".
Qed.

Lemma push_if {A} (b : bool) (l : list A) (x : A) :
  (if b then l ++ [x] else l) = l ++ (if b then [x] else []).
Proof. destruct b; [done|by rewrite app_nil_r]. Qed.

(** The two hits of the view for a node. *)
Abbreviation ownHits t path valueStr :=
  ((if JS.includes (JS.toLowerCase valueStr) lowered
    then [Hit.mk path t (getJsonType t)] else [])
   ++ (if JS.includes (JS.toLowerCase path) lowered
       then [Hit.mk path t (getJsonType t)] else [])).

Lemma rec_scalar (t : json) (path : string) (results : list Hit.t) :
  isScalar t = true ->
  TreeView.searchInJson_rec searchTerm t path results
  = Normal (results ++ ownHits t path (primitiveToString t)).
Proof.
  intros Hscalar. destruct t; try done; simpl; rewrite Hterm; simpl;
    by rewrite !push_if, <- app_assoc.
Qed.

(** The body of the view's search once the value is in text form. *)
Lemma rec_unfold (t : json) (path valueStr : string) (results : list Hit.t) :
  TreeView.toStringValue t = Normal valueStr ->
  TreeView.searchInJson_rec searchTerm t path results
  = let results := results ++ ownHits t path valueStr in
    match t with
    | JObject props =>
        (fix forEach (l : list (string * json)) (results : list Hit.t)
           : completion (list Hit.t) :=
           match l with
           | [] => Normal results
           | (key, value) :: l' =>
               results ← TreeView.searchInJson_rec searchTerm value
                           (keyPath path key) results;
               forEach l' results
           end) props results
    | JArray items =>
        (fix forEach (l : list json) (index : nat) (results : list Hit.t)
           : completion (list Hit.t) :=
           match l with
           | [] => Normal results
           | item :: l' =>
               results ← TreeView.searchInJson_rec searchTerm item
                           (path +:+ "[" +:+ JS.string_of_nat index +:+ "]") results;
               forEach l' (S index) results
           end) items 0%nat results
    | _ => Normal results
    end.
Proof.
  intros Hstr.
  destruct t; cbn [TreeView.searchInJson_rec]; rewrite Hterm, Hstr;
    cbn [negb mbind completion_bind]; cbv zeta;
    by rewrite !push_if, <- app_assoc.
Qed.

Lemma view_search_covers (t : json) : forall path key results,
  keyInPath path key ->
  withoutKey "toString" t = true ->
  exists out,
    TreeView.searchInJson_rec searchTerm t path results = Normal (results ++ out)
    /\ forall hit,
         In hit (concat (map (hitsOf false lowered) (nodes t path key))) ->
         In hit out.
Proof.
  induction t as [| | | |items IH|props IH] using json_ind;
    intros path key results Hkey Hfree.
  1-4: (
    eexists; split; [by apply rec_scalar|];
    intros hit Hin; simpl in Hin; rewrite app_nil_r in Hin;
    eapply node_hits_covered in Hin; [exact Hin|exact Hkey|done]).
  - (* array *)
    destruct (toStringValue_returns (JArray items) Hfree) as [valueStr Hstr].
    rewrite (rec_unfold _ _ _ _ Hstr). cbv zeta.
    set (own := ownHits (JArray items) path valueStr).
    assert (Hown : forall hit,
              In hit (hitsOf false lowered (mkNode path key (JArray items))) ->
              In hit own).
    { intros hit Hin. eapply node_hits_covered; [exact Hkey|exact Hstr|exact Hin]. }
    clearbody own. clear Hstr. simpl in Hfree.
    assert (Hloop : forall index results,
      exists out,
        (fix forEach (l : list json) (index : nat) (results : list Hit.t)
           : completion (list Hit.t) :=
           match l with
           | [] => Normal results
           | item :: l' =>
               results ← TreeView.searchInJson_rec searchTerm item
                           (path +:+ "[" +:+ JS.string_of_nat index +:+ "]") results;
               forEach l' (S index) results
           end) items index results = Normal (results ++ out)
        /\ forall hit,
             In hit (concat (map (hitsOf false lowered)
                       ((fix each (l : list json) (index : nat) : list node :=
                           match l with
                           | [] => []
                           | item :: l' =>
                               nodes item (indexPath path index) None ++ each l' (S index)
                           end) items index))) ->
             In hit out).
    { clear Hown. induction IH as [|c l Hc _ IHl]; intros index results0.
      - exists []. split; [by rewrite app_nil_r|done].
      - simpl in Hfree. apply andb_prop in Hfree as [Hc' Hl].
        destruct (Hc (path +:+ "[" +:+ JS.string_of_nat index +:+ "]") None results0
                    I Hc') as (out1 & E1 & Hin1).
        destruct (IHl Hl (S index) (results0 ++ out1)) as (out2 & E2 & Hin2).
        exists (out1 ++ out2). rewrite E1.
        split; [rewrite app_assoc; exact E2|].
        intros hit Hin. rewrite map_app, concat_app in Hin.
        apply in_or_app. apply in_app_or in Hin as [Hin|Hin]; [left|right; auto].
        apply Hin1. revert Hin. unfold indexPath.
        destruct (JS.truthy path) eqn:Hp; [done|].
        apply falsy_empty in Hp. by subst path. }
    destruct (Hloop 0%nat (results ++ own)) as (out & E & Hout).
    exists (own ++ out). split; [rewrite app_assoc; exact E|].
    intros hit Hin. cbn [nodes map concat] in Hin. apply in_or_app.
    apply in_app_or in Hin as [Hin|Hin]; [left|right]; auto.
  - (* object *)
    destruct (toStringValue_returns (JObject props) Hfree) as [valueStr Hstr].
    rewrite (rec_unfold _ _ _ _ Hstr). cbv zeta.
    set (own := ownHits (JObject props) path valueStr).
    assert (Hown : forall hit,
              In hit (hitsOf false lowered (mkNode path key (JObject props))) ->
              In hit own).
    { intros hit Hin. eapply node_hits_covered; [exact Hkey|exact Hstr|exact Hin]. }
    clearbody own. clear Hstr. simpl in Hfree.
    apply andb_prop in Hfree as [_ Hfree].
    assert (Hloop : forall results,
      exists out,
        (fix forEach (l : list (string * json)) (results : list Hit.t)
           : completion (list Hit.t) :=
           match l with
           | [] => Normal results
           | (key, value) :: l' =>
               results ← TreeView.searchInJson_rec searchTerm value
                           (keyPath path key) results;
               forEach l' results
           end) props results = Normal (results ++ out)
        /\ forall hit,
             In hit (concat (map (hitsOf false lowered)
                       ((fix each (l : list (string * json)) : list node :=
                           match l with
                           | [] => []
                           | (k, value) :: l' =>
                               nodes value (keyPath path k) (Some k) ++ each l'
                           end) props))) ->
             In hit out).
    { clear Hown. induction IH as [|[k c] l Hc _ IHl]; intros results0.
      - exists []. split; [by rewrite app_nil_r|done].
      - simpl in Hfree. apply andb_prop in Hfree as [Hc' Hl]. simpl in Hc.
        destruct (Hc (keyPath path k) (Some k) results0 (keyPath_ends path k) Hc')
          as (out1 & E1 & Hin1).
        destruct (IHl Hl (results0 ++ out1)) as (out2 & E2 & Hin2).
        exists (out1 ++ out2). rewrite E1.
        split; [rewrite app_assoc; exact E2|].
        intros hit Hin. rewrite map_app, concat_app in Hin.
        apply in_or_app. apply in_app_or in Hin as [Hin|Hin]; [left|right]; auto. }
    destruct (Hloop (results ++ own)) as (out & E & Hout).
    exists (own ++ out). split; [rewrite app_assoc; exact E|].
    intros hit Hin. cbn [nodes map concat] in Hin. apply in_or_app.
    apply in_app_or in Hin as [Hin|Hin]; [left|right]; auto.
Qed.

End view_search.

(** X29.  For a term and a document in the Latin-1 range (characters
    below U+0100, the strings of the model), the term not blank and no
    object of the document with a key "toString", the search of the tree
    view returns, and every hit of the library's case-insensitive search
    for the term is among its results.  Beyond that range the property
    is not claimed: the library lowers a key on its own and the view
    lowers the whole path, and [toLowerCase] then depends on the
    characters around a letter. *)
Theorem library_hits_are_view_hits (data : json) (searchTerm : string) :
  JS.truthy (JS.trim searchTerm) = true ->
  withoutKey "toString" data = true ->
  exists results,
    TreeView.searchInJson searchTerm data = Normal results
    /\ forall hit, In hit (JsonParser.searchInJson data searchTerm false) ->
                   In hit results.
Proof.
  intros Hterm Hfree.
  destruct (view_search_covers searchTerm Hterm data "" None [] I Hfree)
    as (out & E & Hin).
  exists out. unfold TreeView.searchInJson. rewrite Hterm. split; [exact E|].
  intros hit Hhit. apply Hin. by rewrite searchInJson_search in Hhit.
Qed.

Lemma library_hits_are_view_hits_witness :
  exists results,
    TreeView.searchInJson "b" Samples.pathDoc = Normal results
    /\ forall hit, In hit (JsonParser.searchInJson Samples.pathDoc "b" false) ->
                   In hit results.
Proof.
  apply (library_hits_are_view_hits Samples.pathDoc "b"); vm_compute; reflexivity.
Defined.
